(** * An executor of asynchronous tasks (misc/Executor.c)

    A shallow embedding of the job, job-list and execution-service code of
    [Executor.c], and the properties of its specification.

    Memory is a pair of typed heaps (jobs and futures) indexed by addresses;
    a pointer is an optional address, [None] being [NULL].  Every function of
    the C file becomes a function of the state-and-error monad [M]: a
    computation reads and updates the [World] and yields [None] when the C
    code has no defined outcome (a failed [log_assert], a dangling pointer).
    Calls that leave the file (the operating system, the logger, the task's
    own [run] and [halt] functions) append an [Event] to the world's trace;
    their results are given by oracles that may depend on the whole world. *)

From Stdlib Require Import ZArith NArith Lia.
From stdpp Require Import base option list gmap strings.

Open Scope Z_scope.

(** ** Data model *)

Abbreviation addr := positive (only parsing).
Abbreviation ptr := (option positive) (only parsing).
Abbreviation NULL := (@None positive) (only parsing).
Abbreviation pthread_t := Z (only parsing).

(** Values of <errno.h> and <signal.h> (Linux). *)
Definition EPERM : Z := 1.
Definition ESRCH : Z := 3.
Definition SIGTERM : Z := 15.

(** [size_t] is 64 bits wide. *)
Definition SIZE_MOD : N := (2 ^ 64)%N.

(** An address is a pointer value, so it is representable in 64 bits. *)
Definition valid_addr (a : addr) : Prop := (Npos a < SIZE_MOD)%N.

Inductive JobState := JOB_INITIALIZED | JOB_EXECUTING | JOB_COMPLETED.

Global Instance JobState_eq_dec : EqDecision JobState.
Proof. solve_decision. Defined.

(** [job->halt] is never [NULL]: it is the default halt function or the
    caller's. *)
Inductive HaltFn := HaltDefault | HaltUser (fn : addr).

Record Job := mkJob {
  j_mutex : bool;               (* [mutex]: is it locked? *)
  j_thread : option pthread_t;  (* [thread]: [None] until assigned *)
  j_obj : ptr;
  j_run : addr;                 (* [run]: a function pointer *)
  j_halt : HaltFn;
  j_future : ptr;
  j_prev : ptr;
  j_next : ptr;
  j_state : JobState;
  j_canceled : bool
}.

Record JobList := mkJobList {
  jl_head : ptr;
  jl_tail : ptr;
  jl_size : N
}.

(** The world holds one execution service; [job->executor] of every job
    denotes it. *)
Record Executor := mkExecutor {
  ex_mutex : bool;
  ex_jobList : JobList;
  ex_completer : ptr;
  ex_afterCompletion : ptr;
  ex_isShutdown : bool
}.

(** Modelled from the spec: the future of Future.c, as far as section 6 of
    the specification describes it: a back-reference to its job and a result
    slot (status, result pointer, canceled indication) that is published
    once. *)
Record Future := mkFuture {
  f_job : ptr;
  f_published : bool;
  f_status : Z;
  f_result : ptr;
  f_canceled : bool
}.

Inductive Event :=
| EvJobLock (j : addr)
| EvJobUnlock (j : addr)
| EvExecLock
| EvExecUnlock
| EvRun (fn : addr) (obj : ptr)
| EvHalt (fn : addr) (obj : ptr) (t : pthread_t)
| EvKill (t : pthread_t) (sig : Z)
| EvThreadCreate (j : addr) (status : Z)
| EvAfterCompletion (fn : addr) (completer : ptr) (f : ptr)
| EvFutureCancel (f : ptr)
| EvSetResult (f : addr) (status : Z) (result : ptr) (canceled : bool)
| EvLogAdd (msg : string)
| EvLogAddErrno (errnum : Z) (msg : string)
| EvLogError (msg : string) (arg : Z)
| EvLogFree.

Record World := mkWorld {
  jobs : gmap addr Job;
  futures : gmap addr Future;
  exec : Executor;
  trace : list Event
}.

(** Field updates. *)
Definition set_j_mutex (b : bool) (x : Job) : Job :=
  mkJob b (j_thread x) (j_obj x) (j_run x) (j_halt x) (j_future x)
        (j_prev x) (j_next x) (j_state x) (j_canceled x).
Definition set_j_thread (t : option pthread_t) (x : Job) : Job :=
  mkJob (j_mutex x) t (j_obj x) (j_run x) (j_halt x) (j_future x)
        (j_prev x) (j_next x) (j_state x) (j_canceled x).
Definition set_j_prev (p : ptr) (x : Job) : Job :=
  mkJob (j_mutex x) (j_thread x) (j_obj x) (j_run x) (j_halt x) (j_future x)
        p (j_next x) (j_state x) (j_canceled x).
Definition set_j_next (p : ptr) (x : Job) : Job :=
  mkJob (j_mutex x) (j_thread x) (j_obj x) (j_run x) (j_halt x) (j_future x)
        (j_prev x) p (j_state x) (j_canceled x).
Definition set_j_state (s : JobState) (x : Job) : Job :=
  mkJob (j_mutex x) (j_thread x) (j_obj x) (j_run x) (j_halt x) (j_future x)
        (j_prev x) (j_next x) s (j_canceled x).
Definition set_j_canceled (b : bool) (x : Job) : Job :=
  mkJob (j_mutex x) (j_thread x) (j_obj x) (j_run x) (j_halt x) (j_future x)
        (j_prev x) (j_next x) (j_state x) b.

Definition set_jobs (h : gmap addr Job) (w : World) : World :=
  mkWorld h (futures w) (exec w) (trace w).
Definition set_futures (h : gmap addr Future) (w : World) : World :=
  mkWorld (jobs w) h (exec w) (trace w).
Definition set_exec (e : Executor) (w : World) : World :=
  mkWorld (jobs w) (futures w) e (trace w).
Definition set_trace (t : list Event) (w : World) : World :=
  mkWorld (jobs w) (futures w) (exec w) t.

Definition set_ex_mutex (b : bool) (e : Executor) : Executor :=
  mkExecutor b (ex_jobList e) (ex_completer e) (ex_afterCompletion e)
             (ex_isShutdown e).
Definition set_ex_jobList (l : JobList) (e : Executor) : Executor :=
  mkExecutor (ex_mutex e) l (ex_completer e) (ex_afterCompletion e)
             (ex_isShutdown e).
Definition set_ex_isShutdown (b : bool) (e : Executor) : Executor :=
  mkExecutor (ex_mutex e) (ex_jobList e) (ex_completer e)
             (ex_afterCompletion e) b.

(** ** The monad of the embedding *)

Definition M (A : Type) : Type := World → option (A * World).

Global Instance M_ret : MRet M := λ A x w, Some (x, w).
Global Instance M_bind : MBind M := λ A B f m w,
  match m w with
  | Some (a, w') => f a w'
  | None => None
  end.

(** No defined outcome: a failed assertion or an invalid access. *)
Definition abort {A} : M A := λ _, None.
Definition get_world : M World := λ w, Some (w, w).
Definition modify (f : World → World) : M unit := λ w, Some (tt, f w).
Definition emit (e : Event) : M unit :=
  modify (λ w, set_trace (trace w ++ [e]) w).
Definition log_assert (b : bool) : M unit :=
  if b then mret tt else abort.

(** [*job]: reading through a dangling pointer has no defined outcome. *)
Definition get_job (j : addr) : M Job := λ w,
  match jobs w !! j with
  | Some x => Some (x, w)
  | None => None
  end.
Definition update_job (j : addr) (f : Job → Job) : M unit :=
  x ← get_job j;
  modify (λ w, set_jobs (<[j := f x]> (jobs w)) w).
Definition get_exec : M Executor := λ w, Some (exec w, w).
Definition update_exec (f : Executor → Executor) : M unit :=
  modify (λ w, set_exec (f (exec w)) w).

Definition set_jl_head (p : ptr) (l : JobList) : JobList :=
  mkJobList p (jl_tail l) (jl_size l).
Definition set_jl_tail (p : ptr) (l : JobList) : JobList :=
  mkJobList (jl_head l) p (jl_size l).
Definition set_jl_size (n : N) (l : JobList) : JobList :=
  mkJobList (jl_head l) (jl_tail l) n.

Definition get_jobList : M JobList := e ← get_exec; mret (ex_jobList e).
Definition update_jobList (f : JobList → JobList) : M unit :=
  update_exec (λ e, set_ex_jobList (f (ex_jobList e)) e).

(** ** The environment

    What the file calls and does not define.  Each oracle gives the outcome
    of one external call in the world in which it is made. *)
Record Env := mkEnv {
  (* [job->run(obj, &result)]: status and result of the task *)
  run_fn : addr → ptr → World → Z * ptr;
  (* a caller's halt function *)
  halt_fn : addr → ptr → pthread_t → World → Z;
  (* the completion handler of the executor *)
  after_fn : addr → ptr → ptr → World → Z;
  pthread_kill : pthread_t → Z → World → Z;
  (* status of [pthread_create(&thread, NULL, executor_run, job)] *)
  pthread_create : addr → World → Z;
  (* [log_malloc(sizeof(Job), "job")]: the new address or [NULL] *)
  log_malloc : World → ptr;
  mutex_init : World → Z;
  pthread_cond_init : World → Z;
  (* the allocation of [future_new()] *)
  future_alloc : World → ptr
}.

(** An external call: its outcome is the oracle's in the current world, and
    the call is recorded. *)
Definition call {A} (ev : Event) (oracle : World → A) : M A := λ w,
  Some (oracle w, set_trace (trace w ++ [ev]) w).

Section Program.

Variable E : Env.

(** ** Job to be executed *)

(** The mutex is of type [PTHREAD_MUTEX_ERRORCHECK]: locking it again from
    the thread that holds it fails, and so does the assertion.  Between two
    atomic phases of this model no mutex is held. *)
Definition job_lock (job : addr) : M unit :=
  x ← get_job job;
  log_assert (negb (j_mutex x));;
  update_job job (set_j_mutex true);;
  emit (EvJobLock job).

Definition job_unlock (job : addr) : M unit :=
  x ← get_job job;
  log_assert (j_mutex x);;
  update_job job (set_j_mutex false);;
  emit (EvJobUnlock job).

Definition job_assertLocked (job : addr) : M unit :=
  x ← get_job job;
  log_assert (j_mutex x).

Definition job_defaultHaltFunc (obj : ptr) (thread : pthread_t) : M Z :=
  status ← call (EvKill thread SIGTERM) (pthread_kill E thread SIGTERM);
  if decide (status ≠ 0) then
    if decide (status = ESRCH) then
      mret 0 (* Thread already terminated *)
    else
      emit (EvLogAddErrno status "Couldn't signal job's thread");;
      mret status
  else mret status.

(** Modelled from the spec: [future_new], [future_setJob],
    [future_setResult], [future_cancel] (further down, after [job_cancel])
    and [future_free] of Future.c, by the contract of section 6 of the
    specification. A future pointer that is [NULL] or dangling has no defined
    outcome. *)
Definition get_future (future : ptr) : M (addr * Future) := λ w,
  match future with
  | Some f =>
      match futures w !! f with
      | Some x => Some ((f, x), w)
      | None => None
      end
  | None => None
  end.

Definition future_new : M ptr :=
  a ← (λ w, Some (future_alloc E w, w));
  match a with
  | Some f =>
      modify (λ w, set_futures
                     (<[f := mkFuture NULL false 0 NULL false]> (futures w)) w);;
      mret (Some f)
  | None => mret NULL
  end.

Definition future_setJob (future : ptr) (job : addr) : M unit :=
  '(f, x) ← get_future future;
  modify (λ w, set_futures
    (<[f := mkFuture (Some job) (f_published x) (f_status x) (f_result x)
                     (f_canceled x)]> (futures w)) w).

(** Publishes once; a second publication is an error. *)
Definition future_setResult (future : ptr) (status : Z) (result : ptr)
    (canceled : bool) : M unit :=
  '(f, x) ← get_future future;
  log_assert (negb (f_published x));;
  modify (λ w, set_futures
    (<[f := mkFuture (f_job x) true status result canceled]> (futures w)) w);;
  emit (EvSetResult f status result canceled).

Definition future_free (future : ptr) : M unit :=
  '(f, _) ← get_future future;
  modify (λ w, set_futures (delete f (futures w)) w).

Definition job_new (future : ptr) (obj : ptr) (run : addr) (halt : ptr)
    : M ptr :=
  a ← (λ w, Some (log_malloc E w, w));
  match a with
  | Some job =>
      modify (λ w, set_jobs
        (<[job := mkJob false None obj run
                    (match halt with
                     | Some fn => HaltUser fn
                     | None => HaltDefault
                     end)
                    future NULL NULL JOB_INITIALIZED false]> (jobs w)) w);;
      future_setJob future job;;
      status ← (λ w, Some (mutex_init E w, w));
      status ← (if decide (status ≠ 0) then
                  emit (EvLogAdd "Couldn't initialize job's mutex");;
                  mret status
                else
                  status ← (λ w, Some (pthread_cond_init E w, w));
                  if decide (status ≠ 0) then
                    emit (EvLogAddErrno status
                            "Couldn't initialize job's condition-variable");;
                    mret status
                  else mret status);
      if decide (status ≠ 0) then
        modify (λ w, set_jobs (delete job (jobs w)) w);;
        mret NULL
      else mret (Some job)
  | None => mret NULL
  end.

(** Frees a job. Doesn't free the job's future. *)
Definition job_free (job : addr) : M unit :=
  x ← get_job job;
  log_assert (bool_decide (j_state x ≠ JOB_EXECUTING));;
  modify (λ w, set_jobs (delete job (jobs w)) w).

(** Sets the state of a job; the broadcast on the condition variable has no
    effect on the modelled state. *)
Definition job_setState (job : addr) (state : JobState) : M unit :=
  job_assertLocked job;;
  update_job job (set_j_state state).

(** [job->halt(job->obj, job->thread)]. *)
Definition call_halt (halt : HaltFn) (obj : ptr) (thread : option pthread_t)
    : M Z :=
  match thread with
  | Some t =>
      match halt with
      | HaltDefault => job_defaultHaltFunc obj t
      | HaltUser fn => call (EvHalt fn obj t) (halt_fn E fn obj t)
      end
  | None => abort
  end.

(** Asynchronously cancels a job. *)
Definition job_cancel (job : addr) : M Z :=
  job_lock job;;
  x ← get_job job;
  if decide (j_state x = JOB_COMPLETED) then
    job_unlock job;;
    mret 0
  else
    update_job job (set_j_canceled true);;
    x ← get_job job;
    if decide (j_state x = JOB_INITIALIZED) then
      job_unlock job;;
      mret 0
    else
      log_assert (bool_decide (j_state x = JOB_EXECUTING));;
      job_unlock job;;
      x ← get_job job;
      status ← call_halt (j_halt x) (j_obj x) (j_thread x);
      (if decide (status ≠ 0) then
         emit (EvLogError "Job's halt function returned %d" status)
       else mret tt);;
      mret status.

(** Modelled from the spec: [future_cancel] of Future.c delegates to
    [job_cancel] on the bound job. *)
Definition future_cancel (future : ptr) : M Z :=
  emit (EvFutureCancel future);;
  '(_, x) ← get_future future;
  match f_job x with
  | Some job => job_cancel job
  | None => abort
  end.

(** ** List of jobs

    Thread-compatible but not thread-safe; it is the list of the world's
    executor ([executor->jobList]). [size] is a [size_t]: it wraps. *)

Definition jobList_add (job : addr) : M unit :=
  l ← get_jobList;
  update_job job (set_j_prev (jl_tail l));;
  (if decide (jl_head l = NULL) then update_jobList (set_jl_head (Some job))
   else mret tt);;
  (match jl_tail l with
   | Some t => update_job t (set_j_next (Some job))
   | None => mret tt
   end);;
  update_jobList (set_jl_tail (Some job));;
  update_jobList (λ l, set_jl_size ((jl_size l + 1) mod SIZE_MOD)%N l).

(** Removes a specific job from the list. Doesn't delete the job. *)
Definition jobList_remove (job : addr) : M unit :=
  x ← get_job job;
  let prev := j_prev x in
  let next := j_next x in
  (match prev with
   | Some p => update_job p (set_j_next next)
   | None => update_jobList (set_jl_head next)
   end);;
  (match next with
   | Some n => update_job n (set_j_prev prev)
   | None => update_jobList (set_jl_tail prev)
   end);;
  update_jobList
    (λ l, set_jl_size ((jl_size l + SIZE_MOD - 1) mod SIZE_MOD)%N l).

Definition jobList_size : M N :=
  l ← get_jobList;
  mret (jl_size l).

(** The loop of [jobList_cancelAll]; it has no defined outcome when the fuel
    runs out before [job] is [NULL]. *)
Fixpoint jobList_cancelAll_loop (fuel : nat) (job : ptr) (status : Z)
    : M Z :=
  match job with
  | None => mret status
  | Some j =>
      match fuel with
      | O => abort
      | S fuel' =>
          x ← get_job j;
          let next := j_next x in
          stat ← future_cancel (j_future x);
          status' ← (if decide (stat ≠ 0) then
                       emit (EvLogAdd "Couldn't cancel job");;
                       mret (if decide (status = 0) then stat else status)
                     else mret status);
          jobList_cancelAll_loop fuel' next status'
      end
  end.

(** A walk that visits more nodes than there are jobs visits one of them
    twice and never ends: the number of jobs is fuel enough. *)
Definition jobList_cancelAll : M Z :=
  w ← get_world;
  l ← get_jobList;
  jobList_cancelAll_loop (size (jobs w)) (jl_head l) 0.

(** ** Thread-safe execution service *)

Definition executor_lock : M unit :=
  e ← get_exec;
  log_assert (negb (ex_mutex e));;
  update_exec (set_ex_mutex true);;
  emit EvExecLock.

Definition executor_unlock : M unit :=
  e ← get_exec;
  log_assert (ex_mutex e);;
  update_exec (set_ex_mutex false);;
  emit EvExecUnlock.

(** Removes a job from the list of executing jobs. *)
Definition executor_remove (job : addr) : M unit :=
  executor_lock;;
  jobList_remove job;;
  executor_unlock.

(** [job_run], one atomic phase at a time.  First phase: the check of
    [canceled] under the job's lock; tells whether the task is to be run. *)
Definition job_run_begin (self : pthread_t) (job : addr) : M bool :=
  job_lock job;;
  x ← get_job job;
  if negb (j_canceled x) then
    update_job job (set_j_thread (Some self));;
    update_job job (set_j_state JOB_EXECUTING);;
    job_unlock job;;
    mret true
  else
    job_unlock job;;
    mret false.

(** Second phase: the potentially lengthy operation. *)
Definition job_run_call (job : addr) : M (Z * ptr) :=
  x ← get_job job;
  call (EvRun (j_run x) (j_obj x)) (run_fn E (j_run x) (j_obj x)).

(** Third phase: the task has returned. *)
Definition job_run_end (job : addr) : M unit :=
  job_lock job;;
  update_job job (set_j_state JOB_COMPLETED);;
  job_unlock job.

(** Last phase: allows [future_getResult()] to return. *)
Definition job_run_publish (job : addr) (status : Z) (result : ptr)
    : M unit :=
  x ← get_job job;
  future_setResult (j_future x) status result (j_canceled x).

(** [job_run] on its own thread, when nothing interferes. *)
Definition job_run (self : pthread_t) (job : addr) : M unit :=
  ran ← job_run_begin self job;
  '(status, result) ← (if ran : bool then
                         r ← job_run_call job;
                         job_run_end job;;
                         mret r
                       else mret (0, NULL));
  executor_remove job;;
  job_run_publish job status result.

(** What [executor_run] does after [job_run]. *)
Definition executor_run_finish (job : addr) : M unit :=
  e ← get_exec;
  x ← get_job job;
  (match ex_afterCompletion e with
   | Some fn =>
       st ← call (EvAfterCompletion fn (ex_completer e) (j_future x))
                 (after_fn E fn (ex_completer e) (j_future x));
       if decide (st ≠ 0) then
         emit (EvLogAdd "Couldn't process job's future after completion")
       else mret tt
   | None => mret tt
   end);;
  job_free job;; (* Doesn't free the job's future *)
  emit EvLogFree.

Definition executor_run (self : pthread_t) (job : addr) : M unit :=
  job_run self job;;
  executor_run_finish job.

Definition executor_setAfterCompletion (completer : ptr)
    (afterCompletion : ptr) : M unit :=
  update_exec (λ e, mkExecutor (ex_mutex e) (ex_jobList e) completer
                               afterCompletion (ex_isShutdown e)).

(** Submits a job for execution. *)
Definition executor_submitJob (job : addr) : M Z :=
  executor_lock;;
  e ← get_exec;
  status ← (if ex_isShutdown e then
              emit (EvLogAdd "Executor is shut down");;
              mret EPERM
            else
              jobList_add job;;
              status ← (λ w, Some (pthread_create E job w, w));
              emit (EvThreadCreate job status);;
              (if decide (status ≠ 0) then
                 emit (EvLogAddErrno status "Couldn't create job's thread");;
                 jobList_remove job
               else mret tt);;
              mret status);
  executor_unlock;;
  mret status.

Definition executor_submit (obj : ptr) (run : addr) (halt : ptr) : M ptr :=
  future ← future_new;
  match future with
  | None =>
      emit (EvLogAdd "Couldn't create new future");;
      mret NULL
  | Some _ =>
      job ← job_new future obj run halt;
      status ← match job with
                | None =>
                    emit (EvLogAdd "Couldn't create new job");;
                    mret (-1)
                | Some j =>
                    status ← executor_submitJob j;
                    (if decide (status ≠ 0) then job_free j else mret tt);;
                    mret status
                end;
      if decide (status ≠ 0) then
        future_free future;;
        mret NULL
      else mret future
  end.

Definition executor_size : M N :=
  executor_lock;;
  size ← jobList_size;
  executor_unlock;;
  mret size.

Definition executor_shutdown (now : bool) : M Z :=
  executor_lock;;
  e ← get_exec;
  status ← (if ex_isShutdown e then mret 0
            else
              update_exec (set_ex_isShutdown true);;
              if now then jobList_cancelAll else mret 0);
  executor_unlock;;
  mret status.

End Program.

(** The world after a successful [executor_new()]. *)
Definition executor_new : World :=
  mkWorld ∅ ∅ (mkExecutor false (mkJobList NULL NULL 0) NULL NULL false) [].

(** ** Specification-level notions *)

Definition add_events (evs : list Event) (w : World) : World :=
  set_trace (trace w ++ evs) w.

(** The events a computation has appended, from [w] to [w']. *)
Definition new_events (w w' : World) : list Event :=
  drop (length (trace w)) (trace w').

(** *** The job list as a sequence of nodes *)

Definition nth_prev (l : list addr) (i : nat) : ptr :=
  match i with
  | O => None
  | S i' => l !! i'
  end.

(** The list of the executor holds exactly the nodes [l], in this order:
    the [i]-th node is allocated, its [prev] is the node before it and its
    [next] the node after it ([NULL] at the two ends), [head] and [tail] are
    the first and the last node, and [size] is their number. *)
Record wf_list (w : World) (l : list addr) : Prop := mk_wf_list {
  wf_nodup : NoDup l;
  wf_valid : ∀ j, j ∈ l → valid_addr j;
  wf_nodes : ∀ i j, l !! i = Some j →
    ∃ x, jobs w !! j = Some x ∧ j_prev x = nth_prev l i ∧ j_next x = l !! S i;
  wf_head : jl_head (ex_jobList (exec w)) = head l;
  wf_tail : jl_tail (ex_jobList (exec w)) = last l;
  wf_size : jl_size (ex_jobList (exec w)) = N.of_nat (length l)
}.

(** The nodes met from [p] along the [next] pointers; [None] when the walk
    meets a dangling pointer or does not end within the fuel. *)
Fixpoint walk (fuel : nat) (h : gmap addr Job) (p : ptr)
    : option (list addr) :=
  match p with
  | None => Some []
  | Some j =>
      match fuel with
      | O => None
      | S fuel' =>
          match h !! j with
          | Some x =>
              match walk fuel' h (j_next x) with
              | Some r => Some (j :: r)
              | None => None
              end
          | None => None
          end
      end
  end.

(** The nodes reachable from [head]. *)
Definition reachable_nodes (w : World) : option (list addr) :=
  walk (size (jobs w)) (jobs w) (jl_head (ex_jobList (exec w))).

(** Sequences of additions and removals. *)
Inductive ListOp := OpAdd (j : addr) | OpRemove (j : addr).

Definition apply_op (op : ListOp) : M unit :=
  match op with
  | OpAdd j => jobList_add j
  | OpRemove j => jobList_remove j
  end.

Fixpoint apply_ops (ops : list ListOp) : M unit :=
  match ops with
  | [] => mret tt
  | op :: ops' => apply_op op;; apply_ops ops'
  end.

(** The members after an operation: additions go to the end. *)
Definition members_after (op : ListOp) (l : list addr) : list addr :=
  match op with
  | OpAdd j => l ++ [j]
  | OpRemove j => filter (λ k, k ≠ j) l
  end.

(** A fresh node is allocated, is not a member, and has null links. *)
Definition fresh_node (w : World) (l : list addr) (j : addr) : Prop :=
  (j ∉ l) ∧ valid_addr j ∧
  ∃ x, jobs w !! j = Some x ∧ j_prev x = NULL ∧ j_next x = NULL.

(** Every operation of the sequence meets its precondition in the world in
    which it is applied: an addition is of a fresh node, a removal of a
    current member. *)
Fixpoint ops_admissible (w : World) (l : list addr) (ops : list ListOp)
    : Prop :=
  match ops with
  | [] => True
  | op :: ops' =>
      (match op with
       | OpAdd j => fresh_node w l j
       | OpRemove j => j ∈ l
       end) ∧
      (match apply_op op w with
       | Some (_, w') => ops_admissible w' (members_after op l) ops'
       | None => True
       end)
  end.

Fixpoint members (l : list addr) (ops : list ListOp) : list addr :=
  match ops with
  | [] => l
  | op :: ops' => members (members_after op l) ops'
  end.

(** The structural invariant of the list, read off the pointers alone. *)
Definition list_invariant (w : World) : Prop :=
  let h := jobs w in
  let jl := ex_jobList (exec w) in
  (∃ l, reachable_nodes w = Some l ∧ jl_size jl = N.of_nat (length l) ∧
        jl_tail jl = last l ∧
        ∀ a x, a ∈ l → h !! a = Some x →
          (∀ b, j_next x = Some b →
                b ∈ l ∧ ∃ y, h !! b = Some y ∧ j_prev y = Some a) ∧
          (∀ b, j_prev x = Some b →
                b ∈ l ∧ ∃ y, h !! b = Some y ∧ j_next y = Some a)) ∧
  (∀ a, jl_head jl = Some a → ∃ x, h !! a = Some x ∧ j_prev x = NULL) ∧
  (∀ a, jl_tail jl = Some a → ∃ x, h !! a = Some x ∧ j_next x = NULL).

(** *** Cancelling every node *)

(** [future_cancel] on each future of a sequence, one after the other,
    whatever the earlier ones returned; yields the statuses. *)
Fixpoint cancel_each (E : Env) (fs : list ptr) : M (list Z) :=
  match fs with
  | [] => mret []
  | f :: fs' =>
      stat ← future_cancel E f;
      (if decide (stat ≠ 0) then emit (EvLogAdd "Couldn't cancel job")
       else mret tt);;
      stats ← cancel_each E fs';
      mret (stat :: stats)
  end.

Fixpoint first_nonzero (stats : list Z) : Z :=
  match stats with
  | [] => 0
  | s :: stats' => if decide (s ≠ 0) then s else first_nonzero stats'
  end.

(** The futures of the nodes [l], in order. *)
Definition futures_of (w : World) (l : list addr) : list ptr :=
  (λ j, x ← jobs w !! j; j_future x) <$> l.

Definition future_cancels (evs : list Event) : list ptr :=
  omap (λ e, match e with EvFutureCancel f => Some f | _ => None end) evs.

Definition payload (x : Job) : Job := set_j_prev None (set_j_next None x).

(** [w'] is [w] but for the links of the jobs, the list record of the
    executor, and the events [evs]. *)
Record list_update (evs : list Event) (w w' : World) : Prop := mk_list_update {
  lu_futures : futures w' = futures w;
  lu_trace : trace w' = trace w ++ evs;
  lu_exec : set_ex_jobList (ex_jobList (exec w)) (exec w') = exec w;
  lu_jobs : payload <$> jobs w' = payload <$> jobs w
}.

(** What [jobList_remove] does to the nodes and to the list record, when the
    neighbours of [j] are allocated and distinct. *)
Definition unlink_node (x : Job) (k : positive) (xk : Job) : Job :=
  set_j_prev (if decide (j_next x = Some k) then j_prev x else j_prev xk)
    (set_j_next (if decide (j_prev x = Some k) then j_next x else j_next xk)
       xk).

Definition set_job (j : positive) (x : Job) (w : World) : World :=
  set_jobs (<[j := x]> (jobs w)) w.

(** The events of [job->halt(obj, thread)] and of the log entry that
    [job_cancel] adds when the status is not zero. *)
Definition halt_events (E : Env) (halt : HaltFn) (obj : option positive)
    (t : Z) (w : World) : Z * list Event :=
  match halt with
  | HaltDefault =>
      let k := pthread_kill E t SIGTERM w in
      if decide (k = 0) then (0, [EvKill t SIGTERM])
      else if decide (k = ESRCH) then (0, [EvKill t SIGTERM])
      else (k, [EvKill t SIGTERM;
                EvLogAddErrno k "Couldn't signal job's thread"])
  | HaltUser fn => (halt_fn E fn obj t w, [EvHalt fn obj t])
  end.

Record canceled_only (w w' : World) : Prop := mk_canceled_only {
  co_futures : futures w' = futures w;
  co_exec : exec w' = exec w;
  co_jobs : ∀ k, jobs w' !! k = jobs w !! k ∨
                 jobs w' !! k = set_j_canceled true <$> jobs w !! k;
  co_trace : ∃ evs, trace w' = trace w ++ evs
}.

(** The future of node [j] can be cancelled: it is bound to an allocated
    job whose mutex is free and whose thread is recorded if it executes. *)
Definition cancellable (w : World) (j : positive) : Prop :=
  ∃ x f fx k y,
    jobs w !! j = Some x ∧ j_future x = Some f ∧
    futures w !! f = Some fx ∧ f_job fx = Some k ∧
    jobs w !! k = Some y ∧ j_mutex y = false ∧
    (j_state y = JOB_EXECUTING → is_Some (j_thread y)).

(** The worlds in which [executor_submit] consults the environment. *)
Definition new_job (future obj : option positive) (run : positive)
    (halt : option positive) : Job :=
  mkJob false None obj run
        (match halt with Some fn => HaltUser fn | None => HaltDefault end)
        future None None JOB_INITIALIZED false.

(** After [future_new()] has returned the future [f]. *)
Definition future_world (f : positive) (w : World) : World :=
  set_futures (<[f := mkFuture None false 0 None false]> (futures w)) w.

(** After [job_new] has filled in the job [j] and bound the future to it. *)
Definition job_world (f j : positive) (obj : option positive) (run : positive)
    (halt : option positive) (w : World) : World :=
  set_futures (<[f := mkFuture (Some j) false 0 None false]> (futures w))
    (set_jobs (<[j := new_job (Some f) obj run halt]> (jobs w)) w).

(** Construction of the future [f] and of the job [j] succeeds. *)
Definition construction_ok (E : Env) (obj : option positive) (run : positive)
    (halt : option positive) (w : World) (f j : positive) : Prop :=
  future_alloc E w = Some f ∧
  log_malloc E (future_world f w) = Some j ∧
  mutex_init E (job_world f j obj run halt w) = 0 ∧
  pthread_cond_init E (job_world f j obj run halt w) = 0.

(** The contract of the allocators: a new object lies at a representable
    address that is not in use. *)
Definition env_alloc_fresh (E : Env) : Prop :=
  (∀ w j, log_malloc E w = Some j → jobs w !! j = None ∧ valid_addr j) ∧
  (∀ w f, future_alloc E w = Some f → futures w !! f = None).

(** The status of [pthread_create] in [executor_submitJob], called with
    the executor locked and the job added. *)
Definition thread_create_status (E : Env) (j : positive) (w : World)
    : option Z :=
  match (executor_lock;; jobList_add j) w with
  | Some (_, w') => Some (pthread_create E j w')
  | None => None
  end.

Definition exec_locked (w : World) : World :=
  add_events [EvExecLock] (set_exec (set_ex_mutex true (exec w)) w).
Definition exec_unlocked (w : World) : World :=
  add_events [EvExecUnlock] (set_exec (set_ex_mutex false (exec w)) w).

Definition publish (f : positive) (fx : Future) (status : Z)
    (result : option positive) (canceled : bool) (w : World) : World :=
  add_events [EvSetResult f status result canceled]
    (set_futures (<[f := mkFuture (f_job fx) true status result canceled]>
                    (futures w)) w).

(** Entries of the log. *)
Definition is_log (e : Event) : Prop :=
  match e with
  | EvLogAdd _ | EvLogAddErrno _ _ | EvLogError _ _ => True
  | _ => False
  end.

(** The world when the flag has just been set, under the lock. *)
Definition shutdown_world (w : World) : World :=
  set_exec (set_ex_isShutdown true (exec (exec_locked w))) (exec_locked w).

(** ** The executor and its threads
    Where the worker thread of a job stands in [executor_run]. *)
Inductive WorkerPc :=
| PcStart                                         (* thread created *)
| PcRunning                                       (* in [job->run] *)
| PcReturned (status : Z) (result : option positive)  (* [run] returned *)
| PcUnlocked (status : Z) (result : option positive)  (* before [executor_remove] *)
| PcRemoved (status : Z) (result : option positive)   (* before [future_setResult] *)
| PcPublished.                                    (* after [job_run] *)

Record Sys := mkSys {
  world : World;
  workers : gmap positive (Z * WorkerPc)
}.

(** One step of some thread: a call of the executor's interface, a
    cancellation, or the next phase of a worker. The phases of a worker
    interleave with everything else. A call is one step: [executor_submit]
    works on storage of its own outside the executor's lock;
    [job_cancel] changes the job under its lock and calls the halt function
    afterwards, which adds events only; and a shutdown whose cancellations
    are interleaved with the workers is a [step_shutdown] that sets the flag
    followed by [step_future_cancel] steps, so that the states between the
    cancellations are states of this system. [job_cancel] reads the job
    again after it has released the lock: the executions of a lone
    [job_cancel] in which the worker frees the job in between, where the
    call of the halt function reads freed storage, are no steps of this
    relation. *)
Inductive step (E : Env) : Sys → Sys → Prop :=
| step_submit s obj run halt f j tid w' :
    executor_submit E obj run halt (world s) = Some (Some f, w') →
    f_job <$> futures w' !! f = Some (Some j) →
    step E s (mkSys w' (<[j := (tid, PcStart)]> (workers s)))
| step_submit_failed s obj run halt w' :
    executor_submit E obj run halt (world s) = Some (None, w') →
    step E s (mkSys w' (workers s))
| step_begin s j tid ran w' :
    workers s !! j = Some (tid, PcStart) →
    job_run_begin tid j (world s) = Some (ran, w') →
    step E s (mkSys w' (<[j := (tid, if ran : bool then PcRunning
                                    else PcUnlocked 0 None)]> (workers s)))
| step_call s j tid status result w' :
    workers s !! j = Some (tid, PcRunning) →
    job_run_call E j (world s) = Some ((status, result), w') →
    step E s (mkSys w' (<[j := (tid, PcReturned status result)]> (workers s)))
| step_end s j tid status result w' :
    workers s !! j = Some (tid, PcReturned status result) →
    job_run_end j (world s) = Some (tt, w') →
    step E s (mkSys w' (<[j := (tid, PcUnlocked status result)]> (workers s)))
| step_remove s j tid status result w' :
    workers s !! j = Some (tid, PcUnlocked status result) →
    executor_remove j (world s) = Some (tt, w') →
    step E s (mkSys w' (<[j := (tid, PcRemoved status result)]> (workers s)))
| step_publish s j tid status result w' :
    workers s !! j = Some (tid, PcRemoved status result) →
    job_run_publish j status result (world s) = Some (tt, w') →
    step E s (mkSys w' (<[j := (tid, PcPublished)]> (workers s)))
| step_finish s j tid w' :
    workers s !! j = Some (tid, PcPublished) →
    executor_run_finish E j (world s) = Some (tt, w') →
    step E s (mkSys w' (delete j (workers s)))
| step_job_cancel s j status w' :
    job_cancel E j (world s) = Some (status, w') →
    step E s (mkSys w' (workers s))
| step_future_cancel s f status w' :
    future_cancel E f (world s) = Some (status, w') →
    step E s (mkSys w' (workers s))
| step_shutdown s now status w' :
    executor_shutdown E now (world s) = Some (status, w') →
    step E s (mkSys w' (workers s))
| step_size s n w' :
    executor_size (world s) = Some (n, w') →
    step E s (mkSys w' (workers s))
| step_setAfterCompletion s completer fn w' :
    executor_setAfterCompletion completer fn (world s) = Some (tt, w') →
    step E s (mkSys w' (workers s))
| step_future_free s f fx w' :
    futures (world s) !! f = Some fx → f_published fx = true →
    future_free (Some f) (world s) = Some (tt, w') →
    step E s (mkSys w' (workers s)).

(** A new executor: no job, no thread, an empty list. *)
Definition init_sys (s : Sys) : Prop :=
  jobs (world s) = ∅ ∧ workers s = ∅ ∧
  ex_jobList (exec (world s)) = mkJobList None None 0 ∧
  ex_mutex (exec (world s)) = false.

Definition reachable (E : Env) (s : Sys) : Prop :=
  ∃ s0, init_sys s0 ∧ rtc (step E) s0 s.

Definition state_rank (st : JobState) : nat :=
  match st with
  | JOB_INITIALIZED => 0
  | JOB_EXECUTING => 1
  | JOB_COMPLETED => 2
  end.

(** One step along INITIALIZED → EXECUTING → COMPLETED, or none. *)
Definition state_forward (a b : JobState) : Prop :=
  a = b ∨ (a = JOB_INITIALIZED ∧ b = JOB_EXECUTING) ∨
  (a = JOB_EXECUTING ∧ b = JOB_COMPLETED).

(** Steps during which the job [j] stays allocated. *)
Inductive steps_alive (E : Env) (j : positive) : Sys → Sys → Prop :=
| steps_alive_refl s :
    is_Some (jobs (world s) !! j) → steps_alive E j s s
| steps_alive_step s1 s2 s3 :
    is_Some (jobs (world s1) !! j) → step E s1 s2 →
    steps_alive E j s2 s3 → steps_alive E j s1 s3.

(** The invariant of the reachable states. *)
Definition fut_pending (w : World) (j : positive) (x : Job) : Prop :=
  ∃ f fx, j_future x = Some f ∧ futures w !! f = Some fx ∧
          f_published fx = false ∧ f_job fx = Some j.

Definition pc_ok (w : World) (l : list positive) (j : positive) (x : Job)
    (tid : Z) (pc : WorkerPc) : Prop :=
  match pc with
  | PcStart =>
      j ∈ l ∧ j_state x = JOB_INITIALIZED ∧ fut_pending w j x
  | PcRunning | PcReturned _ _ =>
      j ∈ l ∧ j_state x = JOB_EXECUTING ∧ j_thread x = Some tid ∧
      fut_pending w j x
  | PcUnlocked _ _ =>
      j ∈ l ∧ j_state x ≠ JOB_EXECUTING ∧ fut_pending w j x
  | PcRemoved _ _ =>
      (j ∉ l) ∧ j_state x ≠ JOB_EXECUTING ∧ fut_pending w j x
  | PcPublished => (j ∉ l) ∧ j_state x ≠ JOB_EXECUTING
  end.

Record inv (s : Sys) (l : list positive) : Prop := mk_inv {
  inv_wf : wf_list (world s) l;
  inv_mutex : ex_mutex (exec (world s)) = false;
  inv_jobs : ∀ j x, jobs (world s) !! j = Some x →
    j_mutex x = false ∧
    ∃ tid pc, workers s !! j = Some (tid, pc) ∧ pc_ok (world s) l j x tid pc;
  inv_workers : ∀ j, is_Some (workers s !! j) → is_Some (jobs (world s) !! j)
}.


(** What one step does: it keeps the invariant, moves the state of a job
    that stays allocated forward by at most one, and publishes a result
    only for a future whose jobs are off the list. *)
Record step_facts (s s' : Sys) (l l' : list positive) : Prop := mk_step_facts {
  sf_inv : inv s' l';
  sf_state : ∀ j x x',
    jobs (world s) !! j = Some x → jobs (world s') !! j = Some x' →
    state_forward (j_state x) (j_state x');
  sf_publish : ∀ f fx fx',
    futures (world s) !! f = Some fx → futures (world s') !! f = Some fx' →
    f_published fx = false → f_published fx' = true →
    ∀ j x, jobs (world s) !! j = Some x → j_future x = Some f → j ∉ l
}.

(** ** Sample environments and worlds *)
Module Examples.

(** A small allocator: the first free address among eight. *)
Fixpoint first_free {A} (h : gmap positive A) (slots : list positive)
    : option positive :=
  match slots with
  | [] => None
  | a :: slots' =>
      match h !! a with
      | None => Some a
      | Some _ => first_free h slots'
      end
  end.

Definition alloc {A} (h : gmap positive A) : option positive :=
  first_free h [1; 2; 3; 4; 5; 6; 7; 8]%positive.

(** Tasks return status 7 and their payload; a caller's halt function
    fails with 5; signalling thread 8 finds no such thread and signalling
    thread 9 fails with EINVAL (22). *)
Definition env (create_status : Z) : Env :=
  mkEnv (λ _ obj _, (7, obj))
        (λ _ _ _ _, 5)
        (λ _ _ _ _, 0)
        (λ t _ _, if decide (t = 8) then ESRCH
                  else if decide (t = 9) then 22 else 0)
        (λ _ _, create_status)
        (λ w, alloc (jobs w))
        (λ _, 0) (λ _, 0)
        (λ w, alloc (futures w)).

Definition env_ok : Env := env 0.
(** Thread creation fails with EAGAIN (11). *)
Definition env_no_thread : Env := env 11.

Definition world_of {A} (r : option (A * World)) : World :=
  match r with
  | Some (_, w) => w
  | None => executor_new
  end.

(** One job submitted. *)
Definition w_one : World := Eval vm_compute in
  world_of (executor_submit env_ok None 5%positive None executor_new).
(** Two jobs submitted, the second with a halt function of its own. *)
Definition w_two : World := Eval vm_compute in
  world_of (executor_submit env_ok (Some 3%positive) 5%positive
              (Some 6%positive) w_one).
(** The first job canceled before its thread has started. *)
Definition w_canceled : World := Eval vm_compute in
  world_of (job_cancel env_ok 1%positive w_two).
(** The second job's thread, 9, is in the task. *)
Definition w_running : World := Eval vm_compute in
  world_of (job_run_begin 9 2%positive w_canceled).
(** ... and has returned from it. *)
Definition w_completed : World := Eval vm_compute in
  world_of (job_run_end 2%positive
              (world_of (job_run_call env_ok 2%positive w_running))).
(** Shut down, cancelling the jobs. *)
Definition w_shutdown : World := Eval vm_compute in
  world_of (executor_shutdown env_ok true w_running).

Definition s_two : Sys :=
  mkSys w_two (<[2%positive := (9, PcStart)]>
                 (<[1%positive := (4, PcStart)]> ∅)).
Definition s_one : Sys := mkSys w_one (<[1%positive := (4, PcStart)]> ∅).
Definition s_new : Sys := mkSys executor_new ∅.
Definition w_started : World := Eval vm_compute in
  world_of (job_run_begin 4 1%positive w_one).
Definition s_started : Sys :=
  mkSys w_started
        (<[1%positive := (4, PcRunning)]> (<[1%positive := (4, PcStart)]> ∅)).

(** ... the task of the first job has returned, *)
Definition w_returned : World := Eval vm_compute in
  world_of (job_run_call env_ok 1%positive w_started).
Definition s_returned : Sys :=
  mkSys w_returned (<[1%positive := (4, PcReturned 7 None)]> (workers s_started)).
(** ... the job is marked COMPLETED, *)
Definition w_ended : World := Eval vm_compute in
  world_of (job_run_end 1%positive w_returned).
Definition s_ended : Sys :=
  mkSys w_ended (<[1%positive := (4, PcUnlocked 7 None)]> (workers s_returned)).
(** ... it is taken off the list, *)
Definition w_removed : World := Eval vm_compute in
  world_of (executor_remove 1%positive w_ended).
Definition s_removed : Sys :=
  mkSys w_removed (<[1%positive := (4, PcRemoved 7 None)]> (workers s_ended)).
(** ... and its result is published. *)
Definition w_published : World := Eval vm_compute in
  world_of (job_run_publish 1%positive 7 None w_removed).
Definition s_published : Sys :=
  mkSys w_published (<[1%positive := (4, PcPublished)]> (workers s_removed)).

(** ... and its worker has ended. *)
Definition w_finished : World := Eval vm_compute in
  world_of (executor_run_finish env_ok 1%positive w_published).
Definition s_finished : Sys :=
  mkSys w_finished (delete 1%positive (workers s_published)).

(** The one job cancelled before its thread has started, *)
Definition w_one_canceled : World := Eval vm_compute in
  world_of (job_cancel env_ok 1%positive w_one).
Definition s_one_canceled : Sys := mkSys w_one_canceled (workers s_one).
(** ... and its worker past the check of [canceled]. *)
Definition w_one_skipped : World := Eval vm_compute in
  world_of (job_run_begin 4 1%positive w_one_canceled).
Definition s_one_skipped : Sys :=
  mkSys w_one_skipped
        (<[1%positive := (4, PcUnlocked 0 None)]> (workers s_one_canceled)).

(** No mutex can be initialised: [mutex_init] fails with EINVAL (22). *)
Definition env_no_mutex : Env :=
  mkEnv (λ _ obj _, (7, obj))
        (λ _ _ _ _, 5)
        (λ _ _ _ _, 0)
        (λ _ _ _, 0)
        (λ _ _, 0)
        (λ w, alloc (jobs w))
        (λ _, 22) (λ _, 0)
        (λ w, alloc (futures w)).

(** Three fresh nodes and an empty list. *)
Definition fresh_job : Job :=
  mkJob false None None 5%positive HaltDefault None None None
        JOB_INITIALIZED false.
Definition w_nodes : World :=
  mkWorld (<[3%positive := fresh_job]>
             (<[2%positive := fresh_job]> (<[1%positive := fresh_job]> ∅)))
          ∅ (mkExecutor false (mkJobList None None 0) None None false) [].
Definition ops : list ListOp :=
  [OpAdd 2%positive; OpAdd 1%positive; OpAdd 3%positive; OpRemove 1%positive].

End Examples.

(** ** Destruction of the list and of the executor *)
(** The loop of [jobList_free]; as for [jobList_cancelAll_loop], it has no
    defined outcome when the fuel runs out before [job] is [NULL]. *)
Fixpoint jobList_free_loop (fuel : nat) (job : option positive) : M unit :=
  match job with
  | None => mret tt
  | Some j =>
      match fuel with
      | O => abort
      | S fuel' =>
          x ← get_job j;
          let next := j_next x in
          job_free j;;
          jobList_free_loop fuel' next
      end
  end.

(** Frees every job of the list, then the list record, which is part of
    the executor of this world and is dead afterwards. *)
Definition jobList_free : M unit :=
  w ← get_world;
  l ← get_jobList;
  jobList_free_loop (size (jobs w)) (jl_head l).

Definition executor_destroy : M unit :=
  executor_lock;;
  jobList_free;;
  executor_unlock.

(** [executor_destroy], then the executor's own storage is released. *)
Definition executor_free : M unit := executor_destroy.

(** ** Further specification-level notions *)
(** What a cancellation leaves of a job: [canceled] is set unless the job
    is COMPLETED. *)
Definition cancel_mark (x : Job) : Job :=
  if decide (j_state x = JOB_COMPLETED) then x else set_j_canceled true x.

(** The job [j] is bound to a future that is bound to it, its mutex is
    free, and its thread is recorded if it executes. *)
Definition bound (w : World) (j : positive) : Prop :=
  ∃ x f fx, jobs w !! j = Some x ∧ j_future x = Some f ∧
            futures w !! f = Some fx ∧ f_job fx = Some j ∧
            j_mutex x = false ∧
            (j_state x = JOB_EXECUTING → is_Some (j_thread x)).

(** What a step keeps of a job: the task, its functions and its future;
    the [canceled] flag once it is set; and it starts no job that is
    cancelled. *)
Definition job_kept (x x' : Job) : Prop :=
  j_obj x' = j_obj x ∧ j_run x' = j_run x ∧ j_halt x' = j_halt x ∧
  j_future x' = j_future x ∧
  (j_canceled x = true → j_canceled x' = true) ∧
  (j_state x = JOB_INITIALIZED → j_state x' = JOB_EXECUTING →
   j_canceled x = false).

(** What a step keeps of the world: every job that stays allocated, and
    every future that holds a result. *)
Record step_keeps (w w' : World) : Prop := mk_step_keeps {
  sk_jobs : ∀ j x x',
    jobs w !! j = Some x → jobs w' !! j = Some x' → job_kept x x';
  sk_futures : ∀ f fx fx',
    futures w !! f = Some fx → futures w' !! f = Some fx' →
    f_published fx = true → fx' = fx
}.

(** The worker has not yet taken its job off the list. *)
Definition before_removal (pc : WorkerPc) : Prop :=
  match pc with
  | PcStart | PcRunning | PcReturned _ _ | PcUnlocked _ _ => True
  | PcRemoved _ _ | PcPublished => False
  end.

(** The next phase of a worker returns. *)
Definition phase_returns (E : Env) (w : World) (j : positive) (tid : Z)
    (pc : WorkerPc) : Prop :=
  match pc with
  | PcStart => ∃ ran w', job_run_begin tid j w = Some (ran, w')
  | PcRunning => ∃ r w', job_run_call E j w = Some (r, w')
  | PcReturned _ _ => ∃ w', job_run_end j w = Some (tt, w')
  | PcUnlocked _ _ => ∃ w', executor_remove j w = Some (tt, w')
  | PcRemoved status result =>
      ∃ w', job_run_publish j status result w = Some (tt, w')
  | PcPublished => ∃ w', executor_run_finish E j w = Some (tt, w')
  end.

Import Examples.

(** ** Tactics *)

Ltac munfold :=
  unfold job_lock, job_unlock, executor_lock, executor_unlock, update_jobList, get_jobList, update_job,
    update_exec, get_exec, get_job, get_future, get_world, emit, modify, log_assert, abort, call,
    mbind, M_bind, mret, M_ret in *.

Ltac mstep :=
  match goal with
  | H : jobs ?w !! ?j = _ |- context [jobs ?w !! ?j] => rewrite H
  | H : futures ?w !! ?j = _ |- context [futures ?w !! ?j] => rewrite H
  | |- context [<[?j:=_]> _ !! ?j] => rewrite lookup_insert_eq
  | H : ?j ≠ ?k |- context [<[?j:=_]> _ !! ?k] => rewrite (lookup_insert_ne _ j k _ H)
  | H : ?k ≠ ?j |- context [<[?j:=_]> _ !! ?k] => rewrite (lookup_insert_ne _ j k _ (not_eq_sym H))
  | H : j_mutex ?x = _ |- context [j_mutex ?x] => rewrite H
  | H : j_state ?x = _ |- context [j_state ?x] => rewrite H
  | H : j_canceled ?x = _ |- context [j_canceled ?x] => rewrite H
  | H : j_thread ?x = _ |- context [j_thread ?x] => rewrite H
  | H : j_halt ?x = _ |- context [j_halt ?x] => rewrite H
  | H : j_future ?x = _ |- context [j_future ?x] => rewrite H
  | H : j_prev ?x = _ |- context [j_prev ?x] => rewrite H
  | H : j_next ?x = _ |- context [j_next ?x] => rewrite H
  | H : ex_mutex ?x = _ |- context [ex_mutex ?x] => rewrite H
  | H : ex_isShutdown ?x = _ |- context [ex_isShutdown ?x] => rewrite H
  | H : jl_head ?x = _ |- context [jl_head ?x] => rewrite H
  | H : jl_tail ?x = _ |- context [jl_tail ?x] => rewrite H
  | H : f_published ?x = _ |- context [f_published ?x] => rewrite H
  | H : f_job ?x = _ |- context [f_job ?x] => rewrite H
  end.

Ltac mrun := munfold; simpl; repeat (mstep; simpl).

Ltac world_norm :=
  unfold add_events, set_job, set_trace, set_jobs, set_exec, set_futures;
  simpl.

Ltac elem_cases H :=
  repeat (apply elem_of_cons in H as [->|H]);
  [..|by apply elem_of_nil in H].

Ltac not_elem_concrete :=
  let H := fresh in
  intros H;
  repeat (apply elem_of_cons in H as [H|H]; [discriminate H|]);
  by apply elem_of_nil in H.

(** The list invariant of a concrete world, by evaluation. *)
Ltac wf_concrete :=
  constructor;
  [ repeat (apply NoDup_cons_2; [not_elem_concrete|]);
    apply NoDup_nil_2
  | let j := fresh in let H := fresh in
    intros j H; elem_cases H; reflexivity
  | let i := fresh in let j := fresh in let H := fresh in
    intros i j H;
    repeat (destruct i as [|i]; [injection H as <-; eexists; split;
                                 [reflexivity|by split]|]);
    discriminate
  | reflexivity | reflexivity | reflexivity ].

(** ** Lemmas and theorems *)

Lemma bounded_nodup_length (B : nat) (l : list nat) :
  NoDup l → (∀ n, n ∈ l → (0 < n < B)%nat) → (length l < B)%nat ∨ l = [].
Proof.
  intros Hnd Hb. destruct l as [|a l']; [by right|left].
  set (l := a :: l') in *.
  assert (Hsub : l ⊆ seq 1 (B - 1)).
  { intros n Hn. apply elem_of_seq. specialize (Hb n Hn). lia. }
  pose proof (submseteq_length _ _ (NoDup_submseteq _ _ Hnd Hsub)) as Hlen.
  rewrite length_seq in Hlen.
  assert (0 < a < B)%nat by (apply Hb; subst l; left). lia.
Qed.

Lemma valid_nodup_length (l : list addr) :
  NoDup l → (∀ j, j ∈ l → valid_addr j) → (N.of_nat (length l) < SIZE_MOD)%N.
Proof.
  intros Hnd Hv.
  destruct (bounded_nodup_length (N.to_nat SIZE_MOD) (Pos.to_nat <$> l)) as [H|H].
  - apply NoDup_fmap_2; [|done]. intros a b. apply Pos2Nat.inj.
  - intros n [j [-> Hj]]%list_elem_of_fmap. specialize (Hv j Hj). unfold valid_addr in Hv. pose proof (Pos2Nat.is_pos j). split; [lia|]. rewrite <- positive_N_nat. lia.
  - rewrite length_fmap in H. lia.
  - apply fmap_nil_inv in H. subst. simpl. unfold SIZE_MOD. lia.
Qed.

Lemma payload_insert (h : gmap positive Job) j x y :
  h !! j = Some x → payload y = payload x →
  payload <$> <[j := y]> h = payload <$> h.
Proof.
  intros Hj Hp. rewrite fmap_insert, Hp. apply insert_id.
  by rewrite lookup_fmap, Hj.
Qed.

Lemma size_incr n : (n + 1 < SIZE_MOD → (n + 1) mod SIZE_MOD = n + 1)%N.
Proof. intros. by apply N.mod_small. Qed.

Lemma size_decr n : (0 < n < SIZE_MOD → (n + SIZE_MOD - 1) mod SIZE_MOD = n - 1)%N.
Proof.
  intros. replace (n + SIZE_MOD - 1)%N with (n - 1 + 1 * SIZE_MOD)%N by lia.
  rewrite N.Div0.mod_add. apply N.mod_small. lia.
Qed.

Lemma wf_lookup w l i j :
  wf_list w l → l !! i = Some j →
  ∃ x, jobs w !! j = Some x ∧ j_prev x = nth_prev l i ∧ j_next x = l !! S i.
Proof. intros [] ?. eauto. Qed.

Lemma wf_elem w l j :
  wf_list w l → j ∈ l → ∃ x, jobs w !! j = Some x.
Proof.
  intros Hwf [i Hi]%list_elem_of_lookup.
  destruct (wf_lookup _ _ _ _ Hwf Hi) as (x & ? & _). eauto.
Qed.

Lemma nth_prev_app_l (l l' : list positive) i :
  (i ≤ length l)%nat → nth_prev (l ++ l') i = nth_prev l i.
Proof. destruct i; [done|]. simpl. intros. apply lookup_app_l. lia. Qed.

Lemma jobList_add_wf w l j x :
  wf_list w l → jobs w !! j = Some x → j ∉ l → valid_addr j →
  j_next x = None →
  ∃ w', jobList_add j w = Some (tt, w') ∧ wf_list w' (l ++ [j]) ∧
        list_update [] w w' ∧
        (∀ k, k ≠ j → k ∉ l → jobs w' !! k = jobs w !! k).
Proof.
  intros Hwf Hj Hnl Hv Hnx.
  assert (Hnd' : NoDup (l ++ [j])).
  { apply NoDup_app. split; [apply Hwf|]. split; [|apply NoDup_singleton].
    intros k Hk ->%list_elem_of_singleton. done. }
  assert (Hv' : ∀ k, k ∈ l ++ [j] → valid_addr k).
  { intros k [Hk| ->%list_elem_of_singleton]%elem_of_app; [by apply Hwf|done]. }
  pose proof (valid_nodup_length _ Hnd' Hv') as Hlen.
  rewrite length_app in Hlen. simpl in Hlen.
  destruct Hwf as [Hnd Hval Hnodes Hhd Htl Hsz].
  destruct (last l) as [t|] eqn:Hlast.
  - (* a tail: the list is not empty *)
    assert (Hne : l ≠ []) by (intros ->; done).
    assert (Ht : l !! pred (length l) = Some t) by (by rewrite <- last_lookup).
    destruct (Hnodes _ _ Ht) as (xt & Hxt & Hpt & Hnt).
    assert (Htj : t ≠ j).
    { intros ->. apply Hnl. by eapply list_elem_of_lookup_2. }
    assert (Hhead : head l ≠ None) by (by destruct l).
    eexists. split.
    { unfold jobList_add. mrun. destruct (decide _) as [Heq|_]; [done|]. simpl.
      mrun. reflexivity. }
    split.
    + constructor; simpl; try done.
      * intros i k Hik.
        destruct (decide (i < length l)%nat) as [Hlt|Hge].
        -- rewrite lookup_app_l in Hik by done.
           destruct (Hnodes _ _ Hik) as (xk & Hxk & Hpk & Hnk).
           assert (Hkj : k ≠ j).
           { intros ->. apply Hnl. by eapply list_elem_of_lookup_2. }
           destruct (decide (k = t)) as [->|Hkt].
           ++ assert (i = pred (length l)) as ->.
              { eapply NoDup_lookup; [apply Hnd| |]; eassumption. }
              rewrite lookup_insert_eq. eexists. split; [done|]. simpl. split.
              ** rewrite Hxk in Hxt. inversion Hxt; subst xt. rewrite Hpk.
                 rewrite nth_prev_app_l; [done|lia].
              ** destruct l as [|a l']; [done|]. simpl.
                 by rewrite list_lookup_middle.
           ++ rewrite lookup_insert_ne by done. rewrite lookup_insert_ne by done.
              eexists. split; [done|]. split.
              ** rewrite Hpk. rewrite nth_prev_app_l; [done|lia].
              ** rewrite Hnk. rewrite lookup_app_l; [done|].
                 assert (i ≠ pred (length l)).
                 { intros ->. rewrite Ht in Hik. congruence. }
                 lia.
        -- assert (i = length l) as ->.
           { apply lookup_lt_Some in Hik. rewrite length_app in Hik. simpl in Hik. lia. }
           rewrite list_lookup_middle in Hik by done. injection Hik as <-.
           rewrite lookup_insert_ne by done. rewrite lookup_insert_eq.
           eexists. split; [done|]. simpl. split.
           ++ rewrite nth_prev_app_l by lia.
              destruct l as [|a l']; [done|]. simpl in *. by rewrite Ht.
           ++ rewrite Hnx. symmetry. apply lookup_ge_None. rewrite length_app. simpl. lia.
      * by destruct l.
      * by rewrite last_snoc.
      * rewrite Hsz. rewrite size_incr by lia. rewrite length_app. simpl. lia.
    + split.
      * constructor; simpl; try done.
        -- by rewrite app_nil_r.
        -- by destruct (exec w).
        -- rewrite (payload_insert _ t xt); [|by rewrite lookup_insert_ne|done].
           by apply (payload_insert _ j x).
      * intros k Hkj Hkl. simpl.
        assert (k ≠ t).
        { intros ->. apply Hkl. by eapply list_elem_of_lookup_2. }
        by rewrite !lookup_insert_ne.
  - (* no tail: the list is empty *)
    assert (l = []) as ->.
    { destruct l as [|a l'] using rev_ind; [done|]. by rewrite last_snoc in Hlast. }
    simpl in *.
    eexists. split.
    { unfold jobList_add. mrun. reflexivity. }
    split.
    + constructor; simpl; try done.
      * intros [|i] k Hik; [|done]. simpl in Hik. injection Hik as <-.
        rewrite lookup_insert_eq. eexists. split; [done|]. simpl. by rewrite Hnx.
      * rewrite Hsz. simpl. by rewrite size_incr.
    + split.
      * constructor; simpl; try done.
        -- by rewrite app_nil_r.
        -- by destruct (exec w).
        -- by apply (payload_insert _ j x).
      * intros k Hkj _. simpl. by rewrite lookup_insert_ne.
Qed.


Lemma set_links_id x : set_j_prev (j_prev x) (set_j_next (j_next x) x) = x.
Proof. by destruct x. Qed.

Lemma jobList_remove_run w j x :
  jobs w !! j = Some x →
  (∀ p, j_prev x = Some p → p ≠ j ∧ j_next x ≠ Some p ∧ is_Some (jobs w !! p)) →
  (∀ n, j_next x = Some n → n ≠ j ∧ is_Some (jobs w !! n)) →
  ∃ w', jobList_remove j w = Some (tt, w') ∧
    futures w' = futures w ∧ trace w' = trace w ∧
    set_ex_jobList (ex_jobList (exec w)) (exec w') = exec w ∧
    jobs w' !! j = Some x ∧
    (∀ k, k ≠ j → jobs w' !! k = unlink_node x k <$> jobs w !! k) ∧
    jl_head (ex_jobList (exec w')) =
      (if j_prev x is Some _ then jl_head (ex_jobList (exec w)) else j_next x) ∧
    jl_tail (ex_jobList (exec w')) =
      (if j_next x is Some _ then jl_tail (ex_jobList (exec w)) else j_prev x) ∧
    jl_size (ex_jobList (exec w')) =
      ((jl_size (ex_jobList (exec w)) + SIZE_MOD - 1) mod SIZE_MOD)%N.
Proof.
  intros Hj Hp Hn.
  assert (Hother : ∀ k xk, j_prev x ≠ Some k → j_next x ≠ Some k →
             unlink_node x k xk = xk).
  { intros k xk H1 H2. unfold unlink_node.
    rewrite !decide_False by done. apply set_links_id. }
  destruct (j_prev x) as [p|] eqn:Hpx; destruct (j_next x) as [n|] eqn:Hnx.
  - destruct (Hp p eq_refl) as (Hpj & Hpn & xp & Hxp).
    destruct (Hn n eq_refl) as (Hnj & xn & Hxn).
    assert (p ≠ n) by congruence.
    eexists. split; [unfold jobList_remove; mrun; reflexivity|].
    simpl. repeat split; try done.
    + by destruct (exec w).
    + by rewrite !lookup_insert_ne.
    + intros k Hk. destruct (decide (k = n)) as [->|Hkn].
      * rewrite lookup_insert_eq, Hxn. simpl. f_equal. unfold unlink_node.
        rewrite Hpx, Hnx. rewrite decide_True by done. rewrite decide_False by congruence.
        by destruct xn.
      * rewrite lookup_insert_ne by done. destruct (decide (k = p)) as [->|Hkp].
        -- rewrite lookup_insert_eq, Hxp. simpl. f_equal. unfold unlink_node.
           rewrite Hpx, Hnx. rewrite decide_False by congruence. rewrite decide_True by done.
           by destruct xp.
        -- rewrite lookup_insert_ne by done. destruct (jobs w !! k) as [xk|] eqn:Hxk; [|done].
           simpl. f_equal. symmetry. apply Hother; rewrite ?Hpx, ?Hnx; congruence.
  - destruct (Hp p eq_refl) as (Hpj & Hpn & xp & Hxp).
    eexists. split; [unfold jobList_remove; mrun; reflexivity|].
    simpl. repeat split; try done.
    + by destruct (exec w).
    + by rewrite !lookup_insert_ne.
    + intros k Hk. destruct (decide (k = p)) as [->|Hkp].
      * rewrite lookup_insert_eq, Hxp. simpl. f_equal. unfold unlink_node.
        rewrite Hpx, Hnx. rewrite decide_False by congruence. rewrite decide_True by done.
        by destruct xp.
      * rewrite lookup_insert_ne by done. destruct (jobs w !! k) as [xk|] eqn:Hxk; [|done].
        simpl. f_equal. symmetry. apply Hother; rewrite ?Hpx, ?Hnx; congruence.
  - destruct (Hn n eq_refl) as (Hnj & xn & Hxn).
    eexists. split; [unfold jobList_remove; mrun; reflexivity|].
    simpl. repeat split; try done.
    + by destruct (exec w).
    + by rewrite !lookup_insert_ne.
    + intros k Hk. destruct (decide (k = n)) as [->|Hkn].
      * rewrite lookup_insert_eq, Hxn. simpl. f_equal. unfold unlink_node.
        rewrite Hpx, Hnx. rewrite decide_True by done. rewrite decide_False by congruence.
        by destruct xn.
      * rewrite lookup_insert_ne by done. destruct (jobs w !! k) as [xk|] eqn:Hxk; [|done].
        simpl. f_equal. symmetry. apply Hother; rewrite ?Hpx, ?Hnx; congruence.
  - eexists. split; [unfold jobList_remove; mrun; reflexivity|].
    simpl. repeat split; try done.
    + by destruct (exec w).
    + intros k Hk. destruct (jobs w !! k) as [xk|] eqn:Hxk; [|done].
      simpl. f_equal. symmetry. apply Hother; rewrite ?Hpx, ?Hnx; congruence.
Qed.

Lemma filter_ne_id (l : list positive) j :
  j ∉ l → filter (λ k, k ≠ j) l = l.
Proof.
  induction l as [|a l IH]; [done|].
  intros [Ha Hl]%not_elem_of_cons.
  rewrite filter_cons_True by done. by rewrite IH.
Qed.

Lemma filter_ne_split (l1 l2 : list positive) j :
  j ∉ l1 → j ∉ l2 → filter (λ k, k ≠ j) (l1 ++ j :: l2) = l1 ++ l2.
Proof.
  intros H1 H2. rewrite filter_app, filter_cons_False by (intros ?; done).
  by rewrite !filter_ne_id.
Qed.

Lemma nth_prev_last (l : list positive) : nth_prev l (length l) = last l.
Proof. destruct l; [done|]. simpl nth_prev. by rewrite last_lookup. Qed.

Lemma jobList_remove_wf w l j :
  wf_list w l → j ∈ l →
  ∃ w', jobList_remove j w = Some (tt, w') ∧
        wf_list w' (filter (λ k, k ≠ j) l) ∧ list_update [] w w' ∧
        (∀ k, k ∉ l → jobs w' !! k = jobs w !! k).
Proof.
  intros Hwf Hjl.
  pose proof (valid_nodup_length l (wf_nodup _ _ Hwf) (wf_valid _ _ Hwf)) as Hlen.
  destruct Hwf as [Hnd Hval Hnodes Hhd Htl Hsz].
  apply list_elem_of_split in Hjl as (l1 & l2 & ->).
  apply NoDup_app in Hnd as (Hnd1 & Hd12 & Hnd2).
  apply NoDup_cons in Hnd2 as (Hj2 & Hnd2).
  assert (Hj1 : j ∉ l1) by (intros H; apply (Hd12 _ H); left).
  rewrite filter_ne_split by done.
  destruct (Hnodes (length l1) j) as (x & Hx & Hpx & Hnx);
    [by rewrite list_lookup_middle|].
  rewrite nth_prev_app_l, nth_prev_last in Hpx by done.
  replace (S (length l1)) with (length l1 + 1)%nat in Hnx by lia.
  rewrite lookup_app_r, Nat.add_comm, Nat.add_sub in Hnx by lia.
  simpl in Hnx. change (l2 !! 0%nat) with (l2 !! 0%nat) in Hnx.
  rewrite <- head_lookup in Hnx.
  assert (Hin1 : ∀ p, last l1 = Some p → p ∈ l1).
  { intros p Hp. rewrite last_lookup in Hp. by eapply list_elem_of_lookup_2. }
  assert (Hin2 : ∀ n, head l2 = Some n → n ∈ l2).
  { intros n Hn. rewrite head_lookup in Hn. by eapply list_elem_of_lookup_2. }
  assert (Halloc : ∀ k, k ∈ l1 ++ j :: l2 → is_Some (jobs w !! k)).
  { intros k [i Hi]%list_elem_of_lookup. destruct (Hnodes _ _ Hi) as (? & ? & _). eauto. }
  destruct (jobList_remove_run w j x Hx) as
    (w' & Hrun & Hfut & Htr & Hex & Hj' & Hk' & Hhd' & Htl' & Hsz').
  { intros p Hp. rewrite Hpx in Hp. apply Hin1 in Hp. repeat split.
    - intros ->. done.
    - rewrite Hnx. intros Hn%Hin2. apply (Hd12 _ Hp). by right.
    - apply Halloc. apply elem_of_app. by left. }
  { intros n Hn. rewrite Hnx in Hn. apply Hin2 in Hn. split.
    - intros ->. done.
    - apply Halloc. apply elem_of_app. right. by right. }
  exists w'. split; [done|]. split.
  - constructor.
    + apply NoDup_app. repeat split; try done.
      intros k Hk1 Hk2. apply (Hd12 _ Hk1). by right.
    + intros k Hk. apply Hval. apply elem_of_app in Hk as [?|?]; apply elem_of_app; [by left|right; by right].
    + intros i k Hik.
      assert (Hkj : k ≠ j).
      { intros ->. apply list_elem_of_lookup_2, elem_of_app in Hik as [?|?]; done. }
      rewrite (Hk' k Hkj).
      destruct (decide (i < length l1)%nat) as [Hlt|Hge].
      * rewrite lookup_app_l in Hik by done.
        destruct (Hnodes i k) as (xk & Hxk & Hpk & Hnk); [by rewrite lookup_app_l|].
        rewrite Hxk. simpl. eexists. split; [done|]. unfold unlink_node; simpl.
        assert (Hk1 : k ∈ l1) by (by eapply list_elem_of_lookup_2).
        split.
        -- rewrite decide_False.
           ++ rewrite Hpk. by rewrite !nth_prev_app_l by lia.
           ++ rewrite Hnx. intros Hn%Hin2. apply (Hd12 _ Hk1). by right.
        -- destruct (decide (j_prev x = Some k)) as [Hp|Hp].
           ++ rewrite Hpx, last_lookup in Hp.
              assert (i = pred (length l1)) as ->.
              { eapply NoDup_lookup; [apply Hnd1| |]; eassumption. }
              rewrite Hnx, head_lookup.
              replace (S (pred (length l1))) with (length l1 + 0)%nat by lia.
              by rewrite lookup_app_r, Nat.add_comm, Nat.add_sub by lia.
           ++ rewrite Hnk.
              assert (S i < length l1)%nat.
              { destruct (decide (S i = length l1)) as [Heq|]; [|lia].
                exfalso. apply Hp. rewrite Hpx, last_lookup, <- Heq. done. }
              by rewrite !lookup_app_l by lia.
      * rewrite lookup_app_r in Hik by lia.
        destruct (Hnodes (S i) k) as (xk & Hxk & Hpk & Hnk).
        { replace (S i) with (length l1 + S (i - length l1))%nat by lia.
          rewrite lookup_app_r by lia.
          replace (length l1 + S (i - length l1) - length l1)%nat with (S (i - length l1)) by lia.
          done. }
        rewrite Hxk. simpl. eexists. split; [done|]. unfold unlink_node; simpl.
        assert (Hk2 : k ∈ l2) by (by eapply list_elem_of_lookup_2).
        split.
        -- destruct (decide (j_next x = Some k)) as [Hn|Hn].
           ++ rewrite Hnx, head_lookup in Hn.
              assert (i - length l1 = 0)%nat as Hi0.
              { eapply NoDup_lookup; [apply Hnd2| |]; eassumption. }
              assert (i = length l1) as -> by lia.
              rewrite Hpx. by rewrite nth_prev_app_l, nth_prev_last by lia.
           ++ rewrite Hpk. simpl.
              assert (i ≠ length l1).
              { intros ->. apply Hn. rewrite Hnx, head_lookup.
                by rewrite Nat.sub_diag in Hik. }
              destruct i as [|i']; [lia|]. simpl.
              destruct (decide (i' < length l1)%nat); [lia|].
              rewrite !lookup_app_r by lia.
              replace (S i' - length l1)%nat with (S (i' - length l1)) by lia.
              done.
        -- rewrite decide_False.
           ++ rewrite Hnk. rewrite !lookup_app_r by lia.
              replace (S (S i) - length l1)%nat with (S (S i - length l1)) by lia.
              done.
           ++ rewrite Hpx. intros Hp%Hin1. by apply (Hd12 _ Hp); right.
    + rewrite Hhd'. rewrite Hpx, Hnx, Hhd.
      destruct l1 as [|a l1']; [done|]. simpl.
      destruct (last (a :: l1')) eqn:Hl; [done|].
      by rewrite last_cons in Hl; destruct (last l1').
    + rewrite Htl'. rewrite Hpx, Hnx, Htl.
      destruct l2 as [|b l2']; simpl.
      * by rewrite app_nil_r.
      * by rewrite !last_app, last_cons_cons.
    + rewrite Hsz', Hsz. rewrite !length_app in *. cbn [length] in *.
      rewrite size_decr by lia. lia.
  - split.
    + constructor; try done; [by rewrite app_nil_r|].
      apply map_eq. intros k. rewrite !lookup_fmap.
      destruct (decide (k = j)) as [->|Hkj]; [by rewrite Hj', Hx|].
      rewrite (Hk' k Hkj). destruct (jobs w !! k) as [xk|]; [|done]. simpl.
      done.
    + intros k Hk.
      assert (Hkj : k ≠ j).
      { intros ->. apply Hk. apply elem_of_app. right. left. }
      rewrite (Hk' k Hkj). destruct (jobs w !! k) as [xk|]; [|done]. simpl.
      f_equal. unfold unlink_node. rewrite !decide_False.
      * apply set_links_id.
      * rewrite Hpx. intros Hp%Hin1. apply Hk, elem_of_app. by left.
      * rewrite Hnx. intros Hn%Hin2. apply Hk, elem_of_app. right. by right.
Qed.


Lemma nodup_length_le_size (h : gmap positive Job) (l : list positive) :
  NoDup l → (∀ j, j ∈ l → is_Some (h !! j)) → (length l ≤ size h)%nat.
Proof.
  intros Hnd Hin.
  rewrite <- (size_dom (D := gset positive) h).
  rewrite <- (size_list_to_set (C := gset positive) l Hnd).
  apply subseteq_size. intros j Hj. apply elem_of_list_to_set in Hj.
  apply elem_of_dom. auto.
Qed.

Lemma wf_length_le_size w l : wf_list w l → (length l ≤ size (jobs w))%nat.
Proof.
  intros Hwf. apply nodup_length_le_size; [apply Hwf|].
  intros j Hj. destruct (wf_elem _ _ _ Hwf Hj). eauto.
Qed.

Lemma walk_wf w l :
  wf_list w l →
  ∀ fuel i, (length l - i ≤ fuel)%nat →
    walk fuel (jobs w) (l !! i) = Some (drop i l).
Proof.
  intros Hwf. induction fuel as [|fuel IH]; intros i Hi.
  - rewrite (lookup_ge_None_2 l i) by lia. simpl. by rewrite drop_ge by lia.
  - destruct (l !! i) as [j|] eqn:Hj.
    + destruct (wf_lookup _ _ _ _ Hwf Hj) as (x & Hx & _ & Hnx).
      simpl. rewrite Hx, Hnx, IH by lia.
      by rewrite (drop_S _ _ _ Hj).
    + simpl. apply lookup_ge_None in Hj. by rewrite drop_ge by lia.
Qed.

Lemma reachable_nodes_wf w l : wf_list w l → reachable_nodes w = Some l.
Proof.
  intros Hwf. unfold reachable_nodes.
  rewrite (wf_head _ _ Hwf), head_lookup.
  rewrite (walk_wf w l Hwf); [done|].
  pose proof (wf_length_le_size _ _ Hwf). lia.
Qed.

Lemma list_invariant_wf w l : wf_list w l → list_invariant w.
Proof.
  intros Hwf. unfold list_invariant. split; [|split].
  - exists l. split; [by apply reachable_nodes_wf|].
    split; [apply Hwf|]. split; [apply Hwf|].
    intros a x [i Hi]%list_elem_of_lookup Hx.
    destruct (wf_lookup _ _ _ _ Hwf Hi) as (x' & Hx' & Hp & Hn).
    rewrite Hx in Hx'. injection Hx' as <-. split.
    + intros b Hb. rewrite Hn in Hb. split; [by eapply list_elem_of_lookup_2|].
      destruct (wf_lookup _ _ _ _ Hwf Hb) as (y & Hy & Hpy & _).
      exists y. split; [done|]. by rewrite Hpy.
    + intros b Hb. rewrite Hp in Hb. destruct i as [|i]; [done|]. simpl in Hb.
      split; [by eapply list_elem_of_lookup_2|].
      destruct (wf_lookup _ _ _ _ Hwf Hb) as (y & Hy & _ & Hny).
      exists y. split; [done|]. by rewrite Hny.
  - intros a Ha. rewrite (wf_head _ _ Hwf), head_lookup in Ha.
    destruct (wf_lookup _ _ _ _ Hwf Ha) as (x & Hx & Hp & _). eauto.
  - intros a Ha. rewrite (wf_tail _ _ Hwf), last_lookup in Ha.
    destruct (wf_lookup _ _ _ _ Hwf Ha) as (x & Hx & _ & Hn).
    exists x. split; [done|]. rewrite Hn. apply lookup_ge_None.
    apply lookup_lt_Some in Ha. lia.
Qed.

Lemma wf_list_empty w :
  ex_jobList (exec w) = mkJobList None None 0 → wf_list w [].
Proof.
  intros H. constructor; rewrite ?H; try done.
  - constructor.
  - intros j Hj. by apply elem_of_nil in Hj.
Qed.

Lemma jobList_size_wf w l :
  wf_list w l → jobList_size w = Some (N.of_nat (length l), w).
Proof. intros Hwf. unfold jobList_size. mrun. by rewrite (wf_size _ _ Hwf). Qed.

Lemma apply_ops_wf ops : ∀ w l,
  wf_list w l → ops_admissible w l ops →
  ∃ w', apply_ops ops w = Some (tt, w') ∧ wf_list w' (members l ops).
Proof.
  induction ops as [|op ops IH]; intros w l Hwf Hadm.
  - exists w. done.
  - destruct Hadm as [Hpre Hrest].
    assert (∃ w1, apply_op op w = Some (tt, w1) ∧ wf_list w1 (members_after op l))
      as (w1 & Hop & Hwf1).
    { destruct op as [j|j]; simpl in *.
      - destruct Hpre as (Hnl & Hv & x & Hx & _ & Hnx).
        destruct (jobList_add_wf w l j x) as (w1 & ? & ? & _); eauto.
      - destruct (jobList_remove_wf w l j) as (w1 & ? & ? & _); eauto. }
    rewrite Hop in Hrest.
    destruct (IH w1 _ Hwf1 Hrest) as (w' & Hrun & Hwf').
    exists w'. split; [|done].
    simpl. unfold mbind, M_bind. by rewrite Hop.
Qed.


Lemma add_events_app evs1 evs2 w :
  add_events evs2 (add_events evs1 w) = add_events (evs1 ++ evs2) w.
Proof. unfold add_events, set_trace. simpl. by rewrite app_assoc. Qed.

Lemma add_events_nil w : add_events [] w = w.
Proof. unfold add_events, set_trace. rewrite app_nil_r. by destruct w. Qed.

Lemma set_job_id j x w : jobs w !! j = Some x → set_job j x w = w.
Proof. intros H. unfold set_job, set_jobs. rewrite insert_id by done. by destruct w. Qed.

Lemma set_job_twice j x y w : set_job j y (set_job j x w) = set_job j y w.
Proof. unfold set_job, set_jobs. simpl. by rewrite insert_insert_eq. Qed.

Lemma set_job_add_events j x evs w :
  set_job j x (add_events evs w) = add_events evs (set_job j x w).
Proof. done. Qed.

(** Locking and unlocking leave the job as it was. *)
Lemma unlock_lock x :
  j_mutex x = false → set_j_mutex false (set_j_mutex true x) = x.
Proof. destruct x; simpl; by intros ->. Qed.

Lemma unlock_cancel_lock x :
  j_mutex x = false →
  set_j_mutex false (set_j_canceled true (set_j_mutex true x))
  = set_j_canceled true x.
Proof. destruct x; simpl; by intros ->. Qed.

Section JobCancel.
Variable E : Env.

Lemma job_defaultHaltFunc_spec obj thread w :
  let k := pthread_kill E thread SIGTERM w in
  let w1 := add_events [EvKill thread SIGTERM] w in
  (k = 0 ∨ k = ESRCH → job_defaultHaltFunc E obj thread w = Some (0, w1)) ∧
  (k ≠ 0 → k ≠ ESRCH → job_defaultHaltFunc E obj thread w
       = Some (k, add_events [EvLogAddErrno k "Couldn't signal job's thread"] w1)).
Proof.
  intros k w1. unfold job_defaultHaltFunc. munfold. fold k. split.
  - intros [H|H]; rewrite H; simpl; reflexivity.
  - intros H1 H2. destruct (decide (k ≠ 0)); [|done]. destruct (decide (k = ESRCH)); [done|]. reflexivity.
Qed.

Lemma call_halt_events halt obj t w :
  call_halt E halt obj (Some t) w
  = Some ((halt_events E halt obj t w).1,
          add_events (halt_events E halt obj t w).2 w).
Proof.
  destruct halt as [|fn]; simpl; [|done].
  destruct (job_defaultHaltFunc_spec obj t w) as [H0 H1].
  destruct (decide (pthread_kill E t SIGTERM w = 0)) as [Hk|Hk].
  - rewrite H0 by auto. done.
  - destruct (decide (pthread_kill E t SIGTERM w = ESRCH)) as [Hk'|Hk'].
    + rewrite H0 by auto. done.
    + rewrite H1 by auto. simpl. by rewrite add_events_app.
Qed.

Lemma job_cancel_completed_eq j x w :
  jobs w !! j = Some x → j_state x = JOB_COMPLETED → j_mutex x = false →
  job_cancel E j w = Some (0, add_events [EvJobLock j; EvJobUnlock j] w).
Proof.
  intros Hj Hs Hm. unfold job_cancel. mrun.
  rewrite insert_insert_eq, unlock_lock, insert_id by done.
  world_norm. by rewrite <- app_assoc.
Qed.

Lemma job_cancel_initialized_eq j x w :
  jobs w !! j = Some x → j_state x = JOB_INITIALIZED → j_mutex x = false →
  job_cancel E j w
  = Some (0, add_events [EvJobLock j; EvJobUnlock j]
               (set_job j (set_j_canceled true x) w)).
Proof.
  intros Hj Hs Hm. unfold job_cancel. mrun.
  rewrite !insert_insert_eq, unlock_cancel_lock by done.
  world_norm. by rewrite <- app_assoc.
Qed.

Lemma job_cancel_executing_eq j x t w :
  jobs w !! j = Some x → j_state x = JOB_EXECUTING → j_mutex x = false →
  j_thread x = Some t →
  let w1 := add_events [EvJobLock j; EvJobUnlock j]
              (set_job j (set_j_canceled true x) w) in
  let status := (halt_events E (j_halt x) (j_obj x) t w1).1 in
  job_cancel E j w
  = Some (status,
          add_events
            ((halt_events E (j_halt x) (j_obj x) t w1).2 ++
             if decide (status ≠ 0)
             then [EvLogError "Job's halt function returned %d" status]
             else []) w1).
Proof.
  intros Hj Hs Hm Ht w1 status. unfold job_cancel. mrun.
  rewrite !insert_insert_eq, unlock_cancel_lock by done.
  rewrite <- app_assoc. simpl.
  lazymatch goal with
  | |- match ?h ?wx with _ => _ end = _ =>
      change wx with w1; change h with (call_halt E (j_halt x) (j_obj x) (Some t))
  end.
  rewrite call_halt_events. fold status.
  destruct (decide (status ≠ 0)); simpl.
  - by rewrite <- add_events_app.
  - by rewrite app_nil_r.
Qed.
End JobCancel.

Lemma canceled_only_refl w : canceled_only w w.
Proof. constructor; auto. exists []. by rewrite app_nil_r. Qed.

Lemma canceled_only_trans w1 w2 w3 :
  canceled_only w1 w2 → canceled_only w2 w3 → canceled_only w1 w3.
Proof.
  intros [Hf1 He1 Hj1 [e1 Ht1]] [Hf2 He2 Hj2 [e2 Ht2]]. constructor.
  - congruence.
  - congruence.
  - intros k. destruct (Hj2 k) as [->| ->]; destruct (Hj1 k) as [->| ->]; auto.
    right. destruct (jobs w1 !! k); done.
  - exists (e1 ++ e2). by rewrite Ht2, Ht1, app_assoc.
Qed.

Lemma canceled_only_add_events evs w : canceled_only w (add_events evs w).
Proof. constructor; auto. by exists evs. Qed.

Lemma canceled_only_set_job j x evs w :
  jobs w !! j = Some x →
  canceled_only w (add_events evs (set_job j (set_j_canceled true x) w)).
Proof.
  intros Hj. constructor; simpl; auto; [|by exists evs].
  intros k. destruct (decide (k = j)) as [->|Hk].
  - right. by rewrite lookup_insert_eq, Hj.
  - left. by rewrite lookup_insert_ne.
Qed.

Lemma canceled_only_lookup w w' k y :
  canceled_only w w' → jobs w' !! k = Some y →
  ∃ x, jobs w !! k = Some x ∧ (y = x ∨ y = set_j_canceled true x).
Proof.
  intros Hco Hy. destruct (co_jobs _ _ Hco k) as [H|H]; rewrite Hy in H.
  - eauto.
  - destruct (jobs w !! k) as [x|]; [|done]. injection H as ->. eauto.
Qed.

Lemma canceled_only_lookup_fwd w w' k x :
  canceled_only w w' → jobs w !! k = Some x →
  ∃ y, jobs w' !! k = Some y ∧ (y = x ∨ y = set_j_canceled true x).
Proof.
  intros Hco Hx. destruct (co_jobs _ _ Hco k) as [H|H]; rewrite Hx in H; eauto.
Qed.

Lemma canceled_only_wf w w' l :
  canceled_only w w' → wf_list w l → wf_list w' l.
Proof.
  intros Hco [Hnd Hval Hnodes Hhd Htl Hsz].
  constructor; rewrite ?(co_exec _ _ Hco); try done.
  intros i j Hij. destruct (Hnodes _ _ Hij) as (x & Hx & Hp & Hn).
  destruct (canceled_only_lookup_fwd _ _ _ _ Hco Hx) as (y & Hy & [->| ->]); eauto.
Qed.

Section CancelAllLoop.
Variable E : Env.

Lemma job_cancel_inv j w s w' :
  job_cancel E j w = Some (s, w') →
  ∃ x, jobs w !! j = Some x ∧ j_mutex x = false ∧
       (j_state x = JOB_EXECUTING → is_Some (j_thread x)).
Proof.
  intros H. destruct (jobs w !! j) as [x|] eqn:Hj.
  2:{ revert H. unfold job_cancel. mrun. done. }
  exists x. split; [done|].
  destruct (j_mutex x) eqn:Hm.
  { revert H. unfold job_cancel. mrun. done. }
  split; [done|]. intros Hs.
  destruct (j_thread x) eqn:Ht; [eauto|].
  revert H. unfold job_cancel. mrun. done.
Qed.

Lemma job_cancel_canceled_only j w s w' :
  job_cancel E j w = Some (s, w') → canceled_only w w'.
Proof.
  intros H. destruct (job_cancel_inv _ _ _ _ H) as (x & Hj & Hm & Ht).
  destruct (j_state x) eqn:Hs.
  - rewrite (job_cancel_initialized_eq E j x) in H by done.
    injection H as <- <-. by apply canceled_only_set_job.
  - destruct Ht as [t Ht]; [done|].
    rewrite (job_cancel_executing_eq E j x t) in H by done.
    injection H as <- <-. rewrite add_events_app.
    by apply canceled_only_set_job.
  - rewrite (job_cancel_completed_eq E j x) in H by done.
    injection H as <- <-. apply canceled_only_add_events.
Qed.

Lemma future_cancel_canceled_only f w s w' :
  future_cancel E f w = Some (s, w') → canceled_only w w'.
Proof.
  unfold future_cancel. munfold. simpl.
  destruct f as [f|]; [|done].
  destruct (futures w !! f) as [fx|]; [|done]. simpl.
  destruct (f_job fx) as [k|]; [|done].
  intros H%job_cancel_canceled_only.
  eapply canceled_only_trans; [|exact H].
  apply (canceled_only_add_events [EvFutureCancel (Some f)]).
Qed.

Lemma futures_of_canceled_only w w' l :
  canceled_only w w' → futures_of w' l = futures_of w l.
Proof.
  intros Hco. unfold futures_of. apply list_fmap_ext. intros _ j _.
  destruct (co_jobs _ _ Hco j) as [->| ->]; [done|].
  by destruct (jobs w !! j).
Qed.

Lemma jobList_cancelAll_loop_eq l :
  ∀ fuel i status w,
    wf_list w l → (length l - i ≤ fuel)%nat →
    jobList_cancelAll_loop E fuel (l !! i) status w
    = (stats ← cancel_each E (futures_of w (drop i l));
       mret (if decide (status = 0) then first_nonzero stats else status)) w.
Proof.
  induction fuel as [|fuel IH]; intros i status w Hwf Hi.
  - rewrite (lookup_ge_None_2 l i), drop_ge by lia. simpl.
    unfold mbind, M_bind, mret, M_ret. simpl. by destruct (decide (status = 0)) as [->|].
  - destruct (l !! i) as [j|] eqn:Hj.
    2:{ apply lookup_ge_None in Hj. rewrite drop_ge by lia. simpl.
        unfold mbind, M_bind, mret, M_ret. simpl. by destruct (decide (status = 0)) as [->|]. }
    destruct (wf_lookup _ _ _ _ Hwf Hj) as (x & Hx & _ & Hnx).
    rewrite (drop_S _ _ _ Hj). unfold futures_of at 1. rewrite fmap_cons.
    rewrite Hx. simpl. fold (futures_of w (drop (S i) l)).
    unfold get_job, mbind, M_bind. rewrite Hx.
    destruct (future_cancel E (j_future x) w) as [[stat w1]|] eqn:Hfc; [|done].
    pose proof (future_cancel_canceled_only _ _ _ _ Hfc) as Hco.
    rewrite Hnx.
    destruct (decide (stat ≠ 0)) as [Hst|Hst]; simpl.
    + unfold emit, modify, mret, M_ret. simpl.
      change (set_trace (trace w1 ++ [EvLogAdd "Couldn't cancel job"]) w1)
        with (add_events [EvLogAdd "Couldn't cancel job"] w1).
      assert (Hco' : canceled_only w (add_events [EvLogAdd "Couldn't cancel job"] w1)).
      { eapply canceled_only_trans; [exact Hco|apply canceled_only_add_events]. }
      rewrite IH; [|by eapply canceled_only_wf|lia].
      rewrite (futures_of_canceled_only _ _ _ Hco').
      unfold mbind, M_bind, mret, M_ret.
      destruct (cancel_each E _ _) as [[stats w2]|]; [|done].
      f_equal. f_equal. simpl. rewrite (decide_True (P := stat ≠ 0)) by done.
      destruct (decide (status = 0)); [by rewrite decide_False|by rewrite decide_False].
    + unfold mret, M_ret.
      rewrite IH; [|by eapply canceled_only_wf|lia].
      rewrite (futures_of_canceled_only _ _ _ Hco).
      unfold mbind, M_bind, mret, M_ret.
      destruct (cancel_each E _ _) as [[stats w2]|]; [|done].
      f_equal. f_equal. simpl. by rewrite (decide_False (P := stat ≠ 0)) by done.
Qed.

Lemma jobList_cancelAll_eq w l :
  wf_list w l →
  jobList_cancelAll E w
  = (stats ← cancel_each E (futures_of w l); mret (first_nonzero stats)) w.
Proof.
  intros Hwf. unfold jobList_cancelAll. mrun.
  rewrite (wf_head _ _ Hwf), head_lookup.
  rewrite (jobList_cancelAll_loop_eq l); [|done|].
  - by rewrite drop_0.
  - pose proof (wf_length_le_size _ _ Hwf). lia.
Qed.
End CancelAllLoop.


Lemma new_events_app w w' evs :
  trace w' = trace w ++ evs → new_events w w' = evs.
Proof. intros H. unfold new_events. by rewrite H, drop_app_length. Qed.

Lemma future_cancels_app evs1 evs2 :
  future_cancels (evs1 ++ evs2) = future_cancels evs1 ++ future_cancels evs2.
Proof. apply omap_app. Qed.

Lemma cancellable_canceled_only w w' j :
  canceled_only w w' → cancellable w j → cancellable w' j.
Proof.
  intros Hco (x & f & fx & k & y & Hx & Hf & Hfx & Hk & Hy & Hm & Ht).
  destruct (canceled_only_lookup_fwd _ _ _ _ Hco Hx) as (x' & Hx' & Hxx).
  destruct (canceled_only_lookup_fwd _ _ _ _ Hco Hy) as (y' & Hy' & Hyy).
  exists x', f, fx, k, y'. rewrite (co_futures _ _ Hco).
  repeat split; try done.
  - by destruct Hxx as [->| ->].
  - by destruct Hyy as [->| ->].
  - by destruct Hyy as [->| ->].
Qed.

Section CancelEach.
Variable E : Env.

Lemma halt_events_no_cancel halt obj t w :
  future_cancels (halt_events E halt obj t w).2 = [].
Proof.
  destruct halt; simpl; [|done].
  repeat (destruct (decide _); simpl); done.
Qed.

Lemma job_cancel_events j w s w' :
  job_cancel E j w = Some (s, w') →
  ∃ evs, trace w' = trace w ++ evs ∧ future_cancels evs = [].
Proof.
  intros H. destruct (job_cancel_inv _ _ _ _ _ H) as (x & Hj & Hm & Ht).
  destruct (j_state x) eqn:Hs.
  - rewrite (job_cancel_initialized_eq E j x) in H by done.
    injection H as <- <-. eexists. split; [done|]. done.
  - destruct Ht as [t Ht]; [done|].
    rewrite (job_cancel_executing_eq E j x t) in H by done.
    injection H as <- <-. rewrite add_events_app. eexists. split; [done|].
    rewrite !future_cancels_app, halt_events_no_cancel. simpl.
    by destruct (decide _).
  - rewrite (job_cancel_completed_eq E j x) in H by done.
    injection H as <- <-. eexists. split; [done|]. done.
Qed.

Lemma future_cancel_events f w s w' :
  future_cancel E f w = Some (s, w') →
  ∃ evs, trace w' = trace w ++ evs ∧ future_cancels evs = [f].
Proof.
  unfold future_cancel. munfold. simpl.
  destruct f as [f|]; [|done].
  destruct (futures w !! f) as [fx|]; [|done]. simpl.
  destruct (f_job fx) as [k|]; [|done].
  intros (evs & Htr & Hno)%job_cancel_events. simpl in Htr.
  exists (EvFutureCancel (Some f) :: evs). split.
  - by rewrite Htr, <- app_assoc.
  - simpl. fold (future_cancels evs). by rewrite Hno.
Qed.

Lemma future_cancel_total w j :
  cancellable w j →
  ∃ x s w', jobs w !! j = Some x ∧
            future_cancel E (j_future x) w = Some (s, w').
Proof.
  intros (x & f & fx & k & y & Hx & Hf & Hfx & Hk & Hy & Hm & Ht).
  exists x. rewrite Hf. unfold future_cancel. mrun.
  change (set_trace _ w) with (add_events [EvFutureCancel (Some f)] w).
  destruct (j_state y) eqn:Hs.
  - rewrite (job_cancel_initialized_eq E k y) by done. eauto.
  - destruct Ht as [t Ht]; [done|].
    rewrite (job_cancel_executing_eq E k y t) by done. eauto.
  - rewrite (job_cancel_completed_eq E k y) by done. eauto.
Qed.

(** Every node's future is cancelled, in order, whatever the statuses. *)
Lemma cancel_each_visits l : ∀ w stats w',
  cancel_each E (futures_of w l) w = Some (stats, w') →
  length stats = length l ∧
  future_cancels (new_events w w') = futures_of w l ∧
  canceled_only w w'.
Proof.
  induction l as [|j l IH]; intros w stats w' H.
  - injection H as <- <-. unfold new_events. rewrite drop_all.
    split; [done|]. split; [done|]. apply canceled_only_refl.
  - unfold futures_of in H. rewrite fmap_cons in H.
    fold (futures_of w l) in H. simpl in H.
    unfold mbind at 1, M_bind at 1 in H.
    destruct (future_cancel E _ w) as [[stat w1]|] eqn:Hfc; [|done].
    pose proof (future_cancel_canceled_only _ _ _ _ _ Hfc) as Hco.
    destruct (future_cancel_events _ _ _ _ Hfc) as (evs & Htr & Hevs).
    set (w2 := if decide (stat ≠ 0)
               then add_events [EvLogAdd "Couldn't cancel job"] w1 else w1).
    assert (Hco2 : canceled_only w w2).
    { unfold w2. destruct (decide _); [|done].
      eapply canceled_only_trans; [exact Hco|apply canceled_only_add_events]. }
    assert (Htr2 : ∃ evs', trace w2 = trace w ++ evs ++ evs' ∧ future_cancels evs' = []).
    { unfold w2. destruct (decide _).
      - exists [EvLogAdd "Couldn't cancel job"]. simpl. by rewrite Htr, app_assoc.
      - exists []. by rewrite app_nil_r. }
    destruct Htr2 as (evs' & Htr2 & Hevs').
    assert (Hrest : ∃ stats', cancel_each E (futures_of w2 l) w2 = Some (stats', w')
                              ∧ stats = stat :: stats').
    { rewrite (futures_of_canceled_only _ _ _ Hco2).
      unfold mbind, M_bind in H. unfold w2.
      destruct (decide (stat ≠ 0)); simpl in H.
      - unfold add_events.
        destruct (cancel_each E (futures_of w l) _) as [[stats' w3]|]; [|done].
        injection H as <- <-. eauto.
      - destruct (cancel_each E (futures_of w l) _) as [[stats' w3]|]; [|done].
        injection H as <- <-. eauto. }
    destruct Hrest as (stats' & Hrest & ->).
    destruct (IH _ _ _ Hrest) as (Hlen & Hfc' & Hco').
    split; [simpl; by rewrite Hlen|]. split.
    + destruct (co_trace _ _ Hco') as [evs3 Htr3].
      rewrite (new_events_app w2 w' evs3) in Hfc' by done.
      rewrite (new_events_app w w' (evs ++ evs' ++ evs3)).
      2:{ rewrite Htr3, Htr2. by rewrite <- !app_assoc. }
      rewrite !future_cancels_app, Hevs, Hevs', Hfc'. simpl.
      by rewrite (futures_of_canceled_only _ _ _ Hco2).
    + by eapply canceled_only_trans.
Qed.

Lemma cancel_each_total l : ∀ w,
  (∀ j, j ∈ l → cancellable w j) →
  ∃ stats w', cancel_each E (futures_of w l) w = Some (stats, w').
Proof.
  induction l as [|j l IH]; intros w Hc.
  - by exists [], w.
  - destruct (future_cancel_total w j) as (x & stat & w1 & Hx & Hfc);
      [apply Hc; left|].
    pose proof (future_cancel_canceled_only _ _ _ _ _ Hfc) as Hco.
    set (w2 := if decide (stat ≠ 0)
               then add_events [EvLogAdd "Couldn't cancel job"] w1 else w1).
    assert (Hco2 : canceled_only w w2).
    { unfold w2. destruct (decide _); [|done].
      eapply canceled_only_trans; [exact Hco|apply canceled_only_add_events]. }
    destruct (IH w2) as (stats & w' & Hrest).
    { intros k Hk. eapply cancellable_canceled_only; [exact Hco2|].
      apply Hc. by right. }
    rewrite (futures_of_canceled_only _ _ _ Hco2) in Hrest.
    exists (stat :: stats), w'.
    unfold futures_of. rewrite fmap_cons. fold (futures_of w l).
    rewrite Hx. simpl. unfold mbind, M_bind. rewrite Hfc.
    unfold w2 in Hrest. destruct (decide (stat ≠ 0)); simpl.
    + unfold add_events in Hrest. by rewrite Hrest.
    + by rewrite Hrest.
Qed.
End CancelEach.


Section Construction.
Variable E : Env.

Lemma future_new_ok w f :
  future_alloc E w = Some f →
  future_new E w = Some (Some f, future_world f w).
Proof. intros H. unfold future_new. mrun. by rewrite H. Qed.

Lemma job_new_ok f j obj run halt w fx :
  futures w !! f = Some fx →
  log_malloc E w = Some j →
  let w' := set_futures (<[f := mkFuture (Some j) (f_published fx) (f_status fx)
                              (f_result fx) (f_canceled fx)]> (futures w))
              (set_jobs (<[j := new_job (Some f) obj run halt]> (jobs w)) w) in
  mutex_init E w' = 0 → pthread_cond_init E w' = 0 →
  job_new E (Some f) obj run halt w = Some (Some j, w').
Proof.
  intros Hf Hj w' Hm Hc. subst w'. unfold job_new, future_setJob, new_job in *.
  unfold set_futures, set_jobs in *. simpl in *.
  mrun. rewrite Hj. simpl. mrun. rewrite Hm. simpl. rewrite Hc. done.
Qed.
End Construction.

Lemma world_ext w1 w2 :
  jobs w1 = jobs w2 → futures w1 = futures w2 → exec w1 = exec w2 →
  trace w1 = trace w2 → w1 = w2.
Proof. destruct w1, w2; simpl; by intros -> -> -> ->. Qed.

Lemma executor_ext e1 e2 :
  ex_mutex e1 = ex_mutex e2 → ex_jobList e1 = ex_jobList e2 →
  ex_completer e1 = ex_completer e2 →
  ex_afterCompletion e1 = ex_afterCompletion e2 →
  ex_isShutdown e1 = ex_isShutdown e2 → e1 = e2.
Proof. destruct e1, e2; simpl; by intros -> -> -> -> ->. Qed.

Lemma jobList_ext l1 l2 :
  jl_head l1 = jl_head l2 → jl_tail l1 = jl_tail l2 →
  jl_size l1 = jl_size l2 → l1 = l2.
Proof. destruct l1, l2; simpl; by intros -> -> ->. Qed.

Lemma executor_lock_eq w :
  ex_mutex (exec w) = false → executor_lock w = Some (tt, exec_locked w).
Proof. intros H. unfold executor_lock. mrun. done. Qed.

Lemma executor_unlock_eq w :
  ex_mutex (exec w) = true → executor_unlock w = Some (tt, exec_unlocked w).
Proof. intros H. unfold executor_unlock. mrun. done. Qed.

Lemma wf_list_ext w w' l :
  jobs w' = jobs w → ex_jobList (exec w') = ex_jobList (exec w) →
  wf_list w l → wf_list w' l.
Proof. intros Hj He [? ? ? ? ? ?]. constructor; rewrite ?Hj, ?He; done. Qed.

Lemma wf_list_same_jobList w w' l :
  wf_list w l → wf_list w' l → ex_jobList (exec w') = ex_jobList (exec w).
Proof.
  intros H H'. apply jobList_ext.
  - by rewrite (wf_head _ _ H), (wf_head _ _ H').
  - by rewrite (wf_tail _ _ H), (wf_tail _ _ H').
  - by rewrite (wf_size _ _ H), (wf_size _ _ H').
Qed.

Lemma job_eq_payload x y :
  payload x = payload y → j_prev x = j_prev y → j_next x = j_next y → x = y.
Proof.
  destruct x, y; unfold payload; simpl. intros H -> ->.
  by injection H as -> -> -> -> -> -> -> ->.
Qed.

(** The nodes of the list are determined by the list and the payloads. *)
Lemma wf_list_same_nodes w w' l k :
  wf_list w l → wf_list w' l →
  payload <$> jobs w' = payload <$> jobs w →
  k ∈ l → jobs w' !! k = jobs w !! k.
Proof.
  intros H H' Hp [i Hi]%list_elem_of_lookup.
  destruct (wf_lookup _ _ _ _ H Hi) as (x & Hx & Hpx & Hnx).
  destruct (wf_lookup _ _ _ _ H' Hi) as (x' & Hx' & Hpx' & Hnx').
  rewrite Hx, Hx'. f_equal. apply job_eq_payload; [|congruence..].
  assert (Hk : (payload <$> jobs w') !! k = (payload <$> jobs w) !! k)
    by (by rewrite Hp).
  rewrite !lookup_fmap, Hx, Hx' in Hk. simpl in Hk. congruence.
Qed.

Lemma payload_lookup w w' k x :
  payload <$> jobs w' = payload <$> jobs w → jobs w !! k = Some x →
  ∃ x', jobs w' !! k = Some x' ∧ payload x' = payload x.
Proof.
  intros Hp Hx.
  assert (Hk : (payload <$> jobs w') !! k = (payload <$> jobs w) !! k)
    by (by rewrite Hp).
  rewrite !lookup_fmap, Hx in Hk.
  destruct (jobs w' !! k) as [x'|]; [|done]. simpl in Hk.
  exists x'. split; [done|]. congruence.
Qed.

Lemma payload_lookup_None w w' k :
  payload <$> jobs w' = payload <$> jobs w → jobs w !! k = None →
  jobs w' !! k = None.
Proof.
  intros Hp Hx.
  assert (Hk : (payload <$> jobs w') !! k = (payload <$> jobs w) !! k)
    by (by rewrite Hp).
  rewrite !lookup_fmap, Hx in Hk.
  by destruct (jobs w' !! k).
Qed.

Lemma list_update_locked evs w w1 :
  ex_mutex (exec w) = false →
  list_update evs (exec_locked w) w1 →
  ex_mutex (exec w1) = true ∧
  list_update (EvExecLock :: evs ++ [EvExecUnlock]) w (exec_unlocked w1).
Proof.
  intros Hm [Hf Ht He Hj]. simpl in *.
  assert (Hm1 : ex_mutex (exec w1) = true).
  { destruct (exec w1), (exec w); simpl in *. by injection He. }
  split; [done|]. constructor; simpl; try done.
  - rewrite Ht. by rewrite <- !app_assoc.
  - destruct (exec w1), (exec w); simpl in *. injection He as -> -> -> ->.
    by rewrite Hm.
Qed.

Lemma executor_remove_wf w l j :
  wf_list w l → j ∈ l → ex_mutex (exec w) = false →
  ∃ w', executor_remove j w = Some (tt, w') ∧
        wf_list w' (filter (λ k, k ≠ j) l) ∧
        list_update [EvExecLock; EvExecUnlock] w w' ∧
        (∀ k, k ∉ l → jobs w' !! k = jobs w !! k).
Proof.
  intros Hwf Hj Hm.
  destruct (jobList_remove_wf (exec_locked w) l j) as (w1 & Hrm & Hwf1 & Hlu & Hfr);
    [by apply (wf_list_ext w)|done|].
  destruct (list_update_locked _ _ _ Hm Hlu) as [Hm1 Hlu'].
  exists (exec_unlocked w1). split.
  - unfold executor_remove, mbind, M_bind.
    by rewrite executor_lock_eq, Hrm, executor_unlock_eq.
  - split; [by apply (wf_list_ext w1)|]. split; [done|].
    intros k Hk. simpl. by rewrite Hfr.
Qed.


Lemma unlock_start_lock x t :
  j_mutex x = false →
  set_j_mutex false
    (set_j_state JOB_EXECUTING (set_j_thread t (set_j_mutex true x)))
  = set_j_state JOB_EXECUTING (set_j_thread t x).
Proof. destruct x; simpl; by intros ->. Qed.

Lemma unlock_complete_lock x :
  j_mutex x = false →
  set_j_mutex false (set_j_state JOB_COMPLETED (set_j_mutex true x))
  = set_j_state JOB_COMPLETED x.
Proof. destruct x; simpl; by intros ->. Qed.

Section JobRun.
Variable E : Env.

Lemma job_run_begin_start self j x w :
  jobs w !! j = Some x → j_mutex x = false → j_canceled x = false →
  job_run_begin self j w
  = Some (true, add_events [EvJobLock j; EvJobUnlock j]
                  (set_job j (set_j_state JOB_EXECUTING
                                (set_j_thread (Some self) x)) w)).
Proof.
  intros Hj Hm Hc. unfold job_run_begin. mrun.
  rewrite !insert_insert_eq, unlock_start_lock by done.
  world_norm. by rewrite <- app_assoc.
Qed.

Lemma job_run_begin_skip self j x w :
  jobs w !! j = Some x → j_mutex x = false → j_canceled x = true →
  job_run_begin self j w
  = Some (false, add_events [EvJobLock j; EvJobUnlock j] w).
Proof.
  intros Hj Hm Hc. unfold job_run_begin. mrun.
  rewrite !insert_insert_eq, unlock_lock, insert_id by done.
  world_norm. by rewrite <- app_assoc.
Qed.

Lemma job_run_call_eq j x w :
  jobs w !! j = Some x →
  job_run_call E j w
  = Some (run_fn E (j_run x) (j_obj x) w,
          add_events [EvRun (j_run x) (j_obj x)] w).
Proof. intros Hj. unfold job_run_call. mrun. done. Qed.

Lemma job_run_end_eq j x w :
  jobs w !! j = Some x → j_mutex x = false →
  job_run_end j w
  = Some (tt, add_events [EvJobLock j; EvJobUnlock j]
                (set_job j (set_j_state JOB_COMPLETED x) w)).
Proof.
  intros Hj Hm. unfold job_run_end. mrun.
  rewrite !insert_insert_eq, unlock_complete_lock by done.
  world_norm. by rewrite <- app_assoc.
Qed.

Lemma job_run_publish_eq j x f fx status result w :
  jobs w !! j = Some x → j_future x = Some f →
  futures w !! f = Some fx → f_published fx = false →
  job_run_publish j status result w
  = Some (tt, publish f fx status result (j_canceled x) w).
Proof.
  intros Hj Hf Hfx Hp. unfold job_run_publish, future_setResult. mrun. done.
Qed.

Lemma list_update_lookup evs w w' k x :
  list_update evs w w' → jobs w !! k = Some x →
  ∃ x', jobs w' !! k = Some x' ∧ payload x' = payload x.
Proof. intros [_ _ _ Hp]. by apply payload_lookup. Qed.

Lemma payload_fields x y :
  payload x = payload y →
  j_mutex x = j_mutex y ∧ j_thread x = j_thread y ∧ j_obj x = j_obj y ∧
  j_run x = j_run y ∧ j_halt x = j_halt y ∧ j_future x = j_future y ∧
  j_state x = j_state y ∧ j_canceled x = j_canceled y.
Proof.
  destruct x, y; unfold payload; simpl. intros H.
  by injection H as -> -> -> -> -> -> -> ->.
Qed.

Lemma job_run_skip self j x f fx l w :
  wf_list w l → j ∈ l → ex_mutex (exec w) = false →
  jobs w !! j = Some x → j_mutex x = false → j_canceled x = true →
  j_future x = Some f → futures w !! f = Some fx → f_published fx = false →
  ∃ w', job_run E self j w = Some (tt, w') ∧
        new_events w w'
        = [EvJobLock j; EvJobUnlock j; EvExecLock; EvExecUnlock;
           EvSetResult f 0 None true] ∧
        (∀ fn o, EvRun fn o ∉ new_events w w') ∧
        j_state <$> jobs w' !! j = Some (j_state x) ∧
        futures w' !! f = Some (mkFuture (f_job fx) true 0 None true).
Proof.
  intros Hwf Hjl Hem Hj Hm Hc Hf Hfx Hp.
  set (w1 := add_events [EvJobLock j; EvJobUnlock j] w).
  destruct (executor_remove_wf w1 l j) as (w2 & Hrm & Hwf2 & Hlu & _);
    [by apply (wf_list_ext w)|done|done|].
  destruct (list_update_lookup _ _ _ j x Hlu) as (x2 & Hx2 & Hpay); [done|].
  destruct (payload_fields _ _ Hpay) as (_ & _ & _ & _ & _ & Hf2 & Hs2 & Hc2).
  exists (publish f fx 0 None true w2).
  assert (Hrun : job_run E self j w = Some (tt, publish f fx 0 None true w2)).
  { unfold job_run. unfold mbind at 1, M_bind at 1.
    rewrite (job_run_begin_skip self j x) by done. fold w1.
    unfold mbind, M_bind, mret, M_ret. rewrite Hrm.
    rewrite (job_run_publish_eq j x2 f fx); [by rewrite Hc2, Hc|done|congruence| |done].
    by rewrite (lu_futures _ _ _ Hlu). }
  assert (Hev : new_events w (publish f fx 0 None true w2)
                = [EvJobLock j; EvJobUnlock j; EvExecLock; EvExecUnlock;
                   EvSetResult f 0 None true]).
  { apply new_events_app. simpl. rewrite (lu_trace _ _ _ Hlu). simpl.
    by rewrite <- !app_assoc. }
  split; [done|]. split; [done|]. split; [|split].
  - intros fn o. rewrite Hev. intros H.
    repeat (apply elem_of_cons in H as [H|H]; [done|]).
    by apply elem_of_nil in H.
  - simpl. rewrite Hx2. simpl. by rewrite Hs2.
  - simpl. by rewrite lookup_insert_eq.
Qed.

End JobRun.


Lemma list_update_trans e1 e2 w w1 w2 :
  list_update e1 w w1 → list_update e2 w1 w2 → list_update (e1 ++ e2) w w2.
Proof.
  intros [Hf1 Ht1 He1 Hj1] [Hf2 Ht2 He2 Hj2]. constructor.
  - congruence.
  - by rewrite Ht2, Ht1, app_assoc.
  - destruct (exec w) as [m l c a s], (exec w1) as [m1 l1 c1 a1 s1],
      (exec w2) as [m2 l2 c2 a2 s2]; unfold set_ex_jobList in *; simpl in *.
    injection He1 as -> -> -> ->. by injection He2 as -> -> -> ->.
  - congruence.
Qed.

Lemma list_update_mutex evs w w' :
  list_update evs w w' → ex_mutex (exec w') = ex_mutex (exec w).
Proof.
  intros [_ _ He _]. destruct (exec w) as [m l c a s], (exec w') as [m' l' c' a' s'].
  unfold set_ex_jobList in He; simpl in *. by injection He.
Qed.

Lemma list_update_add_events evs w : list_update evs w (add_events evs w).
Proof. constructor; simpl; try done. by destruct (exec w). Qed.

Lemma list_update_wf_exec evs w w' l :
  list_update evs w w' → wf_list w l → wf_list w' l → exec w' = exec w.
Proof.
  intros Hlu Hwf Hwf'. rewrite <- (lu_exec _ _ _ Hlu).
  rewrite <- (wf_list_same_jobList _ _ _ Hwf Hwf'). by destruct (exec w').
Qed.

Lemma unlock_lock_exec e :
  ex_mutex e = false → set_ex_mutex false (set_ex_mutex true e) = e.
Proof. destruct e; simpl; by intros ->. Qed.

Lemma filter_ne_snoc (l : list positive) j :
  j ∉ l → filter (λ k, k ≠ j) (l ++ [j]) = l.
Proof.
  intros H. rewrite filter_app, filter_ne_id by done.
  rewrite filter_cons_False by (intros ?; done). by rewrite app_nil_r.
Qed.

Section SubmitJob.
Variable E : Env.

Lemma executor_submitJob_shutdown j w :
  ex_mutex (exec w) = false → ex_isShutdown (exec w) = true →
  executor_submitJob E j w
  = Some (EPERM, add_events [EvExecLock; EvLogAdd "Executor is shut down";
                             EvExecUnlock] w).
Proof.
  intros Hm Hs. unfold executor_submitJob. mrun.
  f_equal. f_equal. apply world_ext; simpl; try done.
  - by apply unlock_lock_exec.
  - by rewrite <- !app_assoc.
Qed.

(** The job is added and the thread is asked for; [w1] is the world in which
    [pthread_create] is called. *)
Lemma executor_submitJob_added j x l w :
  wf_list w l → ex_mutex (exec w) = false → ex_isShutdown (exec w) = false →
  jobs w !! j = Some x → j ∉ l → valid_addr j → j_next x = None →
  ∃ w1, (executor_lock;; jobList_add j) w = Some (tt, w1) ∧
        wf_list w1 (l ++ [j]) ∧ list_update [] (exec_locked w) w1 ∧
        (∀ k, k ≠ j → k ∉ l → jobs w1 !! k = jobs w !! k) ∧
        executor_submitJob E j w
        = (let status := pthread_create E j w1 in
           emit (EvThreadCreate j status);;
           (if decide (status ≠ 0) then
              emit (EvLogAddErrno status "Couldn't create job's thread");;
              jobList_remove j
            else mret tt);;
           executor_unlock;;
           mret status) w1.
Proof.
  intros Hwf Hm Hs Hj Hnl Hv Hnx.
  destruct (jobList_add_wf (exec_locked w) l j x) as (w1 & Hadd & Hwf1 & Hlu & Hfr);
    [by apply (wf_list_ext w)|done..|].
  exists w1. split.
  { unfold mbind, M_bind. by rewrite executor_lock_eq, Hadd. }
  split; [done|]. split; [done|]. split; [done|].
  unfold executor_submitJob. unfold mbind at 1, M_bind at 1.
  rewrite executor_lock_eq by done.
  unfold get_exec, mbind at 1, M_bind at 1.
  simpl. rewrite Hs.
  unfold mbind, M_bind. rewrite Hadd. simpl.
  unfold emit, modify. simpl.
  destruct (decide (pthread_create E j w1 ≠ 0)); simpl.
  - destruct (jobList_remove j _) as [[[] w2]|]; [|done]. simpl.
    by destruct (executor_unlock w2) as [[[] w3]|].
  - unfold mret, M_ret. by destruct (executor_unlock _) as [[[] w3]|].
Qed.

Lemma thread_create_status_eq j w w1 :
  (executor_lock;; jobList_add j) w = Some (tt, w1) →
  thread_create_status E j w = Some (pthread_create E j w1).
Proof. intros H. unfold thread_create_status. by rewrite H. Qed.

Lemma executor_submitJob_created j x l w :
  wf_list w l → ex_mutex (exec w) = false → ex_isShutdown (exec w) = false →
  jobs w !! j = Some x → j ∉ l → valid_addr j → j_next x = None →
  thread_create_status E j w = Some 0 →
  ∃ w', executor_submitJob E j w = Some (0, w') ∧
        wf_list w' (l ++ [j]) ∧
        list_update [EvExecLock; EvThreadCreate j 0; EvExecUnlock] w w'.
Proof.
  intros Hwf Hm Hs Hj Hnl Hv Hnx Hst.
  destruct (executor_submitJob_added j x l w) as (w1 & Hpre & Hwf1 & Hlu & Hfr & ->);
    [done..|].
  rewrite (thread_create_status_eq _ _ _ Hpre) in Hst. injection Hst as Hst.
  simpl. rewrite Hst. simpl.
  assert (Hlu2 : list_update [EvThreadCreate j 0] (exec_locked w)
                   (add_events [EvThreadCreate j 0] w1)).
  { apply (list_update_trans [] _ _ w1); [done|apply list_update_add_events]. }
  destruct (list_update_locked _ _ _ Hm Hlu2) as [Hm2 Hlu3].
  eexists. split.
  { unfold mbind, M_bind, emit, modify, mret, M_ret. simpl.
    change (set_trace _ w1) with (add_events [EvThreadCreate j 0] w1).
    rewrite executor_unlock_eq by done. done. }
  split; [by apply (wf_list_ext w1)|done].
Qed.

Lemma executor_submitJob_failed j x l w status :
  wf_list w l → ex_mutex (exec w) = false → ex_isShutdown (exec w) = false →
  jobs w !! j = Some x → j ∉ l → valid_addr j → j_next x = None →
  thread_create_status E j w = Some status → status ≠ 0 →
  ∃ w', executor_submitJob E j w = Some (status, w') ∧
        wf_list w' l ∧
        exec w' = exec w ∧ futures w' = futures w ∧
        trace w' = trace w ++ [EvExecLock; EvThreadCreate j status;
                     EvLogAddErrno status "Couldn't create job's thread";
                     EvExecUnlock] ∧
        (∀ k, k ≠ j → jobs w' !! k = jobs w !! k) ∧
        (∃ x', jobs w' !! j = Some x' ∧ payload x' = payload x).
Proof.
  intros Hwf Hm Hs Hj Hnl Hv Hnx Hst Hne.
  destruct (executor_submitJob_added j x l w) as (w1 & Hpre & Hwf1 & Hlu & Hfr & ->);
    [done..|].
  rewrite (thread_create_status_eq _ _ _ Hpre) in Hst. injection Hst as Hst.
  simpl. rewrite Hst. rewrite decide_True by done.
  set (evs := [EvThreadCreate j status;
               EvLogAddErrno status "Couldn't create job's thread"]).
  set (w2 := add_events evs w1).
  assert (Hj2 : j ∈ l ++ [j]) by (apply elem_of_app; right; left).
  destruct (jobList_remove_wf w2 (l ++ [j]) j) as (w3 & Hrm & Hwf3 & Hlu3 & Hfr3);
    [by apply (wf_list_ext w1)|done|].
  rewrite filter_ne_snoc in Hwf3 by done.
  assert (Hlu13 : list_update evs (exec_locked w) w3).
  { apply (list_update_trans [] evs _ w1); [done|].
    replace evs with (evs ++ []) by apply app_nil_r.
    apply (list_update_trans evs [] _ w2); [apply list_update_add_events|done]. }
  destruct (list_update_locked _ _ _ Hm Hlu13) as [Hm3 Hlu4].
  assert (Hwf4 : wf_list (exec_unlocked w3) l) by (by apply (wf_list_ext w3)).
  exists (exec_unlocked w3). split.
  { unfold mbind, M_bind, emit, modify, mret, M_ret. simpl.
    replace (set_trace _ (set_trace _ w1)) with w2.
    2:{ unfold w2, add_events, set_trace. simpl. by rewrite <- app_assoc. }
    rewrite Hrm. rewrite executor_unlock_eq by done. done. }
  split; [done|]. split; [by eapply list_update_wf_exec|].
  split; [by rewrite (lu_futures _ _ _ Hlu4)|].
  split; [by rewrite (lu_trace _ _ _ Hlu4)|]. split.
  - intros k Hk. destruct (decide (k ∈ l)) as [Hkl|Hkl].
    + apply (wf_list_same_nodes _ _ l); [done..|apply Hlu4|done].
    + simpl. rewrite Hfr3.
      * simpl. by apply Hfr.
      * intros [?| ->%list_elem_of_singleton]%elem_of_app; done.
  - by apply (list_update_lookup _ _ _ _ _ Hlu4).
Qed.
End SubmitJob.


Lemma wf_list_insert_fresh w w' l j y :
  wf_list w l → j ∉ l → jobs w' = <[j := y]> (jobs w) →
  ex_jobList (exec w') = ex_jobList (exec w) → wf_list w' l.
Proof.
  intros [Hnd Hv Hn Hh Ht Hs] Hj Hjobs He.
  constructor; rewrite ?He; try done.
  intros i k Hik. rewrite Hjobs, lookup_insert_ne; [by apply Hn|].
  intros ->. apply Hj. by eapply list_elem_of_lookup_2.
Qed.

Section SubmitFunction.
Variable E : Env.
Variables (obj : option positive) (run : positive) (halt : option positive).

Lemma free_job_future j f x fx w :
  jobs w !! j = Some x → j_state x ≠ JOB_EXECUTING →
  futures w !! f = Some fx →
  (job_free j;; future_free (Some f);; mret (@None positive)) w
  = Some (None, set_futures (delete f (futures w))
                  (set_jobs (delete j (jobs w)) w)).
Proof.
  intros Hj Hs Hf. unfold job_free, future_free. mrun.
  rewrite bool_decide_true by done. simpl. by rewrite Hf.
Qed.

Lemma executor_submit_no_future w :
  future_alloc E w = None →
  executor_submit E obj run halt w
  = Some (None, add_events [EvLogAdd "Couldn't create new future"] w).
Proof. intros H. unfold executor_submit, future_new. mrun. by rewrite H. Qed.

(** [job_new] fails: nothing stays allocated but the future. *)
Lemma job_new_failure f w :
  futures w !! f = Some (mkFuture None false 0 None false) →
  (∀ j, log_malloc E w = Some j → jobs w !! j = None) →
  (∀ j, log_malloc E w = Some j →
        mutex_init E (set_futures
                        (<[f := mkFuture (Some j) false 0 None false]> (futures w))
                        (set_jobs (<[j := new_job (Some f) obj run halt]> (jobs w)) w)) = 0 →
        pthread_cond_init E (set_futures
                        (<[f := mkFuture (Some j) false 0 None false]> (futures w))
                        (set_jobs (<[j := new_job (Some f) obj run halt]> (jobs w)) w)) = 0 →
        False) →
  ∃ evs fx, job_new E (Some f) obj run halt w
            = Some (None, add_events evs
                            (set_futures (<[f := fx]> (futures w)) w)) ∧
            Forall is_log evs.
Proof.
  intros Hf Hfresh Hfail. unfold job_new, future_setJob.
  unfold mbind at 1, M_bind at 1.
  destruct (log_malloc E w) as [j|] eqn:Hj.
  2:{ exists [], (mkFuture None false 0 None false). simpl.
      rewrite insert_id by done. rewrite add_events_nil.
      unfold mret, M_ret. split; [|done]. f_equal. f_equal. by destruct w. }
  specialize (Hfresh j eq_refl). specialize (Hfail j eq_refl).
  fold (new_job (Some f) obj run halt).
  mrun.
  set (w2 := set_futures _ _) in *.
  destruct (decide (mutex_init E w2 ≠ 0)) as [Hm|Hm]; simpl.
  - rewrite decide_True by done. simpl.
    exists [EvLogAdd "Couldn't initialize job's mutex"],
           (mkFuture (Some j) false 0 None false).
    split; [|by repeat constructor].
    f_equal. f_equal. apply world_ext; simpl; try done.
    by rewrite delete_insert_id.
  - destruct (decide (pthread_cond_init E w2 ≠ 0)) as [Hc|Hc]; simpl.
    + rewrite decide_True by done. simpl.
      exists [EvLogAddErrno (pthread_cond_init E w2)
                "Couldn't initialize job's condition-variable"],
             (mkFuture (Some j) false 0 None false).
      split; [|by repeat constructor].
      f_equal. f_equal. apply world_ext; simpl; try done.
      by rewrite delete_insert_id.
    + exfalso. apply Hfail.
      * by destruct (decide (mutex_init E w2 = 0)).
      * by destruct (decide (pthread_cond_init E w2 = 0)).
Qed.

Lemma executor_submit_no_job f w :
  future_alloc E w = Some f → futures w !! f = None →
  (∀ j, log_malloc E (future_world f w) = Some j → jobs w !! j = None) →
  (∀ j, ¬ construction_ok E obj run halt w f j) →
  ∃ evs, executor_submit E obj run halt w = Some (None, add_events evs w) ∧
         Forall is_log evs.
Proof.
  intros Hf Hfr Hjf Hnc.
  destruct (job_new_failure f (future_world f w)) as (evs & fx & Hjn & Hlog).
  { simpl. by rewrite lookup_insert_eq. }
  { done. }
  { intros j Hj Hm Hc. apply (Hnc j). repeat split; try done.
    - unfold job_world. simpl in *. by rewrite insert_insert_eq in Hm.
    - unfold job_world. simpl in *. by rewrite insert_insert_eq in Hc. }
  exists (evs ++ [EvLogAdd "Couldn't create new job"]).
  split; [|apply Forall_app; split; [done|by repeat constructor]].
  unfold executor_submit. unfold mbind at 1, M_bind at 1.
  rewrite (future_new_ok E w f) by done.
  unfold mbind at 1, M_bind at 1. rewrite Hjn.
  unfold future_free. mrun.
  f_equal. f_equal. apply world_ext; simpl; try done.
  - by rewrite insert_insert_eq, delete_insert_id.
  - by rewrite <- app_assoc.
Qed.

Lemma executor_submit_built f j w :
  construction_ok E obj run halt w f j → futures w !! f = None →
  executor_submit E obj run halt w
  = match executor_submitJob E j (job_world f j obj run halt w) with
    | Some (status, w') =>
        if decide (status ≠ 0) then
          (job_free j;; future_free (Some f);; mret None) w'
        else Some (Some f, w')
    | None => None
    end.
Proof.
  intros (Hf & Hj & Hm & Hc) Hfr.
  unfold executor_submit. unfold mbind at 1, M_bind at 1.
  rewrite (future_new_ok E w f) by done.
  unfold mbind at 1, M_bind at 1.
  rewrite (job_new_ok E f j obj run halt (future_world f w)
             (mkFuture None false 0 None false)); simpl.
  2:{ by rewrite lookup_insert_eq. }
  2:{ done. }
  2,3: unfold job_world in *; simpl in *; by rewrite insert_insert_eq.
  rewrite insert_insert_eq.
  change (set_futures _ (set_jobs _ (future_world f w)))
    with (job_world f j obj run halt w).
  unfold mbind, M_bind.
  destruct (executor_submitJob E j _) as [[status w']|]; [|done].
  destruct (decide (status ≠ 0)) as [Hs|Hs]; simpl.
  - destruct (job_free j w') as [[[] w3]|]; [|done]. simpl.
    by rewrite decide_True by done.
  - unfold mret, M_ret. by rewrite decide_False by done.
Qed.

Lemma construction_ok_dec w f :
  (∃ j, construction_ok E obj run halt w f j) ∨
  (future_alloc E w = Some f → ∀ j, ¬ construction_ok E obj run halt w f j).
Proof.
  destruct (log_malloc E (future_world f w)) as [j|] eqn:Hj.
  2:{ right. intros _ j (_ & Hj' & _). congruence. }
  destruct (decide (future_alloc E w = Some f)) as [Hf|Hf].
  2:{ right. done. }
  destruct (decide (mutex_init E (job_world f j obj run halt w) = 0)) as [Hm|Hm].
  2:{ right. intros _ j' (_ & Hj' & Hm' & _). congruence. }
  destruct (decide (pthread_cond_init E (job_world f j obj run halt w) = 0)) as [Hc|Hc].
  2:{ right. intros _ j' (_ & Hj' & _ & Hc'). congruence. }
  left. by exists j.
Qed.

Lemma construction_ok_inj w f j f' j' :
  construction_ok E obj run halt w f j →
  construction_ok E obj run halt w f' j' → f' = f ∧ j' = j.
Proof.
  intros (Hf & Hj & _) (Hf' & Hj' & _).
  assert (f' = f) as -> by congruence. split; [done|congruence].
Qed.

Lemma job_world_restored f j w evs w' :
  futures w !! f = None → jobs w !! j = None →
  exec w' = exec w → futures w' = futures (job_world f j obj run halt w) →
  trace w' = trace w ++ evs →
  (∀ k, k ≠ j → jobs w' !! k = jobs (job_world f j obj run halt w) !! k) →
  set_futures (delete f (futures w')) (set_jobs (delete j (jobs w')) w')
  = add_events evs w.
Proof.
  intros Hf Hj He Hfu Ht Hk. apply world_ext; simpl; try done.
  - apply map_eq. intros k. destruct (decide (k = j)) as [->|Hkj].
    + by rewrite lookup_delete_eq.
    + rewrite lookup_delete_ne by done. rewrite Hk by done. simpl.
      by rewrite lookup_insert_ne.
  - rewrite Hfu. simpl. by rewrite delete_insert_id.
Qed.

(** Submission to an executor that is shut down. *)
Lemma executor_submit_shutdown w :
  env_alloc_fresh E →
  ex_isShutdown (exec w) = true → ex_mutex (exec w) = false →
  ∃ evs,
    executor_submit E obj run halt w = Some (None, add_events evs w) ∧
    (∀ j s, EvThreadCreate j s ∉ evs) ∧
    (∀ f j, construction_ok E obj run halt w f j →
       executor_submitJob E j (job_world f j obj run halt w)
       = Some (EPERM,
               add_events [EvExecLock; EvLogAdd "Executor is shut down";
                           EvExecUnlock] (job_world f j obj run halt w)) ∧
       evs = [EvExecLock; EvLogAdd "Executor is shut down"; EvExecUnlock]).
Proof.
  intros [Hjfresh Hffresh] Hs Hm.
  assert (Hlogs : ∀ evs, Forall is_log evs → ∀ j s, EvThreadCreate j s ∉ evs).
  { intros evs Hl j s Hin. rewrite Forall_forall in Hl. by apply Hl in Hin. }
  destruct (future_alloc E w) as [f|] eqn:Hf.
  2:{ eexists. split; [by apply executor_submit_no_future|]. split.
      - apply Hlogs. by repeat constructor.
      - intros f j (Hf' & _). congruence. }
  pose proof (Hffresh _ _ Hf) as Hfr.
  destruct (construction_ok_dec w f) as [[j Hok]|Hno].
  - pose proof Hok as (_ & Hj & _).
    destruct (Hjfresh _ _ Hj) as [Hjn Hjv]. simpl in Hjn.
    exists [EvExecLock; EvLogAdd "Executor is shut down"; EvExecUnlock].
    assert (Hsub : executor_submitJob E j (job_world f j obj run halt w)
       = Some (EPERM,
               add_events [EvExecLock; EvLogAdd "Executor is shut down";
                           EvExecUnlock] (job_world f j obj run halt w)))
      by (by apply executor_submitJob_shutdown).
    split; [|split].
    + rewrite (executor_submit_built f j) by done. rewrite Hsub.
      rewrite decide_True by done.
      rewrite (free_job_future j f (new_job (Some f) obj run halt)
                 (mkFuture (Some j) false 0 None false)); simpl;
        [|by rewrite lookup_insert_eq|done|by rewrite lookup_insert_eq].
      f_equal. f_equal. apply world_ext; simpl; try done.
      * by rewrite delete_insert_id.
      * by rewrite delete_insert_id.
    + intros j' s Hin.
      repeat (apply elem_of_cons in Hin as [Hin|Hin]; [done|]).
      by apply elem_of_nil in Hin.
    + intros f' j' Hok'.
      destruct (construction_ok_inj _ _ _ _ _ Hok Hok') as [-> ->]. done.
  - destruct (executor_submit_no_job f w) as (evs & Hsub & Hlog); [done..| |auto|].
    { intros j Hj. by destruct (Hjfresh _ _ Hj). }
    exists evs. split; [done|]. split; [by apply Hlogs|].
    intros f' j' Hok'. pose proof Hok' as (Hf' & _).
    assert (f' = f) as -> by congruence. by destruct (Hno Hf j').
Qed.

Lemma job_world_wf f j w l :
  wf_list w l → jobs w !! j = None →
  wf_list (job_world f j obj run halt w) l ∧ j ∉ l.
Proof.
  intros Hwf Hj.
  assert (Hjl : j ∉ l).
  { intros Hin. destruct (wf_elem _ _ _ Hwf Hin) as [x Hx]. congruence. }
  split; [|done]. by eapply wf_list_insert_fresh.
Qed.

Lemma thread_create_status_defined f j w l :
  wf_list w l → ex_mutex (exec w) = false → jobs w !! j = None →
  valid_addr j →
  is_Some (thread_create_status E j (job_world f j obj run halt w)).
Proof.
  intros Hwf Hm Hj Hv. destruct (job_world_wf f j w l) as [Hwf' Hjl]; [done..|].
  destruct (jobList_add_wf (exec_locked (job_world f j obj run halt w)) l j
              (new_job (Some f) obj run halt)) as (w1 & Hadd & _);
    [by apply (wf_list_ext (job_world f j obj run halt w))
    |simpl; by rewrite lookup_insert_eq|done..|].
  unfold thread_create_status, mbind, M_bind.
  rewrite executor_lock_eq by done. rewrite Hadd. eauto.
Qed.

Lemma executor_submit_success l w f j :
  env_alloc_fresh E → wf_list w l →
  ex_mutex (exec w) = false → ex_isShutdown (exec w) = false →
  construction_ok E obj run halt w f j →
  thread_create_status E j (job_world f j obj run halt w) = Some 0 →
  ∃ w', executor_submit E obj run halt w = Some (Some f, w') ∧
        wf_list w' (l ++ [j]) ∧
        list_update [EvExecLock; EvThreadCreate j 0; EvExecUnlock]
          (job_world f j obj run halt w) w'.
Proof.
  intros [Hjfresh Hffresh] Hwf Hm Hs Hok Hst.
  pose proof Hok as (Hf & Hj & _).
  pose proof (Hffresh _ _ Hf) as Hfr.
  destruct (Hjfresh _ _ Hj) as [Hjn Hjv]. simpl in Hjn.
  destruct (job_world_wf f j w l) as [Hwf' Hjl]; [done..|].
  destruct (executor_submitJob_created E j (new_job (Some f) obj run halt) l
              (job_world f j obj run halt w)) as (w' & Hsub & Hwf2 & Hlu);
    [done|done|done|simpl; by rewrite lookup_insert_eq|done|done|done|done|].
  exists w'. split; [|done].
  rewrite (executor_submit_built f j) by done. by rewrite Hsub.
Qed.

(** Thread creation fails: the world is as it was, but for the trace. *)
Lemma executor_submit_create_failed l w f j status :
  env_alloc_fresh E → wf_list w l →
  ex_mutex (exec w) = false → ex_isShutdown (exec w) = false →
  construction_ok E obj run halt w f j →
  thread_create_status E j (job_world f j obj run halt w) = Some status →
  status ≠ 0 →
  let w' := add_events
              [EvExecLock; EvThreadCreate j status;
               EvLogAddErrno status "Couldn't create job's thread";
               EvExecUnlock] w in
  (∃ w1, executor_submitJob E j (job_world f j obj run halt w)
         = Some (status, w1) ∧
         ex_jobList (exec w1) = ex_jobList (exec w) ∧
         reachable_nodes w1 = Some l) ∧
  executor_submit E obj run halt w = Some (None, w') ∧
  reachable_nodes w' = Some l ∧
  executor_size w' = Some (N.of_nat (length l),
                           add_events [EvExecLock; EvExecUnlock] w') ∧
  ∀ f2 j2,
    construction_ok E obj run halt w' f2 j2 →
    thread_create_status E j2 (job_world f2 j2 obj run halt w') = Some 0 →
    ∃ w2, executor_submit E obj run halt w' = Some (Some f2, w2) ∧
          reachable_nodes w2 = Some (l ++ [j2]).
Proof.
  intros Hfresh Hwf Hm Hs Hok Hst Hne w'.
  pose proof Hfresh as [Hjfresh Hffresh].
  pose proof Hok as (Hf & Hj & _).
  pose proof (Hffresh _ _ Hf) as Hfr.
  destruct (Hjfresh _ _ Hj) as [Hjn Hjv]. simpl in Hjn.
  destruct (job_world_wf f j w l) as [Hwf0 Hjl]; [done..|].
  destruct (executor_submitJob_failed E j (new_job (Some f) obj run halt) l
              (job_world f j obj run halt w) status)
    as (w1 & Hsub & Hwf1 & He1 & Hf1 & Ht1 & Hk1 & x1 & Hx1 & Hp1);
    [done|done|done|simpl; by rewrite lookup_insert_eq|done|done|done|done|done|].
  assert (Hwf' : wf_list w' l) by (by apply (wf_list_ext w)).
  split; [|split; [|split; [|split]]].
  - exists w1. split; [done|]. split; [by rewrite He1|].
    by apply reachable_nodes_wf.
  - rewrite (executor_submit_built f j) by done. rewrite Hsub.
    rewrite decide_True by done.
    rewrite (free_job_future j f x1 (mkFuture (Some j) false 0 None false));
      [|done| |rewrite Hf1; simpl; by rewrite lookup_insert_eq].
    2:{ destruct (payload_fields _ _ Hp1) as (_&_&_&_&_&_&->&_). done. }
    f_equal. f_equal. by apply job_world_restored.
  - by apply reachable_nodes_wf.
  - unfold executor_size, mbind, M_bind.
    rewrite executor_lock_eq by done.
    rewrite (jobList_size_wf _ l) by (by apply (wf_list_ext w')).
    rewrite executor_unlock_eq by done. unfold mret, M_ret.
    f_equal. f_equal. apply world_ext; simpl; try done.
    + by rewrite unlock_lock_exec.
    + by rewrite <- !app_assoc.
  - intros f2 j2 Hok2 Hst2.
    destruct (executor_submit_success l w' f2 j2) as (w2 & Hsub2 & Hwf2 & _);
      [done..|].
    exists w2. split; [done|]. by apply reachable_nodes_wf.
Qed.

End SubmitFunction.

Section SubmitCases.
Variable E : Env.
Variables (obj : option positive) (run : positive) (halt : option positive).

(** Every submission returns: rejected with the world as it was, or accepted
    with the job at the end of the list. *)
Lemma executor_submit_cases l w :
  env_alloc_fresh E → wf_list w l → ex_mutex (exec w) = false →
  (∃ evs, executor_submit E obj run halt w = Some (None, add_events evs w)) ∨
  (∃ f j w',
     executor_submit E obj run halt w = Some (Some f, w') ∧
     futures w !! f = None ∧ jobs w !! j = None ∧
     wf_list w' (l ++ [j]) ∧
     list_update [EvExecLock; EvThreadCreate j 0; EvExecUnlock]
       (job_world f j obj run halt w) w').
Proof.
  intros Hfresh Hwf Hm. pose proof Hfresh as [Hjfresh Hffresh].
  destruct (future_alloc E w) as [f|] eqn:Hf.
  2:{ left. eexists. by apply executor_submit_no_future. }
  pose proof (Hffresh _ _ Hf) as Hfr.
  destruct (construction_ok_dec E obj run halt w f) as [[j Hok]|Hno].
  2:{ left. destruct (executor_submit_no_job E obj run halt f w) as (evs & Hsub & _);
        [done..| |auto|eauto].
      intros j Hj. by destruct (Hjfresh _ _ Hj). }
  pose proof Hok as (_ & Hj & _).
  destruct (Hjfresh _ _ Hj) as [Hjn Hjv]. simpl in Hjn.
  destruct (ex_isShutdown (exec w)) eqn:Hs.
  { left. destruct (executor_submit_shutdown E obj run halt w) as (evs & Hsub & _);
      eauto. }
  destruct (thread_create_status_defined E obj run halt f j w l) as [status Hst];
    [done..|].
  destruct (decide (status = 0)) as [->|Hne].
  - right. destruct (executor_submit_success E obj run halt l w f j)
      as (w' & Hsub & Hwf' & Hlu); [done..|].
    exists f, j, w'. done.
  - left. destruct (executor_submit_create_failed E obj run halt l w f j status)
      as (_ & Hsub & _); [done..|]. eauto.
Qed.
End SubmitCases.


Section Shutdown.
Variable E : Env.

Lemma jobList_cancelAll_loop_canceled_only fuel : ∀ p status w s w',
  jobList_cancelAll_loop E fuel p status w = Some (s, w') →
  canceled_only w w'.
Proof.
  induction fuel as [|fuel IH]; intros [j|] status w s w' H; simpl in H;
    try done; try (injection H as <- <-; apply canceled_only_refl).
  unfold mbind, M_bind, get_job in H.
  destruct (jobs w !! j) as [x|]; [|done].
  destruct (future_cancel E (j_future x) w) as [[stat w1]|] eqn:Hfc; [|done].
  pose proof (future_cancel_canceled_only _ _ _ _ _ Hfc) as Hco.
  destruct (decide (stat ≠ 0)); simpl in H.
  - apply IH in H. eapply canceled_only_trans; [exact Hco|].
    eapply canceled_only_trans; [|exact H].
    apply (canceled_only_add_events [EvLogAdd "Couldn't cancel job"]).
  - apply IH in H. by eapply canceled_only_trans.
Qed.

Lemma jobList_cancelAll_canceled_only w s w' :
  jobList_cancelAll E w = Some (s, w') → canceled_only w w'.
Proof.
  unfold jobList_cancelAll. munfold. simpl.
  apply jobList_cancelAll_loop_canceled_only.
Qed.

Lemma executor_shutdown_again now w :
  ex_mutex (exec w) = false → ex_isShutdown (exec w) = true →
  executor_shutdown E now w
  = Some (0, add_events [EvExecLock; EvExecUnlock] w).
Proof.
  intros Hm Hs. unfold executor_shutdown. mrun.
  f_equal. f_equal. apply world_ext; simpl; try done.
  - by apply unlock_lock_exec.
  - by rewrite <- !app_assoc.
Qed.

Lemma executor_shutdown_first now w :
  ex_mutex (exec w) = false → ex_isShutdown (exec w) = false →
  executor_shutdown E now w
  = (status ← (if now then jobList_cancelAll E else mret 0);
     executor_unlock;; mret status) (shutdown_world w).
Proof.
  intros Hm Hs. unfold executor_shutdown.
  unfold mbind at 1, M_bind at 1. rewrite executor_lock_eq by done.
  unfold get_exec, update_exec, modify, mbind, M_bind. simpl. rewrite Hs.
  fold (shutdown_world w).
  destruct now; simpl.
  - done.
  - done.
Qed.

(** A call that returns leaves the executor shut down and unlocked. *)
Lemma executor_shutdown_inv now w s w' :
  executor_shutdown E now w = Some (s, w') →
  ex_mutex (exec w) = false ∧
  ex_mutex (exec w') = false ∧ ex_isShutdown (exec w') = true ∧
  exec w' = set_ex_isShutdown true (exec w) ∧
  canceled_only w (set_exec (exec w) w').
Proof.
  intros H.
  destruct (ex_mutex (exec w)) eqn:Hm.
  { revert H. unfold executor_shutdown. mrun. done. }
  split; [done|].
  destruct (ex_isShutdown (exec w)) eqn:Hs.
  - rewrite executor_shutdown_again in H by done. injection H as <- <-.
    simpl. split; [done|]. split; [done|]. split.
    + destruct (exec w); simpl in *. by subst.
    + replace (set_exec _ _) with (add_events [EvExecLock; EvExecUnlock] w)
        by (by destruct w).
      apply canceled_only_add_events.
  - rewrite executor_shutdown_first in H by done.
    unfold mbind, M_bind in H.
    assert (∃ s1 w1, canceled_only (shutdown_world w) w1 ∧
                     executor_unlock w1 = Some (tt, w') ∧ s = s1)
      as (s1 & w1 & Hco & Hun & ->).
    { destruct now.
      - destruct (jobList_cancelAll E _) as [[s1 w1]|] eqn:Hc; [|done].
        apply jobList_cancelAll_canceled_only in Hc.
        destruct (executor_unlock w1) as [[[] w2]|] eqn:Hu; [|done].
        injection H as <- <-. eauto.
      - unfold mret at 1, M_ret at 1 in H. cbv beta iota in H.
        destruct (executor_unlock _) as [[[] w2]|] eqn:Hu; [|done].
        injection H as <- <-. exists 0, (shutdown_world w).
        split; [apply canceled_only_refl|done]. }
    assert (He1 : exec w1 = set_ex_isShutdown true (set_ex_mutex true (exec w)))
      by (by rewrite (co_exec _ _ Hco)).
    rewrite executor_unlock_eq in Hun by (by rewrite He1).
    injection Hun as <-. simpl. rewrite He1. simpl.
    split; [done|]. split; [done|]. split.
    + destruct (exec w); simpl in *. by subst.
    + destruct Hco as [Hf He Hj [evs Ht]]. constructor; simpl; try done.
      exists ([EvExecLock] ++ evs ++ [EvExecUnlock]).
      rewrite Ht. simpl. by rewrite <- !app_assoc.
Qed.

(** The first call returns whenever the futures of the listed jobs can be
    cancelled. *)
Lemma executor_shutdown_total now w l :
  wf_list w l → ex_mutex (exec w) = false →
  (∀ j, j ∈ l → cancellable w j) →
  ∃ s w', executor_shutdown E now w = Some (s, w').
Proof.
  intros Hwf Hm Hc.
  destruct (ex_isShutdown (exec w)) eqn:Hs.
  { rewrite executor_shutdown_again by done. eauto. }
 rewrite executor_shutdown_first by done.
  destruct now.
  - assert (Hwf' : wf_list (shutdown_world w) l) by (by apply (wf_list_ext w)).
    unfold mbind at 1, M_bind at 1.
    rewrite (jobList_cancelAll_eq E _ l Hwf').
    destruct (cancel_each_total E l (shutdown_world w)) as (stats & w1 & Hce).
    { intros j Hj. destruct (Hc j Hj) as (x & f & fx & k & y & H).
      by exists x, f, fx, k, y. }
    unfold mbind at 1, M_bind at 1. rewrite Hce.
    destruct (cancel_each_visits E _ _ _ _ Hce) as (_ & _ & Hco).
    unfold mret at 1, M_ret at 1. cbv beta iota.
    eexists _, _. unfold mbind, M_bind.
    rewrite (executor_unlock_eq w1); [done|].
    by rewrite (co_exec _ _ Hco).
  - unfold mbind at 1, M_bind at 1. unfold mret at 1, M_ret at 1.
    cbv beta iota. eexists _, _. unfold mbind, M_bind.
    by rewrite (executor_unlock_eq (shutdown_world w)).
Qed.
End Shutdown.


Lemma pc_ok_transfer w w' l l' j x x' tid pc :
  pc_ok w l j x tid pc →
  (j ∈ l ↔ j ∈ l') →
  j_state x' = j_state x → j_thread x' = j_thread x →
  (fut_pending w j x → fut_pending w' j x') →
  pc_ok w' l' j x' tid pc.
Proof.
  intros Hpc Hl Hs Ht Hf. destruct pc; simpl in *; rewrite ?Hs, ?Ht, <- ?Hl;
    intuition.
Qed.

Lemma fut_pending_ext w w' j x x' :
  futures w' = futures w → j_future x' = j_future x →
  fut_pending w j x → fut_pending w' j x'.
Proof. intros Hf Hj (f & fx & ? & ? & ? & ?). exists f, fx. rewrite Hf, Hj. done. Qed.

Lemma pc_ok_pending w l j x tid pc :
  pc_ok w l j x tid pc → pc ≠ PcPublished → fut_pending w j x.
Proof. destruct pc; simpl; intuition. Qed.

Lemma pc_ok_member w l j x tid pc :
  pc_ok w l j x tid pc → j ∈ l →
  pc ≠ PcPublished ∧ (∀ s r, pc ≠ PcRemoved s r).
Proof. destruct pc; simpl; intuition; discriminate. Qed.

(** The invariant does not depend on the trace nor on the fields of the
    executor other than its list and its mutex. *)
Lemma inv_ext s w' l :
  inv s l →
  jobs w' = jobs (world s) → futures w' = futures (world s) →
  ex_jobList (exec w') = ex_jobList (exec (world s)) →
  ex_mutex (exec w') = ex_mutex (exec (world s)) →
  inv (mkSys w' (workers s)) l.
Proof.
  intros [Hwf Hm Hj Hw] Hjobs Hfut Hjl Hmx. constructor; simpl.
  - by apply (wf_list_ext (world s)).
  - by rewrite Hmx.
  - intros j x Hx. rewrite Hjobs in Hx. destruct (Hj j x Hx) as (Hmj & tid & pc & Hwk & Hpc).
    split; [done|]. exists tid, pc. split; [done|].
    eapply pc_ok_transfer; eauto; try (by apply fut_pending_ext).
  - intros j Hj'. rewrite Hjobs. auto.
Qed.

Lemma inv_add_events s evs l :
  inv s l → inv (mkSys (add_events evs (world s)) (workers s)) l.
Proof. intros H. by apply inv_ext. Qed.

Lemma inv_canceled_only s w' l :
  inv s l → canceled_only (world s) w' → inv (mkSys w' (workers s)) l.
Proof.
  intros [Hwf Hm Hj Hw] Hco. constructor; simpl.
  - by eapply canceled_only_wf.
  - by rewrite (co_exec _ _ Hco).
  - intros j x' Hx'.
    destruct (canceled_only_lookup _ _ _ _ Hco Hx') as (x & Hx & Hxx).
    destruct (Hj j x Hx) as (Hmj & tid & pc & Hwk & Hpc).
    split; [by destruct Hxx as [->| ->]|].
    exists tid, pc. split; [done|].
    eapply pc_ok_transfer; eauto; try (by destruct Hxx as [->| ->]).
    apply fut_pending_ext; [apply Hco|by destruct Hxx as [->| ->]].
  - intros j Hj'. destruct (Hw j Hj') as [x Hx].
    destruct (canceled_only_lookup_fwd _ _ _ _ Hco Hx) as (y & Hy & _). eauto.
Qed.

Lemma inv_worker s l j tid pc :
  inv s l → workers s !! j = Some (tid, pc) →
  ∃ x, jobs (world s) !! j = Some x ∧ j_mutex x = false ∧
       pc_ok (world s) l j x tid pc.
Proof.
  intros Hinv Hw. destruct (inv_workers _ _ Hinv j) as [x Hx]; [eauto|].
  destruct (inv_jobs _ _ Hinv j x Hx) as (Hm & tid' & pc' & Hw' & Hpc).
  rewrite Hw in Hw'. injection Hw' as <- <-. eauto.
Qed.

Lemma wf_list_set_job w l j x y evs :
  wf_list w l → jobs w !! j = Some x →
  j_prev y = j_prev x → j_next y = j_next x →
  wf_list (add_events evs (set_job j y w)) l.
Proof.
  intros [Hnd Hv Hn Hh Ht Hs] Hx Hp Hnx. constructor; simpl; try done.
  intros i k Hik. destruct (Hn i k Hik) as (xk & Hxk & Hpk & Hnk).
  destruct (decide (k = j)) as [->|Hkj].
  - rewrite lookup_insert_eq. exists y. rewrite Hx in Hxk. injection Hxk as <-.
    by rewrite Hp, Hnx.
  - rewrite lookup_insert_ne by done. eauto.
Qed.

(** A worker updates fields of its job other than the links. *)
Lemma inv_set_job s l j x y tid pc' evs :
  inv s l → jobs (world s) !! j = Some x →
  j_prev y = j_prev x → j_next y = j_next x → j_mutex y = false →
  pc_ok (world s) l j y tid pc' →
  inv (mkSys (add_events evs (set_job j y (world s)))
             (<[j := (tid, pc')]> (workers s))) l.
Proof.
  intros [Hwf Hm Hj Hw] Hx Hp Hn Hmy Hpc. constructor; simpl.
  - by eapply wf_list_set_job.
  - done.
  - intros k xk Hxk. destruct (decide (k = j)) as [->|Hkj].
    + rewrite lookup_insert_eq in Hxk. injection Hxk as <-.
      split; [done|]. exists tid, pc'. rewrite lookup_insert_eq. split; [done|].
      eapply pc_ok_transfer; eauto; try (by apply fut_pending_ext).
    + rewrite lookup_insert_ne in Hxk by done.
      destruct (Hj k xk Hxk) as (Hmk & tid' & pc & Hwk & Hpck).
      split; [done|]. exists tid', pc. rewrite lookup_insert_ne by done.
      split; [done|]. eapply pc_ok_transfer; eauto; try (by apply fut_pending_ext).
  - intros k [v Hk]. destruct (decide (k = j)) as [->|Hkj].
    + rewrite lookup_insert_eq. eauto.
    + rewrite lookup_insert_ne in Hk by done. rewrite lookup_insert_ne by done.
      apply Hw. eauto.
Qed.

(** A worker moves on without touching the jobs. *)
Lemma inv_set_pc s l j x tid pc' evs :
  inv s l → jobs (world s) !! j = Some x →
  pc_ok (world s) l j x tid pc' →
  inv (mkSys (add_events evs (world s)) (<[j := (tid, pc')]> (workers s))) l.
Proof.
  intros Hinv Hx Hpc.
  rewrite <- (set_job_id j x (world s)) at 1 by done.
  apply inv_set_job with (x := x); try done.
  by destruct (inv_jobs _ _ Hinv j x Hx).
Qed.


Lemma facts_quiet s s' l l' :
  inv s' l' →
  (∀ j x x', jobs (world s) !! j = Some x → jobs (world s') !! j = Some x' →
             j_state x' = j_state x) →
  (∀ f fx fx', futures (world s) !! f = Some fx →
               futures (world s') !! f = Some fx' →
               f_published fx' = f_published fx) →
  step_facts s s' l l'.
Proof.
  intros Hinv Hst Hpub. constructor; [done| |].
  - intros j x x' Hx Hx'. left. symmetry. eauto.
  - intros f fx fx' Hfx Hfx' Hp Hp'. rewrite (Hpub _ _ _ Hfx Hfx') in Hp'.
    congruence.
Qed.

Lemma same_jobs_states (w w' : World) :
  jobs w' = jobs w →
  ∀ j x x', jobs w !! j = Some x → jobs w' !! j = Some x' →
            j_state x' = j_state x.
Proof. intros -> j x x' Hx Hx'. congruence. Qed.

Lemma same_futures_published (w w' : World) :
  futures w' = futures w →
  ∀ f fx fx', futures w !! f = Some fx → futures w' !! f = Some fx' →
              f_published fx' = f_published fx.
Proof. intros -> f fx fx' Hx Hx'. congruence. Qed.

Lemma canceled_only_states w w' :
  canceled_only w w' →
  ∀ j x x', jobs w !! j = Some x → jobs w' !! j = Some x' →
            j_state x' = j_state x.
Proof.
  intros Hco j x x' Hx Hx'.
  destruct (canceled_only_lookup _ _ _ _ Hco Hx') as (y & Hy & Hyy).
  rewrite Hx in Hy. injection Hy as <-. by destruct Hyy as [->| ->].
Qed.

Lemma payload_states w w' :
  payload <$> jobs w' = payload <$> jobs w →
  ∀ j x x', jobs w !! j = Some x → jobs w' !! j = Some x' →
            j_state x' = j_state x.
Proof.
  intros Hp j x x' Hx Hx'.
  destruct (payload_lookup _ _ _ _ Hp Hx) as (y & Hy & Hyy).
  rewrite Hx' in Hy. injection Hy as <-.
  by destruct (payload_fields _ _ Hyy) as (_&_&_&_&_&_&?&_).
Qed.

Section SubmitSteps.
Variable E : Env.
Hypothesis Hfresh : env_alloc_fresh E.

Lemma facts_canceled_only s w' l :
  inv s l → canceled_only (world s) w' →
  step_facts s (mkSys w' (workers s)) l l.
Proof.
  intros Hinv Hco. apply facts_quiet.
  - by apply inv_canceled_only.
  - by apply canceled_only_states.
  - apply same_futures_published. apply Hco.
Qed.

Lemma facts_submit_failed s obj run halt w' l :
  inv s l →
  executor_submit E obj run halt (world s) = Some (None, w') →
  step_facts s (mkSys w' (workers s)) l l.
Proof.
  intros Hinv Hsub.
  destruct (executor_submit_cases E obj run halt l (world s))
    as [(evs & Hev)|(f & j & w2 & Hev & _)]; [done|apply Hinv|apply Hinv| |congruence].
  rewrite Hev in Hsub. injection Hsub as <-.
  apply facts_quiet; [by apply inv_add_events|by apply same_jobs_states
                     |by apply same_futures_published].
Qed.

Lemma facts_submit s obj run halt f j tid w' l :
  inv s l →
  executor_submit E obj run halt (world s) = Some (Some f, w') →
  f_job <$> futures w' !! f = Some (Some j) →
  step_facts s (mkSys w' (<[j := (tid, PcStart)]> (workers s))) l (l ++ [j]).
Proof.
  intros Hinv Hsub Hfj.
  destruct (executor_submit_cases E obj run halt l (world s))
    as [(evs & Hev)|(f' & j' & w2 & Hev & Hfr & Hjn & Hwf' & Hlu)];
    [done|apply Hinv|apply Hinv|congruence|].
  rewrite Hev in Hsub. injection Hsub as -> ->.
  pose proof (list_update_mutex _ _ _ Hlu) as Hmx.
  destruct Hlu as [Hfu Htr Hex Hpay]. simpl in *.
  rewrite Hfu, lookup_insert_eq in Hfj. simpl in Hfj. injection Hfj as ->.
  assert (Hjl : j ∉ l).
  { intros Hin. destruct (wf_elem _ _ _ (inv_wf _ _ Hinv) Hin). congruence. }
  assert (Hold : ∀ k xk, k ≠ j → jobs (world s) !! k = Some xk →
            ∃ xk', jobs w' !! k = Some xk' ∧ payload xk' = payload xk).
  { intros k xk Hk Hxk.
    assert (Hl : (payload <$> jobs w') !! k
                 = (payload <$> <[j:=new_job (Some f) obj run halt]> (jobs (world s))) !! k)
      by (by rewrite Hpay).
    rewrite !lookup_fmap, lookup_insert_ne, Hxk in Hl by done.
    destruct (jobs w' !! k) as [xk'|]; [|done]. simpl in Hl.
    exists xk'. split; [done|congruence]. }
  assert (Hback : ∀ k xk', jobs w' !! k = Some xk' →
            (k = j ∧ payload xk' = payload (new_job (Some f) obj run halt)) ∨
            (k ≠ j ∧ ∃ xk, jobs (world s) !! k = Some xk ∧ payload xk' = payload xk)).
  { intros k xk' Hxk'.
    assert (Hl : (payload <$> jobs w') !! k
                 = (payload <$> <[j:=new_job (Some f) obj run halt]> (jobs (world s))) !! k)
      by (by rewrite Hpay).
    rewrite !lookup_fmap, Hxk' in Hl. simpl in Hl.
    destruct (decide (k = j)) as [->|Hk].
    - left. rewrite lookup_insert_eq in Hl. simpl in Hl. split; [done|congruence].
    - right. rewrite lookup_insert_ne in Hl by done. split; [done|].
      destruct (jobs (world s) !! k) as [xk|]; [|done]. simpl in Hl.
      exists xk. split; [done|congruence]. }
  constructor.
  - constructor; simpl.
    + done.
    + rewrite Hmx. apply Hinv.
    + intros k xk' Hxk'. destruct (Hback k xk' Hxk') as [[-> Hp]|(Hk & xk & Hxk & Hp)].
      * destruct (payload_fields _ _ Hp) as (Hm&_&_&_&_&Hfut&Hst&_). simpl in *.
        split; [done|]. exists tid, PcStart. rewrite lookup_insert_eq.
        split; [done|]. simpl. split; [apply elem_of_app; right; left|].
        split; [done|]. exists f, (mkFuture (Some j) false 0 None false).
        rewrite Hfu, lookup_insert_eq. done.
      * destruct (inv_jobs _ _ Hinv k xk Hxk) as (Hm & tid' & pc & Hw & Hpc).
        destruct (payload_fields _ _ Hp) as (Hm'&Ht'&_&_&_&Hfut&Hst&_).
        split; [congruence|]. exists tid', pc. rewrite lookup_insert_ne by done.
        split; [done|]. eapply pc_ok_transfer; eauto.
        -- rewrite elem_of_app, list_elem_of_singleton. intuition.
        -- intros (fk & fxk & Hfk & Hfxk & Hpk & Hjk). exists fk, fxk.
           rewrite Hfut, Hfu. rewrite lookup_insert_ne; [done|]. congruence.
    + intros k [v Hk]. destruct (decide (k = j)) as [->|Hkj].
      * assert (Hl : (payload <$> jobs w') !! j
                 = (payload <$> <[j:=new_job (Some f) obj run halt]> (jobs (world s))) !! j)
          by (by rewrite Hpay).
        rewrite !lookup_fmap, lookup_insert_eq in Hl.
        by destruct (jobs w' !! j).
      * rewrite lookup_insert_ne in Hk by done.
        destruct (inv_workers _ _ Hinv k) as [xk Hxk]; [eauto|].
        destruct (Hold k xk Hkj Hxk) as (? & ? & _). eauto.
  - intros k xk xk' Hxk Hxk'. left. simpl in *.
    assert (k ≠ j) by congruence.
    destruct (Hold k xk) as (y & Hy & Hp); [done..|].
    rewrite Hxk' in Hy. injection Hy as <-.
    by destruct (payload_fields _ _ Hp) as (_&_&_&_&_&_&?&_).
  - intros f' fx fx' Hfx Hfx' Hp Hp'. simpl in *.
    rewrite Hfu in Hfx'. assert (f' ≠ f) by congruence.
    rewrite lookup_insert_ne in Hfx' by done. congruence.
Qed.
End SubmitSteps.


Lemma set_job_facts s l j x y tid pc' evs :
  inv s l → jobs (world s) !! j = Some x →
  j_prev y = j_prev x → j_next y = j_next x → j_mutex y = false →
  pc_ok (world s) l j y tid pc' →
  state_forward (j_state x) (j_state y) →
  step_facts s (mkSys (add_events evs (set_job j y (world s)))
                      (<[j := (tid, pc')]> (workers s))) l l.
Proof.
  intros Hinv Hx Hp Hn Hm Hpc Hfw. constructor.
  - by eapply inv_set_job.
  - intros k xk xk' Hxk Hxk'. simpl in Hxk'.
    destruct (decide (k = j)) as [->|Hk].
    + rewrite lookup_insert_eq in Hxk'. congruence.
    + rewrite lookup_insert_ne in Hxk' by done. left. congruence.
  - intros f fx fx' Hfx Hfx' Hpf Hpf'. simpl in Hfx'. congruence.
Qed.

Lemma set_pc_facts s l j x tid pc' evs :
  inv s l → jobs (world s) !! j = Some x →
  pc_ok (world s) l j x tid pc' →
  step_facts s (mkSys (add_events evs (world s))
                      (<[j := (tid, pc')]> (workers s))) l l.
Proof.
  intros Hinv Hx Hpc. apply facts_quiet.
  - by eapply inv_set_pc.
  - by apply same_jobs_states.
  - by apply same_futures_published.
Qed.

Lemma wf_list_delete w l j evs :
  wf_list w l → j ∉ l →
  wf_list (add_events evs (set_jobs (delete j (jobs w)) w)) l.
Proof.
  intros [Hnd Hv Hn Hh Ht Hs] Hj. constructor; simpl; try done.
  intros i k Hik. rewrite lookup_delete_ne; [by apply Hn|].
  intros ->. apply Hj. by eapply list_elem_of_lookup_2.
Qed.

Section WorkerSteps.
Variable E : Env.

Lemma facts_begin s j tid ran w' l :
  inv s l → workers s !! j = Some (tid, PcStart) →
  job_run_begin tid j (world s) = Some (ran, w') →
  step_facts s (mkSys w' (<[j := (tid, if ran : bool then PcRunning
                                       else PcUnlocked 0 None)]> (workers s)))
             l l.
Proof.
  intros Hinv Hw Hrun.
  destruct (inv_worker _ _ _ _ _ Hinv Hw) as (x & Hx & Hm & Hjl & Hst & Hfp).
  destruct (j_canceled x) eqn:Hc.
  - rewrite (job_run_begin_skip tid j x) in Hrun by done.
    injection Hrun as <- <-. apply set_pc_facts with (x := x); [done..|].
    simpl. rewrite Hst. done.
  - rewrite (job_run_begin_start tid j x) in Hrun by done.
    injection Hrun as <- <-.
    apply set_job_facts with (x := x); [done|done|done|done|done| |].
    + simpl. split; [done|]. split; [done|]. split; [done|].
      by apply (fut_pending_ext (world s) _ j x).
    + right. left. by rewrite Hst.
Qed.

Lemma facts_call s j tid status result w' l :
  inv s l → workers s !! j = Some (tid, PcRunning) →
  job_run_call E j (world s) = Some ((status, result), w') →
  step_facts s (mkSys w' (<[j := (tid, PcReturned status result)]> (workers s)))
             l l.
Proof.
  intros Hinv Hw Hrun.
  destruct (inv_worker _ _ _ _ _ Hinv Hw) as (x & Hx & Hm & Hpc).
  rewrite (job_run_call_eq E j x) in Hrun by done.
  injection Hrun as _ <-. by apply set_pc_facts with (x := x).
Qed.

Lemma facts_end s j tid status result w' l :
  inv s l → workers s !! j = Some (tid, PcReturned status result) →
  job_run_end j (world s) = Some (tt, w') →
  step_facts s (mkSys w' (<[j := (tid, PcUnlocked status result)]> (workers s)))
             l l.
Proof.
  intros Hinv Hw Hrun.
  destruct (inv_worker _ _ _ _ _ Hinv Hw) as (x & Hx & Hm & Hjl & Hst & Ht & Hfp).
  rewrite (job_run_end_eq j x) in Hrun by done.
  injection Hrun as <-.
  apply set_job_facts with (x := x); [done|done|done|done|done| |].
  - simpl. split; [done|]. split; [done|].
    by apply (fut_pending_ext (world s) _ j x).
  - right. right. by rewrite Hst.
Qed.

Lemma facts_remove s j tid status result w' l :
  inv s l → workers s !! j = Some (tid, PcUnlocked status result) →
  executor_remove j (world s) = Some (tt, w') →
  step_facts s (mkSys w' (<[j := (tid, PcRemoved status result)]> (workers s)))
             l (filter (λ k, k ≠ j) l).
Proof.
  intros Hinv Hw Hrun.
  destruct (inv_worker _ _ _ _ _ Hinv Hw) as (x & Hx & Hm & Hjl & Hst & Hfp).
  destruct (executor_remove_wf (world s) l j) as (w2 & Hrm & Hwf2 & Hlu & _);
    [apply Hinv|done|apply Hinv|].
  rewrite Hrm in Hrun. injection Hrun as <-.
  pose proof (list_update_mutex _ _ _ Hlu) as Hmx.
  destruct Hlu as [Hfu Htr Hex Hpay].
  apply facts_quiet; [|by apply payload_states|by apply same_futures_published].
  constructor; simpl.
  - done.
  - rewrite Hmx. apply Hinv.
  - intros k xk' Hxk'.
    assert (∃ xk, jobs (world s) !! k = Some xk ∧ payload xk' = payload xk)
      as (xk & Hxk & Hp).
    { destruct (jobs (world s) !! k) as [xk|] eqn:Hxk.
      - destruct (payload_lookup _ _ _ _ Hpay Hxk) as (y & Hy & Hyy).
        exists xk. split; [done|]. congruence.
      - rewrite (payload_lookup_None _ _ _ Hpay Hxk) in Hxk'. done. }
    destruct (payload_fields _ _ Hp) as (Hm'&Ht'&_&_&_&Hfut&Hst'&_).
    destruct (inv_jobs _ _ Hinv k xk Hxk) as (Hmk & tid' & pc & Hwk & Hpc).
    split; [congruence|]. destruct (decide (k = j)) as [->|Hkj].
    + exists tid, (PcRemoved status result). rewrite lookup_insert_eq.
      split; [done|]. rewrite Hx in Hxk. injection Hxk as <-. simpl.
      split; [|split; [congruence|]].
      * rewrite list_elem_of_filter. intros [? _]. done.
      * by apply (fut_pending_ext (world s) w2 j x xk').
    + exists tid', pc. rewrite lookup_insert_ne by done. split; [done|].
      eapply pc_ok_transfer; eauto.
      * rewrite list_elem_of_filter. intuition.
      * by apply fut_pending_ext.
  - intros k [v Hk]. destruct (decide (k = j)) as [->|Hkj].
    + destruct (payload_lookup _ _ _ _ Hpay Hx) as (y & Hy & _). eauto.
    + rewrite lookup_insert_ne in Hk by done.
      destruct (inv_workers _ _ Hinv k) as [xk Hxk]; [eauto|].
      destruct (payload_lookup _ _ _ _ Hpay Hxk) as (y & Hy & _). eauto.
Qed.

Lemma facts_publish s j tid status result w' l :
  inv s l → workers s !! j = Some (tid, PcRemoved status result) →
  job_run_publish j status result (world s) = Some (tt, w') →
  step_facts s (mkSys w' (<[j := (tid, PcPublished)]> (workers s))) l l.
Proof.
  intros Hinv Hw Hrun.
  destruct (inv_worker _ _ _ _ _ Hinv Hw)
    as (x & Hx & Hm & Hjl & Hst & f & fx & Hf & Hfx & Hp & Hfj).
  rewrite (job_run_publish_eq j x f fx) in Hrun by done.
  injection Hrun as <-.
  assert (Hother : ∀ k xk tid' pc, k ≠ j → jobs (world s) !! k = Some xk →
            pc_ok (world s) l k xk tid' pc → j_future xk = Some f → k ∉ l).
  { intros k xk tid' pc Hk Hxk Hpc Hfk Hkl.
    destruct (pc_ok_member _ _ _ _ _ _ Hpc Hkl) as [Hnp _].
    destruct (pc_ok_pending _ _ _ _ _ _ Hpc Hnp) as (f' & fx' & Hf' & Hfx' & _ & Hj').
    congruence. }
  constructor.
  - constructor; simpl.
    + apply (wf_list_ext (world s)); [done..|apply Hinv].
    + apply Hinv.
    + intros k xk Hxk.
      destruct (inv_jobs _ _ Hinv k xk Hxk) as (Hmk & tid' & pc & Hwk & Hpc).
      split; [done|]. destruct (decide (k = j)) as [->|Hkj].
      * exists tid, PcPublished. rewrite lookup_insert_eq. split; [done|].
        rewrite Hx in Hxk. injection Hxk as <-. done.
      * exists tid', pc. rewrite lookup_insert_ne by done. split; [done|].
        eapply pc_ok_transfer; eauto.
        intros (f' & fx' & Hf' & Hfx' & Hp' & Hj'). exists f', fx'. simpl.
        rewrite lookup_insert_ne; [done|].
        intros <-. rewrite Hfx in Hfx'. injection Hfx' as <-. congruence.
    + intros k [v Hk]. destruct (decide (k = j)) as [->|Hkj]; [eauto|].
      rewrite lookup_insert_ne in Hk by done. apply Hinv. eauto.
  - intros k xk xk' Hxk Hxk'. left. simpl in Hxk'. congruence.
  - intros f' fx0 fx' Hfx0 Hfx' Hp0 Hp' k xk Hxk Hfk. simpl in Hfx'.
    assert (f' = f) as ->.
    { destruct (decide (f' = f)); [done|].
      rewrite lookup_insert_ne in Hfx' by done. congruence. }
    destruct (decide (k = j)) as [->|Hkj]; [done|].
    destruct (inv_jobs _ _ Hinv k xk Hxk) as (_ & tid' & pc & _ & Hpc).
    by eapply Hother.
Qed.

Lemma executor_run_finish_eq j x w :
  jobs w !! j = Some x → j_state x ≠ JOB_EXECUTING →
  ∃ evs, executor_run_finish E j w
         = Some (tt, add_events evs (set_jobs (delete j (jobs w)) w)).
Proof.
  intros Hx Hst. unfold executor_run_finish, job_free.
  unfold get_exec, mbind at 1, M_bind at 1.
  unfold get_job, mbind at 1, M_bind at 1. rewrite Hx.
  destruct (ex_afterCompletion (exec w)) as [fn|].
  - mrun.
    destruct (decide (after_fn E fn (ex_completer (exec w)) (j_future x) w ≠ 0));
      mrun; rewrite bool_decide_true by done; simpl;
      eexists; unfold add_events, set_trace, set_jobs; simpl;
      rewrite <- ?app_assoc; reflexivity.
  - mrun. rewrite bool_decide_true by done. simpl.
    eexists; unfold add_events, set_trace, set_jobs; simpl; reflexivity.
Qed.

Lemma facts_finish s j tid w' l :
  inv s l → workers s !! j = Some (tid, PcPublished) →
  executor_run_finish E j (world s) = Some (tt, w') →
  step_facts s (mkSys w' (delete j (workers s))) l l.
Proof.
  intros Hinv Hw Hrun.
  destruct (inv_worker _ _ _ _ _ Hinv Hw) as (x & Hx & Hm & Hjl & Hst).
  assert (∃ evs, w' = add_events evs
                        (set_jobs (delete j (jobs (world s))) (world s)))
    as [evs ->].
  { destruct (executor_run_finish_eq j x (world s)) as [evs Heq]; [done..|].
    rewrite Heq in Hrun. injection Hrun as <-. eauto. }
  constructor.
  - constructor; simpl.
    + by apply wf_list_delete; [apply Hinv|].
    + apply Hinv.
    + intros k xk Hxk. destruct (decide (k = j)) as [->|Hkj].
      { by rewrite lookup_delete_eq in Hxk. }
      rewrite lookup_delete_ne in Hxk by done.
      destruct (inv_jobs _ _ Hinv k xk Hxk) as (Hmk & tid' & pc & Hwk & Hpc).
      split; [done|]. exists tid', pc. rewrite lookup_delete_ne by done.
      split; [done|]. eapply pc_ok_transfer; eauto; try (by apply fut_pending_ext).
    + intros k [v Hk]. destruct (decide (k = j)) as [->|Hkj].
      { by rewrite lookup_delete_eq in Hk. }
      rewrite lookup_delete_ne in Hk by done. rewrite lookup_delete_ne by done.
      apply Hinv. eauto.
  - intros k xk xk' Hxk Hxk'. left. simpl in Hxk'.
    destruct (decide (k = j)) as [->|Hkj].
    { by rewrite lookup_delete_eq in Hxk'. }
    rewrite lookup_delete_ne in Hxk' by done. congruence.
  - intros f fx fx' Hfx Hfx' Hp Hp'. simpl in Hfx'. congruence.
Qed.
End WorkerSteps.


Lemma executor_size_eq w l :
  wf_list w l → ex_mutex (exec w) = false →
  executor_size w
  = Some (N.of_nat (length l), add_events [EvExecLock; EvExecUnlock] w).
Proof.
  intros Hwf Hm. unfold executor_size, mbind, M_bind.
  rewrite executor_lock_eq by done.
  rewrite (jobList_size_wf _ l) by (by apply (wf_list_ext w)).
  rewrite executor_unlock_eq by done. unfold mret, M_ret.
  f_equal. f_equal. apply world_ext; simpl; try done.
  - by rewrite unlock_lock_exec.
  - by rewrite <- !app_assoc.
Qed.

Section CallerSteps.
Variable E : Env.
Hypothesis Hfresh : env_alloc_fresh E.

Lemma facts_shutdown s now status w' l :
  inv s l → executor_shutdown E now (world s) = Some (status, w') →
  step_facts s (mkSys w' (workers s)) l l.
Proof.
  intros Hinv (_ & Hm' & _ & He & Hco)%executor_shutdown_inv.
  pose proof (inv_canceled_only _ _ _ Hinv Hco) as Hinv2.
  apply facts_quiet.
  - apply (inv_ext _ w' l) in Hinv2; simpl in *; try done.
    + rewrite He. by destruct (exec (world s)).
    + rewrite Hm'. symmetry. apply Hinv.
  - intros j x x' Hx Hx'.
    by apply (canceled_only_states _ _ Hco j x x').
  - apply same_futures_published. apply (co_futures _ _ Hco).
Qed.

Lemma facts_size s n w' l :
  inv s l → executor_size (world s) = Some (n, w') →
  step_facts s (mkSys w' (workers s)) l l.
Proof.
  intros Hinv Hsz.
  rewrite (executor_size_eq _ l) in Hsz by apply Hinv.
  injection Hsz as _ <-.
  apply facts_quiet; [by apply inv_add_events|by apply same_jobs_states
                     |by apply same_futures_published].
Qed.

Lemma facts_setAfterCompletion s completer fn w' l :
  inv s l →
  executor_setAfterCompletion completer fn (world s) = Some (tt, w') →
  step_facts s (mkSys w' (workers s)) l l.
Proof.
  intros Hinv H. injection H as <-.
  apply facts_quiet; [by apply inv_ext|by apply same_jobs_states
                     |by apply same_futures_published].
Qed.

Lemma facts_future_free s f fx w' l :
  inv s l → futures (world s) !! f = Some fx → f_published fx = true →
  future_free (Some f) (world s) = Some (tt, w') →
  step_facts s (mkSys w' (workers s)) l l.
Proof.
  intros Hinv Hfx Hp H. revert H. unfold future_free. mrun.
  intros H. injection H as <-.
  apply facts_quiet; [|by apply same_jobs_states|].
  - destruct Hinv as [Hwf Hm Hj Hw]. constructor; simpl; try done.
    + by apply (wf_list_ext (world s)).
    + intros j x Hx. destruct (Hj j x Hx) as (Hmj & tid & pc & Hwk & Hpc).
      split; [done|]. exists tid, pc. split; [done|].
      eapply pc_ok_transfer; eauto.
      intros (f' & fx' & Hf' & Hfx' & Hp' & Hj'). exists f', fx'. simpl.
      rewrite lookup_delete_ne; [done|]. congruence.
  - intros f' fx0 fx' Hfx0 Hfx'. simpl in Hfx'.
    destruct (decide (f' = f)) as [->|Hne].
    + by rewrite lookup_delete_eq in Hfx'.
    + rewrite lookup_delete_ne in Hfx' by done. congruence.
Qed.

(** Every step keeps the invariant. *)
Lemma step_preserves s s' l :
  inv s l → step E s s' → ∃ l', step_facts s s' l l'.
Proof.
  intros Hinv Hstep. destruct Hstep.
  - eexists. by eapply facts_submit.
  - eexists. by eapply facts_submit_failed.
  - eexists. by eapply facts_begin.
  - eexists. by eapply facts_call.
  - eexists. by eapply facts_end.
  - eexists. by eapply facts_remove.
  - eexists. by eapply facts_publish.
  - eexists. by eapply facts_finish.
  - eexists. eapply facts_canceled_only; [done|].
    by eapply job_cancel_canceled_only.
  - eexists. eapply facts_canceled_only; [done|].
    by eapply future_cancel_canceled_only.
  - eexists. by eapply facts_shutdown.
  - eexists. by eapply facts_size.
  - eexists. by eapply facts_setAfterCompletion.
  - eexists. by eapply facts_future_free.
Qed.

Lemma init_inv s : init_sys s → inv s [].
Proof.
  intros (Hj & Hw & Hl & Hm). constructor.
  - by apply wf_list_empty.
  - done.
  - intros j x Hx. by rewrite Hj in Hx.
  - intros j [v Hv]. by rewrite Hw in Hv.
Qed.

Lemma rtc_inv s s' l :
  inv s l → rtc (step E) s s' → ∃ l', inv s' l'.
Proof.
  intros Hinv Hrtc. revert l Hinv.
  induction Hrtc as [s|s1 s2 s3 Hstep _ IH]; intros l Hinv; [eauto|].
  destruct (step_preserves _ _ _ Hinv Hstep) as [l2 [Hinv2 _ _]]. eauto.
Qed.

Lemma reachable_inv s : reachable E s → ∃ l, inv s l.
Proof.
  intros (s0 & Hinit & Hrtc). eapply rtc_inv; [|done]. by apply init_inv.
Qed.
End CallerSteps.


Lemma state_forward_rank a b :
  state_forward a b → (state_rank a ≤ state_rank b)%nat.
Proof. intros [->|[[-> ->]|[-> ->]]]; simpl; lia. Qed.

Section SystemClaims.
Variable E : Env.
Hypothesis Hfresh : env_alloc_fresh E.

Lemma steps_alive_rank j s s' l :
  inv s l → steps_alive E j s s' →
  ∃ x x', jobs (world s) !! j = Some x ∧ jobs (world s') !! j = Some x' ∧
          (state_rank (j_state x) ≤ state_rank (j_state x'))%nat.
Proof.
  intros Hinv Hsteps. revert l Hinv.
  induction Hsteps as [s [x Hx]|s1 s2 s3 [x Hx] Hstep _ IH]; intros l Hinv.
  - exists x, x. done.
  - destruct (step_preserves E Hfresh _ _ _ Hinv Hstep) as [l2 [Hinv2 Hfw _]].
    destruct (IH _ Hinv2) as (x2 & x3 & Hx2 & Hx3 & Hle).
    exists x, x3. split; [done|]. split; [done|].
    pose proof (state_forward_rank _ _ (Hfw _ _ _ Hx Hx2)). lia.
Qed.

(** C2: in every reachable state, a step of any thread leaves the state of
    a job as it is or moves it from INITIALIZED to EXECUTING or from
    EXECUTING to COMPLETED; so over any number of steps the state never
    moves backward, and EXECUTING is never skipped. *)
Theorem job_state_forward s :
  reachable E s →
  (∀ s' j x x',
     step E s s' →
     jobs (world s) !! j = Some x → jobs (world s') !! j = Some x' →
     state_forward (j_state x) (j_state x')) ∧
  (∀ s' j,
     steps_alive E j s s' →
     ∃ x x', jobs (world s) !! j = Some x ∧ jobs (world s') !! j = Some x' ∧
             (state_rank (j_state x) ≤ state_rank (j_state x'))%nat).
Proof.
  intros [l Hinv]%(reachable_inv E Hfresh). split.
  - intros s' j x x' Hstep Hx Hx'.
    destruct (step_preserves E Hfresh _ _ _ Hinv Hstep) as [l2 [_ Hfw _]]. eauto.
  - intros s' j Hsteps. by eapply steps_alive_rank.
Qed.

(** C5: in every reachable state [executor_size] returns the number of the
    nodes reachable from [head] and [jobList_cancelAll] cancels the futures
    of these nodes and no other; a future that holds a published result is
    the future of none of them, and a step that publishes the result of a
    job finds the job already off the list. *)
Theorem removal_precedes_publication s :
  reachable E s →
  ∃ l,
    reachable_nodes (world s) = Some l ∧
    executor_size (world s)
    = Some (N.of_nat (length l),
            add_events [EvExecLock; EvExecUnlock] (world s)) ∧
    jobList_cancelAll E (world s)
    = (stats ← cancel_each E (futures_of (world s) l);
       mret (first_nonzero stats)) (world s) ∧
    (∀ f fx,
       futures (world s) !! f = Some fx → f_published fx = true →
       (Some f ∉ futures_of (world s) l) ∧
       ∀ j x, jobs (world s) !! j = Some x → j_future x = Some f → j ∉ l) ∧
    (∀ s' j x f fx fx',
       step E s s' →
       jobs (world s) !! j = Some x → j_future x = Some f →
       futures (world s) !! f = Some fx → f_published fx = false →
       futures (world s') !! f = Some fx' → f_published fx' = true →
       j ∉ l).
Proof.
  intros [l Hinv]%(reachable_inv E Hfresh). exists l.
  assert (Hoff : ∀ j x f fx,
       jobs (world s) !! j = Some x → j_future x = Some f →
       futures (world s) !! f = Some fx → f_published fx = true → j ∉ l).
  { intros j x f fx Hx Hf Hfx Hp Hjl.
    destruct (inv_jobs _ _ Hinv j x Hx) as (_ & tid & pc & _ & Hpc).
    destruct (pc_ok_member _ _ _ _ _ _ Hpc Hjl) as [Hnp _].
    destruct (pc_ok_pending _ _ _ _ _ _ Hpc Hnp) as (f' & fx' & Hf' & Hfx' & Hp' & _).
    congruence. }
  split; [apply reachable_nodes_wf, Hinv|].
  split; [apply executor_size_eq; apply Hinv|].
  split; [apply jobList_cancelAll_eq, Hinv|]. split.
  - intros f fx Hfx Hp. split.
    + unfold futures_of. intros (k & Hk & Hkl)%list_elem_of_fmap.
      destruct (jobs (world s) !! k) as [xk|] eqn:Hxk; [|done]. simpl in Hk.
      by apply (Hoff k xk f fx).
    + intros j x Hx Hf. by apply (Hoff j x f fx).
  - intros s' j x f fx fx' Hstep Hx Hf Hfx Hp Hfx' Hp'.
    destruct (step_preserves E Hfresh _ _ _ Hinv Hstep) as [l2 [_ _ Hpub]].
    by eapply Hpub.
Qed.
End SystemClaims.


Lemma first_free_spec {A} (h : gmap positive A) slots a :
  first_free h slots = Some a → h !! a = None ∧ a ∈ slots.
Proof.
  induction slots as [|b slots IH]; [done|]. simpl.
  destruct (h !! b) eqn:Hb.
  - intros [? ?]%IH. split; [done|by right].
  - intros [= <-]. split; [done|left].
Qed.

Lemma alloc_fresh {A} (h : gmap positive A) a :
  alloc h = Some a → h !! a = None ∧ valid_addr a.
Proof.
  intros [Hf Hin]%first_free_spec. split; [done|].
  elem_cases Hin; reflexivity.
Qed.

Lemma env_fresh st : env_alloc_fresh (env st).
Proof.
  split.
  - intros w j H. unfold env in H. cbn [log_malloc] in H.
    exact (alloc_fresh _ _ H).
  - intros w f H. unfold env in H. cbn [future_alloc] in H.
    exact (proj1 (alloc_fresh _ _ H)).
Qed.

Lemma wf_two : wf_list w_two [1; 2]%positive.
Proof. wf_concrete. Qed.

Section CallClaims.
Variable E : Env.

(** C1, as it holds of the code: a job whose [canceled] flag is set when
    its worker thread makes the check of [job_run] is never run: [job_run]
    returns, no call of the run function is recorded, the state of the job
    is left as it was (the worker does not mark it COMPLETED), and the
    future is published with status 0, a null result and the canceled
    indication. *)
Theorem job_run_canceled self j x f fx l w :
  wf_list w l → j ∈ l → ex_mutex (exec w) = false →
  jobs w !! j = Some x → j_mutex x = false → j_canceled x = true →
  j_future x = Some f → futures w !! f = Some fx → f_published fx = false →
  ∃ w', job_run E self j w = Some (tt, w') ∧
        (∀ fn o, EvRun fn o ∉ new_events w w') ∧
        j_state <$> jobs w' !! j = Some (j_state x) ∧
        futures w' !! f = Some (mkFuture (f_job fx) true 0 None true) ∧
        EvSetResult f 0 None true ∈ new_events w w'.
Proof.
  intros Hwf Hjl Hem Hj Hm Hc Hf Hfx Hp.
  destruct (job_run_skip E self j x f fx l w)
    as (w' & Hrun & Hev & Hnorun & Hst & Hfut); [done..|].
  exists w'. repeat (split; [done|]).
  rewrite Hev. do 4 right. left.
Qed.

(** C6: [job_cancel] on a COMPLETED job returns 0 and changes neither the
    jobs (state and canceled flag included), nor the futures (the recorded
    result), nor the executor; it only takes and releases the job's lock. *)
Theorem job_cancel_completed j x w :
  jobs w !! j = Some x → j_state x = JOB_COMPLETED → j_mutex x = false →
  ∃ w', job_cancel E j w = Some (0, w') ∧
        jobs w' = jobs w ∧ futures w' = futures w ∧ exec w' = exec w ∧
        new_events w w' = [EvJobLock j; EvJobUnlock j].
Proof.
  intros Hj Hs Hm. eexists.
  split; [by apply (job_cancel_completed_eq E j x)|].
  repeat (split; [done|]). by apply new_events_app.
Qed.

(** C7: [job_cancel] on an EXECUTING job sets [canceled], releases the lock
    of the job, and only then calls the halt function, with the payload and
    the recorded thread, in the world [w1] where the lock is free: the
    caller's function, if the job has one, and otherwise the default one,
    which sends SIGTERM to the recorded thread; it returns the status of the
    halt function, after logging it when it is not zero. *)
Theorem job_cancel_executing j x t w :
  jobs w !! j = Some x → j_state x = JOB_EXECUTING → j_mutex x = false →
  j_thread x = Some t →
  let w1 := add_events [EvJobLock j; EvJobUnlock j]
              (set_job j (set_j_canceled true x) w) in
  jobs w1 !! j = Some (set_j_canceled true x) ∧
  j_mutex (set_j_canceled true x) = false ∧
  ∃ status w2,
    call_halt E (j_halt x) (j_obj x) (Some t) w1 = Some (status, w2) ∧
    job_cancel E j w
    = Some (status,
            if decide (status ≠ 0)
            then add_events [EvLogError "Job's halt function returned %d"
                               status] w2
            else w2) ∧
    (∀ fn, j_halt x = HaltUser fn →
           status = halt_fn E fn (j_obj x) t w1 ∧
           w2 = add_events [EvHalt fn (j_obj x) t] w1) ∧
    (j_halt x = HaltDefault →
     let k := pthread_kill E t SIGTERM w1 in
     status = (if decide (k = ESRCH) then 0 else k) ∧
     w2 = add_events
            (EvKill t SIGTERM ::
             if decide (status = 0) then []
             else [EvLogAddErrno k "Couldn't signal job's thread"]) w1).
Proof.
  intros Hj Hs Hm Ht w1.
  split; [simpl; by rewrite lookup_insert_eq|]. split; [done|].
  exists (halt_events E (j_halt x) (j_obj x) t w1).1,
         (add_events (halt_events E (j_halt x) (j_obj x) t w1).2 w1).
  split; [apply call_halt_events|]. split; [|split].
  - rewrite (job_cancel_executing_eq E j x t) by done. fold w1.
    f_equal. f_equal. destruct (decide _).
    + by rewrite add_events_app.
    + by rewrite app_nil_r.
  - intros fn Hfn. by rewrite Hfn.
  - intros Hd. rewrite Hd. cbv zeta. unfold halt_events.
    set (k := pthread_kill E t SIGTERM w1). clearbody k.
    destruct (decide (k = 0)) as [Hk|Hk];
      destruct (decide (k = ESRCH)) as [Hk'|Hk']; simpl;
      (split; [congruence|]);
      repeat match goal with
             | |- context [decide ?P] => destruct (decide P); try done
             end;
      done.
Qed.

(** C8: the default halt function sends SIGTERM to the thread of the job;
    it returns 0 when the signal is delivered or when there is no such
    thread (ESRCH), and otherwise logs the error and returns its status. *)
Theorem job_defaultHaltFunc_signal obj thread w :
  let k := pthread_kill E thread SIGTERM w in
  let w1 := add_events [EvKill thread SIGTERM] w in
  SIGTERM = 15 ∧
  (k = 0 → job_defaultHaltFunc E obj thread w = Some (0, w1)) ∧
  (k = ESRCH → job_defaultHaltFunc E obj thread w = Some (0, w1)) ∧
  (k ≠ 0 → k ≠ ESRCH →
   job_defaultHaltFunc E obj thread w
   = Some (k, add_events
                [EvLogAddErrno k "Couldn't signal job's thread"] w1)).
Proof.
  intros k w1. destruct (job_defaultHaltFunc_spec E obj thread w) as [H0 H1].
  split; [done|]. split; [|split]; auto.
Qed.

(** C4: a second [executor_shutdown], with any flag, returns 0 and leaves
    the jobs, the futures and the executor (shutdown flag and job list) as
    the first call left them; it cancels nothing. *)
Theorem executor_shutdown_idempotent now1 now2 w s1 w1 :
  executor_shutdown E now1 w = Some (s1, w1) →
  ex_isShutdown (exec w1) = true ∧
  ∃ w2, executor_shutdown E now2 w1 = Some (0, w2) ∧
        jobs w2 = jobs w1 ∧ futures w2 = futures w1 ∧ exec w2 = exec w1 ∧
        new_events w1 w2 = [EvExecLock; EvExecUnlock].
Proof.
  intros (_ & Hm & Hs & _)%executor_shutdown_inv.
  split; [done|]. eexists. split; [by apply executor_shutdown_again|].
  repeat (split; [done|]). by apply new_events_app.
Qed.

Variables (obj : option positive) (run : positive) (halt : option positive).

(** C3: [executor_submit] on an executor that is shut down returns [NULL];
    the world is then as before but for the log: the job list is unchanged,
    no thread was asked for, and whatever was allocated is freed. When the
    future and the job could be built, [executor_submitJob] returns EPERM
    and logs the rejection. *)
Theorem executor_submit_rejected w :
  env_alloc_fresh E →
  ex_isShutdown (exec w) = true → ex_mutex (exec w) = false →
  ∃ evs w',
    executor_submit E obj run halt w = Some (None, w') ∧
    jobs w' = jobs w ∧ futures w' = futures w ∧ exec w' = exec w ∧
    new_events w w' = evs ∧
    (∀ j s, EvThreadCreate j s ∉ evs) ∧
    (∀ f j, construction_ok E obj run halt w f j →
       executor_submitJob E j (job_world f j obj run halt w)
       = Some (EPERM,
               add_events [EvExecLock; EvLogAdd "Executor is shut down";
                           EvExecUnlock] (job_world f j obj run halt w)) ∧
       evs = [EvExecLock; EvLogAdd "Executor is shut down"; EvExecUnlock]).
Proof.
  intros Hfresh Hs Hm.
  destruct (executor_submit_shutdown E obj run halt w) as (evs & Hsub & Hno & Hok);
    [done..|].
  exists evs, (add_events evs w). repeat (split; [done|]).
  split; [by apply new_events_app|]. done.
Qed.

(** C9: when thread creation fails, [executor_submitJob] removes the job
    again and returns the error status, the list and its size being as
    before; [executor_submit] frees the job and the future and returns
    [NULL], the world being as before but for the trace; a later
    submission is accepted. *)
Theorem executor_submit_thread_failure l w f j status :
  env_alloc_fresh E → wf_list w l →
  ex_mutex (exec w) = false → ex_isShutdown (exec w) = false →
  construction_ok E obj run halt w f j →
  thread_create_status E j (job_world f j obj run halt w) = Some status →
  status ≠ 0 →
  (∃ w1, executor_submitJob E j (job_world f j obj run halt w)
         = Some (status, w1) ∧
         ex_jobList (exec w1) = ex_jobList (exec w) ∧
         reachable_nodes w1 = Some l) ∧
  ∃ w', executor_submit E obj run halt w = Some (None, w') ∧
    jobs w' = jobs w ∧ futures w' = futures w ∧ exec w' = exec w ∧
    new_events w w'
    = [EvExecLock; EvThreadCreate j status;
       EvLogAddErrno status "Couldn't create job's thread"; EvExecUnlock] ∧
    reachable_nodes w' = Some l ∧
    executor_size w'
    = Some (N.of_nat (length l), add_events [EvExecLock; EvExecUnlock] w') ∧
    ∀ f2 j2,
      construction_ok E obj run halt w' f2 j2 →
      thread_create_status E j2 (job_world f2 j2 obj run halt w') = Some 0 →
      ∃ w2, executor_submit E obj run halt w' = Some (Some f2, w2) ∧
            reachable_nodes w2 = Some (l ++ [j2]).
Proof.
  intros Hfresh Hwf Hm Hs Hok Hst Hne.
  destruct (executor_submit_create_failed E obj run halt l w f j status)
    as (Hjob & Hsub & Hreach & Hsize & Hnext); [done..|].
  split; [done|]. eexists. split; [exact Hsub|].
  repeat (split; [done|]). split; [by apply new_events_app|]. done.
Qed.

(** C10: after any sequence of additions of fresh nodes and removals of
    members, from the empty list, the nodes reachable from [head] are the
    members, [size] (and [jobList_size]) is their number, the [prev] of the
    head and the [next] of the tail are null and the links agree; and
    [jobList_cancelAll] calls [future_cancel] on the future of every node,
    in order, whatever the calls return, and returns the first status that
    is not zero, or zero. *)
Theorem jobList_structure w ops :
  ex_jobList (exec w) = mkJobList None None 0 →
  ops_admissible w [] ops →
  let l := members [] ops in
  ∃ w', apply_ops ops w = Some (tt, w') ∧
        list_invariant w' ∧
        reachable_nodes w' = Some l ∧
        jl_size (ex_jobList (exec w')) = N.of_nat (length l) ∧
        jobList_size w' = Some (N.of_nat (length l), w') ∧
        jobList_cancelAll E w'
        = (stats ← cancel_each E (futures_of w' l);
           mret (first_nonzero stats)) w' ∧
        (∀ stats w'', cancel_each E (futures_of w' l) w' = Some (stats, w'') →
           length stats = length l ∧
           future_cancels (new_events w' w'') = futures_of w' l) ∧
        ((∀ j, j ∈ l → cancellable w' j) →
         ∃ stats w'',
           jobList_cancelAll E w' = Some (first_nonzero stats, w'') ∧
           length stats = length l ∧
           future_cancels (new_events w' w'') = futures_of w' l).
Proof.
  intros Hempty Hadm l.
  destruct (apply_ops_wf ops w []) as (w' & Hrun & Hwf);
    [by apply wf_list_empty|done|].
  fold l in Hwf. exists w'. split; [done|].
  split; [by eapply list_invariant_wf|].
  split; [by apply reachable_nodes_wf|].
  split; [apply Hwf|].
  split; [by apply jobList_size_wf|].
  split; [by apply jobList_cancelAll_eq|]. split.
  - intros stats w'' Hce.
    destruct (cancel_each_visits E _ _ _ _ Hce) as (? & ? & _). done.
  - intros Hc. destruct (cancel_each_total E l w' Hc) as (stats & w'' & Hce).
    destruct (cancel_each_visits E _ _ _ _ Hce) as (Hlen & Hev & _).
    exists stats, w''. split; [|done].
    rewrite (jobList_cancelAll_eq E _ l Hwf).
    unfold mbind, M_bind. by rewrite Hce.
Qed.
End CallClaims.


Lemma reach_new : reachable env_ok s_new.
Proof. exists s_new. split; [done|]. apply rtc_refl. Qed.

Lemma step_new_one : step env_ok s_new s_one.
Proof.
  apply (step_submit env_ok s_new None 5%positive None 1%positive 1%positive
           4 w_one); by vm_compute.
Qed.

Lemma reach_one : reachable env_ok s_one.
Proof.
  exists s_new. split; [done|]. eapply rtc_l; [apply step_new_one|apply rtc_refl].
Qed.

Lemma step_one_started : step env_ok s_one s_started.
Proof.
  apply (step_begin env_ok s_one 1%positive 4 true
           w_started); by vm_compute.
Qed.

Lemma reach_published : reachable env_ok s_published.
Proof.
  exists s_new. split; [done|].
  eapply rtc_l; [apply step_new_one|].
  eapply rtc_l; [apply step_one_started|].
  eapply rtc_l;
    [apply (step_call env_ok s_started 1%positive 4 7 None w_returned);
     by vm_compute|].
  eapply rtc_l;
    [apply (step_end env_ok s_returned 1%positive 4 7 None w_ended);
     by vm_compute|].
  eapply rtc_l;
    [apply (step_remove env_ok s_ended 1%positive 4 7 None w_removed);
     by vm_compute|].
  eapply rtc_l;
    [apply (step_publish env_ok s_removed 1%positive 4 7 None w_published);
     by vm_compute|].
  apply rtc_refl.
Qed.

(** C1: the claim fails on the first job of [w_canceled]: it is canceled
    when [job_run] makes its check, and [job_run] leaves it INITIALIZED. *)
Lemma job_run_canceled_stays_initialized :
  j_canceled <$> jobs w_canceled !! 1%positive = Some true ∧
  ∃ w', job_run env_ok 4 1%positive w_canceled = Some (tt, w') ∧
        j_state <$> jobs w' !! 1%positive = Some JOB_INITIALIZED ∧
        j_state <$> jobs w' !! 1%positive ≠ Some JOB_COMPLETED.
Proof.
  split; [by vm_compute|].
  exists (world_of (job_run env_ok 4 1%positive w_canceled)).
  split; [by vm_compute|]. split; [by vm_compute|]. by vm_compute.
Qed.

Lemma job_run_canceled_witness :
  ∃ w', job_run env_ok 4 1%positive w_canceled = Some (tt, w') ∧
        futures w' !! 1%positive
        = Some (mkFuture (Some 1%positive) true 0 None true).
Proof.
  destruct (job_run_canceled env_ok 4 1%positive
              (mkJob false None None 5%positive HaltDefault (Some 1%positive)
                     None (Some 2%positive) JOB_INITIALIZED true)
              1%positive (mkFuture (Some 1%positive) false 0 None false)
              [1; 2]%positive w_canceled)
    as (w' & Hrun & _ & _ & Hfut & _).
  - wf_concrete.
  - left.
  - reflexivity.
  - reflexivity.
  - reflexivity.
  - reflexivity.
  - reflexivity.
  - reflexivity.
  - reflexivity.
  - exists w'. split; [exact Hrun|exact Hfut].
Defined.

Lemma job_state_forward_witness :
  ∃ x x', jobs (world s_one) !! 1%positive = Some x ∧
          jobs (world s_started) !! 1%positive = Some x' ∧
          j_state x = JOB_INITIALIZED ∧ j_state x' = JOB_EXECUTING ∧
          state_forward (j_state x) (j_state x').
Proof.
  destruct (job_state_forward env_ok (env_fresh 0) s_one reach_one) as [Hstep _].
  exists (mkJob false None None 5%positive HaltDefault (Some 1%positive)
                None None JOB_INITIALIZED false),
         (mkJob false (Some 4) None 5%positive HaltDefault (Some 1%positive)
                None None JOB_EXECUTING false).
  split; [reflexivity|]. split; [reflexivity|].
  split; [reflexivity|]. split; [reflexivity|].
  apply (Hstep s_started 1%positive).
  - apply step_one_started.
  - reflexivity.
  - reflexivity.
Defined.

Lemma executor_submit_rejected_witness :
  ∃ w', executor_submit env_ok None 5%positive None w_shutdown
        = Some (None, w') ∧ jobs w' = jobs w_shutdown.
Proof.
  destruct (executor_submit_rejected env_ok None 5%positive None w_shutdown)
    as (evs & w' & Hsub & Hjobs & _).
  - apply env_fresh.
  - reflexivity.
  - reflexivity.
  - exists w'. split; [exact Hsub|exact Hjobs].
Defined.

Lemma executor_shutdown_idempotent_witness :
  ∃ w2, executor_shutdown env_ok false w_shutdown = Some (0, w2) ∧
        exec w2 = exec w_shutdown.
Proof.
  destruct (executor_shutdown_idempotent env_ok true false w_running 5
              w_shutdown) as (_ & w2 & Hsd & _ & _ & Hex & _).
  - vm_compute. reflexivity.
  - exists w2. split; [exact Hsd|exact Hex].
Defined.

Lemma removal_precedes_publication_witness :
  f_published <$> futures (world s_published) !! 1%positive = Some true ∧
  j_future <$> jobs (world s_published) !! 1%positive
  = Some (Some 1%positive) ∧
  reachable_nodes (world s_published) = Some [] ∧
  ∃ w', executor_size (world s_published) = Some (0%N, w').
Proof.
  destruct (removal_precedes_publication env_ok (env_fresh 0) s_published
              reach_published) as (l & Hl & Hsize & _).
  assert (l = []) as -> by (vm_compute in Hl; congruence).
  split; [reflexivity|]. split; [reflexivity|]. split; [exact Hl|].
  eexists. exact Hsize.
Defined.

Lemma job_cancel_completed_witness :
  ∃ w', job_cancel env_ok 2%positive w_completed = Some (0, w') ∧
        jobs w' = jobs w_completed.
Proof.
  destruct (job_cancel_completed env_ok 2%positive
              (mkJob false (Some 9) (Some 3%positive) 5%positive
                     (HaltUser 6%positive) (Some 2%positive)
                     (Some 1%positive) None JOB_COMPLETED false)
              w_completed) as (w' & Hc & Hj & _).
  - reflexivity.
  - reflexivity.
  - reflexivity.
  - exists w'. split; [exact Hc|exact Hj].
Defined.

Lemma job_cancel_executing_witness :
  (∃ w', job_cancel env_ok 2%positive w_running = Some (5, w') ∧
         new_events w_running w'
         = [EvJobLock 2%positive; EvJobUnlock 2%positive;
            EvHalt 6%positive (Some 3%positive) 9;
            EvLogError "Job's halt function returned %d" 5]) ∧
  (∃ w', job_cancel env_ok 1%positive w_started = Some (0, w') ∧
         new_events w_started w'
         = [EvJobLock 1%positive; EvJobUnlock 1%positive; EvKill 4 SIGTERM]).
Proof.
  split.
  - destruct (job_cancel_executing env_ok 2%positive
                (mkJob false (Some 9) (Some 3%positive) 5%positive
                       (HaltUser 6%positive) (Some 2%positive)
                       (Some 1%positive) None JOB_EXECUTING false)
                9 w_running) as (_ & _ & status & w2 & _ & Hc & Hu & _).
    + reflexivity.
    + reflexivity.
    + reflexivity.
    + reflexivity.
    + destruct (Hu 6%positive eq_refl) as [Hs Hw].
      simpl in Hs. subst status w2. eexists. split; [exact Hc|reflexivity].
  - destruct (job_cancel_executing env_ok 1%positive
                (mkJob false (Some 4) None 5%positive HaltDefault
                       (Some 1%positive) None None JOB_EXECUTING false)
                4 w_started) as (_ & _ & status & w2 & _ & Hc & _ & Hd).
    + reflexivity.
    + reflexivity.
    + reflexivity.
    + reflexivity.
    + destruct (Hd eq_refl) as [Hs Hw].
      simpl in Hs. subst status. simpl in Hw. subst w2.
      eexists. split; [exact Hc|reflexivity].
Defined.

Lemma job_defaultHaltFunc_signal_witness :
  job_defaultHaltFunc env_ok None 8 executor_new
  = Some (0, add_events [EvKill 8 SIGTERM] executor_new).
Proof.
  destruct (job_defaultHaltFunc_signal env_ok None 8 executor_new)
    as (_ & _ & Hsrch & _).
  apply Hsrch. reflexivity.
Defined.

Lemma executor_submit_thread_failure_witness :
  ∃ w', executor_submit env_no_thread None 5%positive None w_two
        = Some (None, w') ∧ exec w' = exec w_two.
Proof.
  destruct (executor_submit_thread_failure env_no_thread None 5%positive None
              [1; 2]%positive w_two 3%positive 3%positive 11)
    as (_ & w' & Hsub & _ & _ & Hex & _).
  - apply env_fresh.
  - apply wf_two.
  - reflexivity.
  - reflexivity.
  - repeat split; by vm_compute.
  - by vm_compute.
  - discriminate.
  - exists w'. split; [exact Hsub|exact Hex].
Defined.

Lemma ops_admissible_example : ops_admissible w_nodes [] ops.
Proof.
  unfold ops.
  repeat (cbn [ops_admissible members_after]; split;
    [ first
        [ split; [not_elem_concrete|];
          split; [reflexivity|]; eexists; split; [reflexivity|by split]
        | simpl; repeat (first [by left | right]) ]
    | match goal with
      | |- match ?r with _ => _ end =>
          let r' := eval vm_compute in r in
          change r with r'; cbv beta iota
      end ]).
  exact I.
Qed.

Lemma jobList_structure_witness :
  ∃ w', apply_ops ops w_nodes = Some (tt, w') ∧
        reachable_nodes w' = Some [2; 3]%positive.
Proof.
  destruct (jobList_structure env_ok w_nodes ops)
    as (w' & Hrun & _ & Hreach & _).
  - reflexivity.
  - apply ops_admissible_example.
  - exists w'. split; [exact Hrun|exact Hreach].
Defined.


(** ** Further properties: running and cancelling a job *)
Section JobCalls.
Variable E : Env.

(** The end of [job_run]: removal from the list, then publication. *)
Lemma job_run_tail j x f fx l status result w :
  wf_list w l → j ∈ l → ex_mutex (exec w) = false →
  jobs w !! j = Some x →
  j_future x = Some f → futures w !! f = Some fx → f_published fx = false →
  ∃ w1, (executor_remove j;; job_run_publish j status result) w
        = Some (tt, publish f fx status result (j_canceled x) w1) ∧
        list_update [EvExecLock; EvExecUnlock] w w1 ∧
        wf_list w1 (filter (λ k, k ≠ j) l) ∧
        ∃ x1, jobs w1 !! j = Some x1 ∧ payload x1 = payload x.
Proof.
  intros Hwf Hjl Hem Hj Hf Hfx Hp.
  destruct (executor_remove_wf w l j) as (w1 & Hrm & Hwf1 & Hlu & _);
    [done..|].
  destruct (list_update_lookup _ _ _ j x Hlu) as (x1 & Hx1 & Hpay); [done|].
  destruct (payload_fields _ _ Hpay) as (_ & _ & _ & _ & _ & Hf1 & _ & Hc1).
  exists w1. split; [|by eauto].
  unfold mbind, M_bind. rewrite Hrm.
  rewrite (job_run_publish_eq j x1 f fx); [by rewrite Hc1|done|congruence| |done].
  by rewrite (lu_futures _ _ _ Hlu).
Qed.

(** X1: [job_cancel] on a job that has not started sets [canceled] and
    returns 0 without calling any halt function: it only takes and releases
    the job's lock, and changes nothing else. *)
Theorem job_cancel_initialized j x w :
  jobs w !! j = Some x → j_state x = JOB_INITIALIZED → j_mutex x = false →
  ∃ w', job_cancel E j w = Some (0, w') ∧
        jobs w' = <[j := set_j_canceled true x]> (jobs w) ∧
        futures w' = futures w ∧ exec w' = exec w ∧
        new_events w w' = [EvJobLock j; EvJobUnlock j].
Proof.
  intros Hj Hs Hm. eexists.
  split; [by apply (job_cancel_initialized_eq E j x)|].
  repeat (split; [done|]). by apply new_events_app.
Qed.

(** X2: a job cancelled before its thread starts never runs: after
    [job_cancel], [job_run] calls no run function, takes the job off the
    list, leaves it INITIALIZED, and publishes status 0, a null result and
    the canceled indication. *)
Theorem job_cancel_then_run self j x f fx l w :
  wf_list w l → j ∈ l → ex_mutex (exec w) = false →
  jobs w !! j = Some x → j_mutex x = false → j_state x = JOB_INITIALIZED →
  j_future x = Some f → futures w !! f = Some fx → f_published fx = false →
  ∃ w1 w2, job_cancel E j w = Some (0, w1) ∧
           job_run E self j w1 = Some (tt, w2) ∧
           new_events w w2
           = [EvJobLock j; EvJobUnlock j; EvJobLock j; EvJobUnlock j;
              EvExecLock; EvExecUnlock; EvSetResult f 0 None true] ∧
           reachable_nodes w2 = Some (filter (λ k, k ≠ j) l) ∧
           j_state <$> jobs w2 !! j = Some JOB_INITIALIZED ∧
           futures w2 !! f = Some (mkFuture (f_job fx) true 0 None true).
Proof.
  intros Hwf Hjl Hem Hj Hm Hs Hf Hfx Hp.
  pose proof (job_cancel_initialized_eq E j x w Hj Hs Hm) as Hc.
  set (x1 := set_j_canceled true x) in *.
  set (w1 := add_events [EvJobLock j; EvJobUnlock j] (set_job j x1 w)) in *.
  assert (Hj1 : jobs w1 !! j = Some x1) by (simpl; by rewrite lookup_insert_eq).
  set (w1' := add_events [EvJobLock j; EvJobUnlock j] w1).
  destruct (job_run_tail j x1 f fx l 0 None w1')
    as (w2 & Htail & Hlu & Hwf2 & x2 & Hx2 & Hpay); try done.
  { apply (wf_list_ext w1); [done..|].
    eapply canceled_only_wf; [|exact Hwf]. by eapply job_cancel_canceled_only. }
  destruct (payload_fields _ _ Hpay) as (_ & _ & _ & _ & _ & _ & Hs2 & _).
  exists w1, (publish f fx 0 None true w2).
  split; [done|]. split; [|split; [|split; [|split]]].
  - unfold job_run. unfold mbind at 1, M_bind at 1.
    rewrite (job_run_begin_skip self j x1) by done. fold w1'.
    unfold mbind at 1, M_bind at 1, mret, M_ret. exact Htail.
  - apply new_events_app. simpl. rewrite (lu_trace _ _ _ Hlu). simpl.
    by rewrite <- !app_assoc.
  - apply reachable_nodes_wf. by apply (wf_list_ext w2).
  - simpl. rewrite Hx2. simpl. rewrite Hs2. simpl. by rewrite Hs.
  - simpl. by rewrite lookup_insert_eq.
Qed.

(** X3: the worker of a job that is not cancelled runs the task once, with
    the job's payload, marks the job COMPLETED, takes it off the list, and
    then publishes the status and the result of the task, not canceled. *)
Theorem job_run_completes self j x f fx l w :
  wf_list w l → j ∈ l → ex_mutex (exec w) = false →
  jobs w !! j = Some x → j_mutex x = false → j_canceled x = false →
  j_future x = Some f → futures w !! f = Some fx → f_published fx = false →
  let w1 := add_events [EvJobLock j; EvJobUnlock j]
              (set_job j (set_j_state JOB_EXECUTING
                            (set_j_thread (Some self) x)) w) in
  let r := run_fn E (j_run x) (j_obj x) w1 in
  ∃ w', job_run E self j w = Some (tt, w') ∧
        new_events w w'
        = [EvJobLock j; EvJobUnlock j; EvRun (j_run x) (j_obj x);
           EvJobLock j; EvJobUnlock j; EvExecLock; EvExecUnlock;
           EvSetResult f r.1 r.2 false] ∧
        reachable_nodes w' = Some (filter (λ k, k ≠ j) l) ∧
        (∃ x', jobs w' !! j = Some x' ∧ j_state x' = JOB_COMPLETED ∧
               j_thread x' = Some self ∧ j_canceled x' = false) ∧
        futures w' !! f = Some (mkFuture (f_job fx) true r.1 r.2 false).
Proof.
  intros Hwf Hjl Hem Hj Hm Hc Hf Hfx Hp w1 r.
  set (x1 := set_j_state JOB_EXECUTING (set_j_thread (Some self) x)) in *.
  assert (Hj1 : jobs w1 !! j = Some x1) by (simpl; by rewrite lookup_insert_eq).
  set (w2 := add_events [EvRun (j_run x) (j_obj x)] w1).
  set (x3 := set_j_state JOB_COMPLETED x1).
  set (w3 := add_events [EvJobLock j; EvJobUnlock j] (set_job j x3 w2)).
  assert (Hwf1 : wf_list w1 l) by (by apply (wf_list_set_job w l j x)).
  assert (Hwf3 : wf_list w3 l).
  { apply (wf_list_set_job w2 l j x1); [|done..]. by apply (wf_list_ext w1). }
  destruct (job_run_tail j x3 f fx l r.1 r.2 w3)
    as (w4 & Htail & Hlu & Hwf4 & x4 & Hx4 & Hpay); try done.
  { simpl. by rewrite lookup_insert_eq. }
  destruct (payload_fields _ _ Hpay) as (_ & Ht4 & _ & _ & _ & _ & Hs4 & Hc4).
  exists (publish f fx r.1 r.2 false w4).
  split; [|split; [|split; [|split]]].
  - unfold job_run. unfold mbind at 1, M_bind at 1.
    rewrite (job_run_begin_start self j x) by done. fold x1 w1.
    unfold mbind at 1, M_bind at 1. unfold mbind at 1, M_bind at 1.
    rewrite (job_run_call_eq E j x1) by done. fold r w2.
    unfold mbind at 1, M_bind at 1.
    rewrite (job_run_end_eq j x1) by done. fold x3 w3.
    unfold mret at 1, M_ret at 1.
    change (run_fn E (j_run x1) (j_obj x1) w1) with r.
    change (add_events [EvJobLock j; EvJobUnlock j]
              (set_job j x3 (add_events [EvRun (j_run x1) (j_obj x1)] w1)))
      with w3.
    clearbody r. destruct r as [status result].
    simpl in *. rewrite Htail. by rewrite Hc.
  - apply new_events_app. simpl. rewrite (lu_trace _ _ _ Hlu). simpl.
    by rewrite <- !app_assoc.
  - apply reachable_nodes_wf. by apply (wf_list_ext w4).
  - exists x4. simpl. split; [done|]. rewrite Hs4, Ht4, Hc4. done.
  - simpl. by rewrite lookup_insert_eq.
Qed.

(** What [job_cancel] changes: the [canceled] flag of that job, unless the
    job is COMPLETED. *)
Lemma job_cancel_effect j w s w' :
  job_cancel E j w = Some (s, w') →
  ∃ x, jobs w !! j = Some x ∧ j_mutex x = false ∧
       jobs w' = <[j := if decide (j_state x = JOB_COMPLETED) then x
                        else set_j_canceled true x]> (jobs w) ∧
       futures w' = futures w ∧ exec w' = exec w.
Proof.
  intros Hc. destruct (job_cancel_inv E j w s w' Hc) as (x & Hj & Hm & Ht).
  exists x. split; [done|]. split; [done|].
  destruct (j_state x) eqn:Hs.
  - rewrite (job_cancel_initialized_eq E j x) in Hc by done.
    injection Hc as <- <-. by rewrite decide_False.
  - destruct Ht as [t Ht]; [done|].
    rewrite (job_cancel_executing_eq E j x t) in Hc by done.
    cbv zeta in Hc. injection Hc as <- <-.
    by destruct (decide (_ = JOB_COMPLETED)).
  - rewrite (job_cancel_completed_eq E j x) in Hc by done.
    injection Hc as <- <-. rewrite decide_True by done. simpl.
    by rewrite insert_id.
Qed.

(** The calls that [job_cancel] makes on an EXECUTING job: the caller's
    halt function, or the signal of the default one. *)
Lemma job_cancel_executing_calls j x t w :
  jobs w !! j = Some x → j_state x = JOB_EXECUTING → j_mutex x = false →
  j_thread x = Some t →
  let wc := add_events [EvJobLock j; EvJobUnlock j]
              (set_job j (set_j_canceled true x) w) in
  ∃ st w', job_cancel E j w = Some (st, w') ∧
    (∀ fn, j_halt x = HaltUser fn →
       st = halt_fn E fn (j_obj x) t wc ∧
       new_events w w'
       = EvJobLock j :: EvJobUnlock j :: EvHalt fn (j_obj x) t ::
         (if decide (st = 0) then []
          else [EvLogError "Job's halt function returned %d" st])) ∧
    (j_halt x = HaltDefault →
       let k := pthread_kill E t SIGTERM wc in
       st = (if decide (k = ESRCH) then 0 else k) ∧
       new_events w w'
       = EvJobLock j :: EvJobUnlock j :: EvKill t SIGTERM ::
         (if decide (st = 0) then []
          else [EvLogAddErrno k "Couldn't signal job's thread";
                EvLogError "Job's halt function returned %d" k])).
Proof.
  intros Hj Hs Hm Ht wc.
  pose proof (job_cancel_executing_eq E j x t w Hj Hs Hm Ht) as Hcan.
  cbv zeta in Hcan. fold wc in Hcan.
  eexists _, _. split; [exact Hcan|]. split.
  - intros fn Hfn. rewrite Hfn. unfold halt_events. simpl.
    split; [done|].
    set (st := halt_fn E fn (j_obj x) t wc). clearbody st.
    destruct (decide (st ≠ 0)); destruct (decide (st = 0)); try done;
      apply new_events_app; simpl; by rewrite <- !app_assoc.
  - intros Hd. rewrite Hd. cbv zeta. unfold halt_events.
    set (k := pthread_kill E t SIGTERM wc). clearbody k.
    destruct (decide (k = 0)) as [Hk|Hk];
      destruct (decide (k = ESRCH)) as [Hk'|Hk']; simpl;
      (split; [congruence|]);
      repeat match goal with
             | |- context [decide ?P] => destruct (decide P); try done
             end;
      apply new_events_app; simpl; by rewrite <- !app_assoc.
Qed.

(** X4: a job cancelled while its task executes is still completed by its
    worker: [job_cancel] calls the halt function with the payload and the
    worker's thread (the caller's function, or the default one, which
    signals the thread), the job becomes COMPLETED, and the future receives
    the status and the result of the task together with the canceled
    indication. *)
Theorem job_cancel_while_executing self j x f fx l w :
  wf_list w l → j ∈ l → ex_mutex (exec w) = false →
  jobs w !! j = Some x → j_mutex x = false → j_canceled x = false →
  j_future x = Some f → futures w !! f = Some fx → f_published fx = false →
  let w0 := add_events [EvJobLock j; EvJobUnlock j]
              (set_job j (set_j_state JOB_EXECUTING
                            (set_j_thread (Some self) x)) w) in
  let wc := add_events [EvJobLock j; EvJobUnlock j]
              (set_job j (set_j_canceled true
                            (set_j_state JOB_EXECUTING
                               (set_j_thread (Some self) x))) w0) in
  ∃ st w1 w',
    job_run_begin self j w = Some (true, w0) ∧
    job_cancel E j w0 = Some (st, w1) ∧
    (∃ wh, call_halt E (j_halt x) (j_obj x) (Some self) wc = Some (st, wh)) ∧
    (∀ fn, j_halt x = HaltUser fn →
       st = halt_fn E fn (j_obj x) self wc ∧
       new_events w0 w1
       = EvJobLock j :: EvJobUnlock j :: EvHalt fn (j_obj x) self ::
         (if decide (st = 0) then []
          else [EvLogError "Job's halt function returned %d" st])) ∧
    (j_halt x = HaltDefault →
       let k := pthread_kill E self SIGTERM wc in
       st = (if decide (k = ESRCH) then 0 else k) ∧
       new_events w0 w1
       = EvJobLock j :: EvJobUnlock j :: EvKill self SIGTERM ::
         (if decide (st = 0) then []
          else [EvLogAddErrno k "Couldn't signal job's thread";
                EvLogError "Job's halt function returned %d" k])) ∧
    (r ← job_run_call E j; job_run_end j;; executor_remove j;;
     job_run_publish j r.1 r.2) w1 = Some (tt, w') ∧
    let r := run_fn E (j_run x) (j_obj x) w1 in
    (∃ x', jobs w' !! j = Some x' ∧ j_state x' = JOB_COMPLETED ∧
           j_canceled x' = true) ∧
    futures w' !! f = Some (mkFuture (f_job fx) true r.1 r.2 true) ∧
    reachable_nodes w' = Some (filter (λ k, k ≠ j) l).
Proof.
  intros Hwf Hjl Hem Hj Hm Hc Hf Hfx Hp. cbv zeta.
  set (x0 := set_j_state JOB_EXECUTING (set_j_thread (Some self) x)).
  set (w0 := add_events [EvJobLock j; EvJobUnlock j] (set_job j x0 w)).
  assert (Hj0 : jobs w0 !! j = Some x0) by (simpl; by rewrite lookup_insert_eq).
  pose proof (job_cancel_executing_eq E j x0 self w0 Hj0 eq_refl Hm eq_refl)
    as Hcan. cbv zeta in Hcan.
  set (xc := set_j_canceled true x0) in *.
  set (wc := add_events [EvJobLock j; EvJobUnlock j] (set_job j xc w0)) in *.
  set (he := halt_events E (j_halt x0) (j_obj x0) self wc) in *.
  set (w1 := add_events _ wc) in Hcan.
  assert (Hwf0 : wf_list w0 l) by (by apply (wf_list_set_job w l j x)).
  assert (Hwfc : wf_list wc l) by (by apply (wf_list_set_job w0 l j x0)).
  assert (Hj1 : jobs w1 !! j = Some xc) by (simpl; by rewrite lookup_insert_eq).
  set (r := run_fn E (j_run x) (j_obj x) w1).
  set (w2 := add_events [EvRun (j_run x) (j_obj x)] w1).
  set (x3 := set_j_state JOB_COMPLETED xc).
  set (w3 := add_events [EvJobLock j; EvJobUnlock j] (set_job j x3 w2)).
  assert (Hwf3 : wf_list w3 l).
  { apply (wf_list_set_job w2 l j xc); [|done..]. by apply (wf_list_ext wc). }
  destruct (job_run_tail j x3 f fx l r.1 r.2 w3)
    as (w4 & Htail & Hlu & Hwf4 & x4 & Hx4 & Hpay); try done.
  { simpl. by rewrite lookup_insert_eq. }
  destruct (payload_fields _ _ Hpay) as (_ & _ & _ & _ & _ & _ & Hs4 & Hc4).
  exists he.1, w1, (publish f fx r.1 r.2 true w4).
  split; [by apply (job_run_begin_start self j x)|]. split; [done|].
  split; [exists (add_events he.2 wc);
          apply (call_halt_events E (j_halt x) (j_obj x))|].
  destruct (job_cancel_executing_calls j x0 self w0 Hj0 eq_refl Hm eq_refl)
    as (st' & w1' & Hcan' & Huser & Hdef).
  rewrite Hcan in Hcan'. injection Hcan' as <- <-.
  split; [exact Huser|]. split; [exact Hdef|].
  split; [|split; [|split]].
  - unfold mbind at 1, M_bind at 1.
    rewrite (job_run_call_eq E j xc) by done.
    change (run_fn E (j_run xc) (j_obj xc) w1) with r.
    change (add_events [EvRun (j_run xc) (j_obj xc)] w1) with w2.
    unfold mbind at 1, M_bind at 1.
    rewrite (job_run_end_eq j xc) by done. fold x3 w3. exact Htail.
  - exists x4. split; [done|]. by rewrite Hs4, Hc4.
  - simpl. by rewrite lookup_insert_eq.
  - apply reachable_nodes_wf. by apply (wf_list_ext w4).
Qed.

End JobCalls.


(** ** Further properties: submission and shutdown *)
Section SubmitCalls.
Variable E : Env.
Variables (obj : option positive) (run : positive) (halt : option positive).

(** The job of an accepted submission, up to its links. *)
Lemma executor_submit_job l w f j :
  env_alloc_fresh E → wf_list w l →
  ex_mutex (exec w) = false → ex_isShutdown (exec w) = false →
  construction_ok E obj run halt w f j →
  thread_create_status E j (job_world f j obj run halt w) = Some 0 →
  ∃ w' x, executor_submit E obj run halt w = Some (Some f, w') ∧
          wf_list w' (l ++ [j]) ∧
          list_update [EvExecLock; EvThreadCreate j 0; EvExecUnlock]
            (job_world f j obj run halt w) w' ∧
          jobs w' !! j = Some x ∧
          payload x = payload (new_job (Some f) obj run halt).
Proof.
  intros Hfresh Hwf Hm Hs Hok Hst.
  destruct (executor_submit_success E obj run halt l w f j)
    as (w' & Hsub & Hwf' & Hlu); [done..|].
  destruct (list_update_lookup _ _ _ j (new_job (Some f) obj run halt) Hlu)
    as (x & Hx & Hpay); [simpl; by rewrite lookup_insert_eq|].
  by exists w', x.
Qed.

(** X5: an accepted submission returns a new future bound to a new job,
    which is INITIALIZED, not cancelled, carries the caller's payload and
    functions and stands at the end of the list; one thread is created, and
    [executor_size] is one more than before. *)
Theorem executor_submit_accepted l w f j :
  env_alloc_fresh E → wf_list w l →
  ex_mutex (exec w) = false → ex_isShutdown (exec w) = false →
  construction_ok E obj run halt w f j →
  thread_create_status E j (job_world f j obj run halt w) = Some 0 →
  ∃ w', executor_submit E obj run halt w = Some (Some f, w') ∧
        futures w !! f = None ∧ jobs w !! j = None ∧
        new_events w w' = [EvExecLock; EvThreadCreate j 0; EvExecUnlock] ∧
        reachable_nodes w' = Some (l ++ [j]) ∧
        executor_size w'
        = Some (N.of_nat (S (length l)),
                add_events [EvExecLock; EvExecUnlock] w') ∧
        futures w' = <[f := mkFuture (Some j) false 0 None false]> (futures w) ∧
        ∃ x, jobs w' !! j = Some x ∧
             j_mutex x = false ∧
             j_state x = JOB_INITIALIZED ∧ j_canceled x = false ∧
             j_obj x = obj ∧ j_run x = run ∧ j_future x = Some f ∧
             j_halt x = match halt with
                        | Some fn => HaltUser fn
                        | None => HaltDefault
                        end ∧
             j_prev x = last l ∧ j_next x = None.
Proof.
  intros Hfresh Hwf Hm Hs Hok Hst.
  destruct (executor_submit_job l w f j)
    as (w' & x & Hsub & Hwf' & Hlu & Hx & Hpay); [done..|].
  destruct Hok as (Hfa & Hja & _).
  destruct Hfresh as [Hfj Hff].
  pose proof (Hff _ _ Hfa) as Hf0.
  destruct (Hfj _ _ Hja) as [Hj0 _]. simpl in Hj0.
  exists w'. split; [done|]. split; [done|]. split; [done|].
  split; [apply new_events_app; by rewrite (lu_trace _ _ _ Hlu)|].
  split; [by apply reachable_nodes_wf|].
  split.
  { rewrite (executor_size_eq w' (l ++ [j])); [|done|].
    - by rewrite length_app, Nat.add_1_r.
    - by rewrite (list_update_mutex _ _ _ Hlu). }
  split; [by rewrite (lu_futures _ _ _ Hlu)|].
  destruct (wf_lookup w' (l ++ [j]) (length l) j Hwf')
    as (x' & Hx' & Hprev & Hnext).
  { by rewrite lookup_app_r, Nat.sub_diag. }
  rewrite Hx in Hx'. injection Hx' as <-.
  destruct (payload_fields _ _ Hpay) as (Hmx & _ & Ho & Hr & Hh & Hfu & Hst' & Hc).
  exists x. split; [done|]. simpl in *.
  repeat (split; [done|]). split.
  - by rewrite Hprev, nth_prev_app_l, nth_prev_last.
  - rewrite Hnext. apply lookup_ge_None. rewrite length_app. simpl. lia.
Qed.

(** X6: [executor_submit] always returns, and it is all or nothing: it
    returns [NULL] and leaves the jobs, the futures and the executor as they
    were, or it returns a future that did not exist, for one new job at the
    end of the list. *)
Theorem executor_submit_all_or_nothing l w :
  env_alloc_fresh E → wf_list w l → ex_mutex (exec w) = false →
  ∃ r w', executor_submit E obj run halt w = Some (r, w') ∧
    match r with
    | None =>
        jobs w' = jobs w ∧ futures w' = futures w ∧ exec w' = exec w ∧
        reachable_nodes w' = Some l
    | Some f =>
        futures w !! f = None ∧
        ∃ j, jobs w !! j = None ∧ reachable_nodes w' = Some (l ++ [j]) ∧
             f_job <$> futures w' !! f = Some (Some j) ∧
             j_future <$> jobs w' !! j = Some (Some f)
    end.
Proof.
  intros Hfresh Hwf Hm.
  destruct (executor_submit_cases E obj run halt l w)
    as [(evs & Hev)|(f & j & w' & Hev & Hf0 & Hj0 & Hwf' & Hlu)]; [done..| |].
  - exists None, (add_events evs w). split; [done|].
    repeat (split; [done|]). by apply reachable_nodes_wf, (wf_list_ext w).
  - exists (Some f), w'. split; [done|]. split; [done|]. exists j.
    split; [done|]. split; [by apply reachable_nodes_wf|]. split.
    + rewrite (lu_futures _ _ _ Hlu). simpl. by rewrite lookup_insert_eq.
    + destruct (list_update_lookup _ _ _ j (new_job (Some f) obj run halt) Hlu)
        as (x' & Hx' & Hpay); [simpl; by rewrite lookup_insert_eq|].
      destruct (payload_fields _ _ Hpay) as (_&_&_&_&_&Hfu&_).
      rewrite Hx'. simpl. by rewrite Hfu.
Qed.

Lemma executor_submit_no_job_log f w :
  future_alloc E w = Some f → futures w !! f = None →
  (∀ j, log_malloc E (future_world f w) = Some j → jobs w !! j = None) →
  (∀ j, ¬ construction_ok E obj run halt w f j) →
  ∃ evs, executor_submit E obj run halt w
         = Some (None, add_events (evs ++ [EvLogAdd "Couldn't create new job"])
                         w) ∧
         Forall is_log evs.
Proof.
  intros Hf Hfr Hjf Hnc.
  destruct (job_new_failure E obj run halt f (future_world f w))
    as (evs & fx & Hjn & Hlog).
  { simpl. by rewrite lookup_insert_eq. }
  { done. }
  { intros j Hj Hm Hc. apply (Hnc j). repeat split; try done.
    - unfold job_world. simpl in *. by rewrite insert_insert_eq in Hm.
    - unfold job_world. simpl in *. by rewrite insert_insert_eq in Hc. }
  exists evs. split; [|done].
  unfold executor_submit. unfold mbind at 1, M_bind at 1.
  rewrite (future_new_ok E w f) by done.
  unfold mbind at 1, M_bind at 1. rewrite Hjn.
  unfold future_free. mrun.
  f_equal. f_equal. apply world_ext; simpl; try done.
  - by rewrite insert_insert_eq, delete_insert_id.
  - by rewrite <- app_assoc.
Qed.

(** X7: when the future or the job cannot be built (an allocation fails,
    or the initialisation of the job's mutex or condition variable),
    [executor_submit] returns [NULL] having only written to the log, the
    last entry saying which of the two could not be created: the executor
    is not locked, no thread is asked for, and the future that was
    allocated is freed again. *)
Theorem executor_submit_no_resources w :
  env_alloc_fresh E →
  (∀ f j, ¬ construction_ok E obj run halt w f j) →
  ∃ evs msg,
    executor_submit E obj run halt w
    = Some (None, add_events (evs ++ [EvLogAdd msg]) w) ∧
    Forall is_log evs ∧
    msg = match future_alloc E w with
          | Some _ => "Couldn't create new job"
          | None => "Couldn't create new future"
          end.
Proof.
  intros [Hfj Hff] Hno.
  destruct (future_alloc E w) as [f|] eqn:Hfa.
  - destruct (executor_submit_no_job_log f w) as (evs & Hsub & Hlog).
    + done.
    + by apply Hff.
    + intros j Hj. by destruct (Hfj _ _ Hj).
    + intros j. apply Hno.
    + by exists evs, "Couldn't create new job".
  - exists [], "Couldn't create new future".
    split; [by apply executor_submit_no_future|]. by split.
Qed.

End SubmitCalls.

Section ShutdownCalls.
Variable E : Env.

(** X8: a job submitted without a halt function is halted by a signal:
    once its thread [tid] executes it, [job_cancel] sends SIGTERM to [tid]
    and calls no other halt function; it returns 0 when the signal is
    delivered or the thread is gone, and otherwise the error of the
    delivery, which the halt function and [job_cancel] both log. *)
Theorem executor_submit_default_halt obj run tid l w f j :
  env_alloc_fresh E → wf_list w l →
  ex_mutex (exec w) = false → ex_isShutdown (exec w) = false →
  construction_ok E obj run None w f j →
  thread_create_status E j (job_world f j obj run None w) = Some 0 →
  ∃ w1 w2 wc st w3,
    executor_submit E obj run None w = Some (Some f, w1) ∧
    job_run_begin tid j w1 = Some (true, w2) ∧
    job_cancel E j w2 = Some (st, w3) ∧
    new_events w2 wc = [EvJobLock j; EvJobUnlock j] ∧
    let k := pthread_kill E tid SIGTERM wc in
    st = (if decide (k = ESRCH) then 0 else k) ∧
    new_events wc w3
    = EvKill tid SIGTERM ::
      (if decide (st = 0) then []
       else [EvLogAddErrno k "Couldn't signal job's thread";
             EvLogError "Job's halt function returned %d" k]).
Proof.
  intros Hfresh Hwf Hm Hs Hok Hst.
  destruct (executor_submit_job E obj run None l w f j)
    as (w1 & x & Hsub & _ & _ & Hx & Hpay); [done..|].
  destruct (payload_fields _ _ Hpay) as (Hmx & _ & _ & _ & Hh & _ & Hsx & Hcx).
  simpl in Hmx, Hh, Hsx, Hcx.
  set (x0 := set_j_state JOB_EXECUTING (set_j_thread (Some tid) x)).
  set (w2 := add_events [EvJobLock j; EvJobUnlock j] (set_job j x0 w1)).
  assert (Hj2 : jobs w2 !! j = Some x0) by (simpl; by rewrite lookup_insert_eq).
  pose proof (job_cancel_executing_eq E j x0 tid w2 Hj2 eq_refl Hmx eq_refl)
    as Hcan. cbv zeta in Hcan.
  set (wc := add_events [EvJobLock j; EvJobUnlock j]
               (set_job j (set_j_canceled true x0) w2)) in *.
  eexists w1, w2, wc, _, _. split; [done|].
  split; [by apply (job_run_begin_start tid j x)|].
  split; [exact Hcan|]. split; [by apply new_events_app|].
  cbv zeta. simpl j_halt. rewrite Hh. unfold halt_events.
  set (k := pthread_kill E tid SIGTERM wc).
  clearbody k.
  destruct (decide (k = 0)) as [Hk|Hk];
    destruct (decide (k = ESRCH)) as [Hk'|Hk']; simpl;
    (split; [congruence|]);
    repeat match goal with
           | |- context [decide ?P] => destruct (decide P); try done
           end;
    by apply new_events_app.
Qed.

(** X9: after a shutdown, whatever its flag and its status, a submission
    is rejected: [executor_submit] returns [NULL], asks for no thread and
    leaves the world as it was but for the trace. *)
Theorem executor_shutdown_then_submit now obj run halt w s w1 :
  env_alloc_fresh E →
  executor_shutdown E now w = Some (s, w1) →
  ∃ evs, executor_submit E obj run halt w1 = Some (None, add_events evs w1) ∧
         ∀ j st, EvThreadCreate j st ∉ evs.
Proof.
  intros Hfresh (_ & Hm & Hs & _)%executor_shutdown_inv.
  destruct (executor_submit_shutdown E obj run halt w1) as (evs & Hsub & Hno & _);
    [done..|].
  by exists evs.
Qed.

(** X10: a shutdown that does not cancel sets the flag and returns 0; it
    leaves every job and every future as it is, and the list too. *)
Theorem executor_shutdown_graceful w :
  ex_mutex (exec w) = false → ex_isShutdown (exec w) = false →
  ∃ w', executor_shutdown E false w = Some (0, w') ∧
        jobs w' = jobs w ∧ futures w' = futures w ∧
        exec w' = set_ex_isShutdown true (exec w) ∧
        new_events w w' = [EvExecLock; EvExecUnlock].
Proof.
  intros Hm Hs. rewrite (executor_shutdown_first E false w) by done.
  unfold shutdown_world, exec_locked. mrun.
  eexists. split; [done|]. simpl. repeat (split; [done|]).
  split.
  - destruct (exec w) as [m jl c a sd]. simpl in *. by subst.
  - apply new_events_app. simpl. by rewrite <- app_assoc.
Qed.

End ShutdownCalls.


Lemma cancel_mark_idemp x : cancel_mark (cancel_mark x) = cancel_mark x.
Proof.
  unfold cancel_mark. destruct (decide (j_state x = JOB_COMPLETED)) as [H|H].
  - by rewrite decide_True.
  - simpl. by rewrite decide_False.
Qed.

Lemma bound_cancellable w j : bound w j → cancellable w j.
Proof.
  intros (x & f & fx & Hx & Hf & Hfx & Hj & Hm & Ht).
  by exists x, f, fx, j, x.
Qed.

Section Marks.
Variable E : Env.

Lemma future_cancel_effect j w s w' x f :
  jobs w !! j = Some x → j_future x = Some f →
  (∃ fx, futures w !! f = Some fx ∧ f_job fx = Some j) →
  future_cancel E (Some f) w = Some (s, w') →
  jobs w' = <[j := cancel_mark x]> (jobs w) ∧
  futures w' = futures w ∧ exec w' = exec w.
Proof.
  intros Hx Hf (fx & Hfx & Hj) Hc. unfold future_cancel in Hc.
  revert Hc. mrun.
  change (set_trace _ w) with (add_events [EvFutureCancel (Some f)] w).
  intros Hc.
  destruct (job_cancel_effect E j _ s w' Hc) as (x' & Hx' & _ & Hjobs & Hfut & Hex).
  simpl in Hx'. rewrite Hx in Hx'. injection Hx' as <-.
  by rewrite Hjobs, Hfut, Hex.
Qed.

Lemma bound_marked w w' j k x :
  jobs w !! k = Some x → jobs w' = <[k := cancel_mark x]> (jobs w) →
  futures w' = futures w →
  bound w j → bound w' j.
Proof.
  intros Hk Hjobs Hfut (y & f & fx & Hy & Hf & Hfx & Hj & Hm & Ht).
  destruct (decide (j = k)) as [->|Hjk].
  - rewrite Hk in Hy. injection Hy as <-.
    exists (cancel_mark x), f, fx. rewrite Hjobs, Hfut, lookup_insert_eq.
    unfold cancel_mark. by destruct (decide _).
  - exists y, f, fx. rewrite Hjobs, Hfut, lookup_insert_ne by done. done.
Qed.

Lemma cancel_each_effect l : ∀ w stats w',
  (∀ j, j ∈ l → bound w j) →
  cancel_each E (futures_of w l) w = Some (stats, w') →
  futures w' = futures w ∧ exec w' = exec w ∧
  ∀ k, jobs w' !! k
       = if decide (k ∈ l) then cancel_mark <$> jobs w !! k
         else jobs w !! k.
Proof.
  induction l as [|j l IH]; intros w stats w' Hb H.
  - injection H as <- <-. split; [done|]. split; [done|]. intros k.
    rewrite decide_False; [done|]. apply not_elem_of_nil.
  - destruct (Hb j) as (x & f & fx & Hx & Hf & Hfx & Hj & Hm & Ht); [left|].
    unfold futures_of in H. rewrite fmap_cons in H. fold (futures_of w l) in H.
    rewrite Hx in H. simpl in H. rewrite Hf in H.
    unfold mbind at 1, M_bind at 1 in H.
    destruct (future_cancel E (Some f) w) as [[stat w1]|] eqn:Hfc; [|done].
    destruct (future_cancel_effect j w stat w1 x f Hx Hf) as (Hj1 & Hf1 & He1);
      [by exists fx|done|].
    unfold mbind at 1, M_bind at 1 in H.
    set (wa := if decide (stat ≠ 0)
               then add_events [EvLogAdd "Couldn't cancel job"] w1 else w1).
    assert (Hwa : (if decide (stat ≠ 0)
                   then emit (EvLogAdd "Couldn't cancel job")
                   else mret ()) w1 = Some ((), wa)).
    { unfold wa. by destruct (decide _). }
    rewrite Hwa in H.
    assert (Hja : jobs wa = <[j := cancel_mark x]> (jobs w)).
    { unfold wa. destruct (decide _); exact Hj1. }
    assert (Hfa : futures wa = futures w).
    { unfold wa. destruct (decide _); exact Hf1. }
    assert (Hea : exec wa = exec w).
    { unfold wa. destruct (decide _); exact He1. }
    assert (Hfo : futures_of w l = futures_of wa l).
    { unfold futures_of. apply list_fmap_ext. intros _ k _. rewrite Hja.
      destruct (decide (k = j)) as [->|Hk].
      - rewrite lookup_insert_eq, Hx. simpl. unfold cancel_mark.
        by destruct (decide (j_state x = JOB_COMPLETED)).
      - by rewrite lookup_insert_ne. }
    rewrite Hfo in H.
    unfold mbind at 1, M_bind at 1 in H.
    destruct (cancel_each E (futures_of wa l) wa) as [[stats' w2]|] eqn:Hce;
      [|done].
    injection H as <- <-.
    destruct (IH wa stats' w2) as (Hf2 & He2 & Hj2); [|done|].
    { intros k Hk. eapply bound_marked; eauto. apply Hb. by right. }
    split; [congruence|]. split; [congruence|]. intros k. rewrite Hj2, Hja.
    destruct (decide (k = j)) as [->|Hkj].
    + rewrite lookup_insert_eq, Hx, (decide_True (P := j ∈ j :: l)) by left.
      simpl. destruct (decide (j ∈ l)); simpl; by rewrite ?cancel_mark_idemp.
    + rewrite lookup_insert_ne by done.
      destruct (decide (k ∈ l)) as [Hkl|Hkl].
      * rewrite decide_True; [done|by right].
      * rewrite decide_False; [done|].
        rewrite elem_of_cons. intuition.
Qed.

(** X11: a shutdown that cancels sets the flag and cancels every job of
    the list: each keeps its state and its place, has [canceled] set unless
    it is COMPLETED, and no other job and no future is changed. *)
Theorem executor_shutdown_now_cancels l w :
  wf_list w l → ex_mutex (exec w) = false →
  ex_isShutdown (exec w) = false →
  (∀ j, j ∈ l → bound w j) →
  ∃ s w', executor_shutdown E true w = Some (s, w') ∧
          exec w' = set_ex_isShutdown true (exec w) ∧
          futures w' = futures w ∧
          reachable_nodes w' = Some l ∧
          ∀ k, jobs w' !! k
               = if decide (k ∈ l) then cancel_mark <$> jobs w !! k
                 else jobs w !! k.
Proof.
  intros Hwf Hm Hs Hb.
  rewrite (executor_shutdown_first E true w) by done.
  assert (Hwf' : wf_list (shutdown_world w) l) by (by apply (wf_list_ext w)).
  unfold mbind at 1, M_bind at 1.
  rewrite (jobList_cancelAll_eq E _ l Hwf').
  destruct (cancel_each_total E l (shutdown_world w)) as (stats & w1 & Hce).
  { intros j Hj. apply bound_cancellable.
    destruct (Hb j Hj) as (x & f & fx & H). by exists x, f, fx. }
  unfold mbind at 1, M_bind at 1. rewrite Hce.
  destruct (cancel_each_visits E _ _ _ _ Hce) as (_ & _ & Hco).
  destruct (cancel_each_effect l (shutdown_world w) stats w1)
    as (Hf1 & He1 & Hj1); [|done|].
  { intros j Hj. destruct (Hb j Hj) as (x & f & fx & H). by exists x, f, fx. }
  unfold mret at 1, M_ret at 1. cbv beta iota.
  eexists _, _. unfold mbind, M_bind.
  rewrite (executor_unlock_eq w1) by (by rewrite He1).
  split; [done|]. simpl. rewrite He1. simpl.
  split; [|split; [done|split; [|done]]].
  - destruct (exec w) as [m jl c a sd]. simpl in *. by subst.
  - apply reachable_nodes_wf.
    apply (wf_list_ext w1); [done|simpl; by rewrite He1|].
    by eapply canceled_only_wf.
Qed.

End Marks.


(** ** Further properties: the list, and the end of a worker *)
(** The neighbours of a node of the list are other nodes of the list. *)
Lemma wf_neighbours w l j x :
  wf_list w l → j ∈ l → jobs w !! j = Some x →
  (∀ p, j_prev x = Some p →
        p ≠ j ∧ j_next x ≠ Some p ∧ is_Some (jobs w !! p)) ∧
  (∀ n, j_next x = Some n → n ≠ j ∧ is_Some (jobs w !! n)).
Proof.
  intros Hwf Hjl Hx.
  destruct Hwf as [Hnd Hval Hnodes Hhd Htl Hsz].
  apply list_elem_of_lookup in Hjl as [i Hi].
  destruct (Hnodes i j Hi) as (x' & Hx' & Hpx & Hnx).
  rewrite Hx in Hx'. injection Hx' as <-.
  assert (Halloc : ∀ i' k, l !! i' = Some k → is_Some (jobs w !! k)).
  { intros i' k Hk. destruct (Hnodes _ _ Hk) as (? & ? & _). eauto. }
  split.
  - intros p Hp. rewrite Hpx in Hp. destruct i as [|i]; [done|]. simpl in Hp.
    split; [|split].
    + intros ->. pose proof (NoDup_lookup _ _ _ _ Hnd Hp Hi). lia.
    + rewrite Hnx. intros Hn.
      pose proof (NoDup_lookup _ _ _ _ Hnd Hp Hn). lia.
    + by eapply Halloc.
  - intros n Hn. rewrite Hnx in Hn. split.
    + intros ->. pose proof (NoDup_lookup _ _ _ _ Hnd Hn Hi). lia.
    + by eapply Halloc.
Qed.

(** X12: adding a job and removing it again (as a submission does when no
    thread can be created) restores the list record and every other job;
    the job itself keeps its payload, with [prev] left pointing at the
    tail. *)
Theorem jobList_add_remove w l j x :
  wf_list w l → jobs w !! j = Some x → j ∉ l → valid_addr j →
  j_next x = None →
  ∃ w', (jobList_add j;; jobList_remove j) w = Some (tt, w') ∧
        exec w' = exec w ∧ futures w' = futures w ∧ trace w' = trace w ∧
        reachable_nodes w' = Some l ∧
        (∀ k, k ≠ j → jobs w' !! k = jobs w !! k) ∧
        jobs w' !! j = Some (set_j_prev (last l) x).
Proof.
  intros Hwf Hx Hjl Hv Hn.
  destruct (jobList_add_wf w l j x) as (w1 & Hadd & Hwf1 & Hlu1 & Hfr1);
    [done..|].
  assert (Hjl1 : j ∈ l ++ [j]) by (apply elem_of_app; right; left).
  destruct (jobList_remove_wf w1 (l ++ [j]) j) as (w2 & Hrm & Hwf2 & Hlu2 & Hfr2);
    [done..|].
  rewrite filter_ne_snoc in Hwf2 by done.
  pose proof (list_update_trans _ _ _ _ _ Hlu1 Hlu2) as Hlu. simpl in Hlu.
  exists w2. split; [unfold mbind, M_bind; by rewrite Hadd|].
  split; [by eapply list_update_wf_exec|].
  split; [apply Hlu|]. split; [by rewrite (lu_trace _ _ _ Hlu), app_nil_r|].
  split; [by apply reachable_nodes_wf|]. split.
  - intros k Hk. destruct (decide (k ∈ l)) as [Hkl|Hkl].
    + apply (wf_list_same_nodes w w2 l); [done..|apply Hlu|done].
    + rewrite Hfr2, Hfr1; [done..|].
      rewrite elem_of_app, list_elem_of_singleton. intuition.
  - destruct (wf_lookup w1 (l ++ [j]) (length l) j Hwf1)
      as (x1 & Hx1 & Hp1 & Hn1); [by rewrite lookup_app_r, Nat.sub_diag|].
    rewrite nth_prev_app_l, nth_prev_last in Hp1 by done.
    destruct (list_update_lookup _ _ _ j x Hlu1) as (x1' & Hx1' & Hpay); [done|].
    rewrite Hx1 in Hx1'. injection Hx1' as <-.
    destruct (wf_neighbours w1 (l ++ [j]) j x1 Hwf1 Hjl1 Hx1) as [Hpre Hnxt].
    destruct (jobList_remove_run w1 j x1 Hx1 Hpre Hnxt)
      as (w2' & Hrm' & _ & _ & _ & Hj2 & _).
    assert (w2 = w2') as -> by congruence. rewrite Hj2. f_equal.
    assert (Hnn : j_next x1 = None).
    { rewrite Hn1. apply lookup_ge_None. rewrite length_app. simpl. lia. }
    destruct (payload_fields _ _ Hpay) as (?&?&?&?&?&?&?&?).
    destruct x, x1. unfold set_j_prev. simpl in *. congruence.
Qed.

(** X13: [jobList_remove] writes to the two neighbours and to the list
    record only: the [next] of the node before takes the removed job's
    [next], the [prev] of the node after takes its [prev], every other job
    is as it was, and so is the removed job, whose links still name its
    former neighbours. *)
Theorem jobList_remove_unlinks w l j x :
  wf_list w l → j ∈ l → jobs w !! j = Some x →
  ∃ w', jobList_remove j w = Some (tt, w') ∧
        reachable_nodes w' = Some (filter (λ k, k ≠ j) l) ∧
        jobs w' !! j = Some x ∧
        (∀ p xp, j_prev x = Some p → jobs w !! p = Some xp →
                 jobs w' !! p = Some (set_j_next (j_next x) xp)) ∧
        (∀ n xn, j_next x = Some n → jobs w !! n = Some xn →
                 jobs w' !! n = Some (set_j_prev (j_prev x) xn)) ∧
        (∀ k, k ≠ j → j_prev x ≠ Some k → j_next x ≠ Some k →
              jobs w' !! k = jobs w !! k).
Proof.
  intros Hwf Hjl Hx.
  destruct (jobList_remove_wf w l j) as (w' & Hrm & Hwf' & _); [done..|].
  destruct (wf_neighbours w l j x Hwf Hjl Hx) as [Hpre Hnxt].
  destruct (jobList_remove_run w j x Hx Hpre Hnxt)
    as (w2 & Hrm' & _ & _ & _ & Hj2 & Hk2 & _).
  assert (w2 = w') as -> by congruence.
  exists w'. split; [done|]. split; [by apply reachable_nodes_wf|].
  split; [done|]. split; [|split].
  - intros p xp Hp Hxp. destruct (Hpre p Hp) as (Hpj & Hnp & _).
    rewrite Hk2, Hxp by done. simpl. f_equal. unfold unlink_node.
    rewrite decide_False, decide_True by done. by destruct xp.
  - intros n xn Hn Hxn. destruct (Hnxt n Hn) as (Hnj & _).
    rewrite Hk2, Hxn by done. simpl. f_equal. unfold unlink_node.
    rewrite decide_True by done.
    rewrite decide_False; [by destruct xn|].
    intros Hp. destruct (Hpre n Hp) as (_ & Hnn & _). done.
  - intros k Hkj Hkp Hkn. rewrite Hk2 by done.
    destruct (jobs w !! k) as [xk|]; [|done]. simpl. f_equal.
    unfold unlink_node. rewrite !decide_False by done. apply set_links_id.
Qed.

Section Finish.
Variable E : Env.

(** X14: after [job_run], [executor_run] calls the completion handler
    that [executor_setAfterCompletion] has set, if there is one, with the
    completer and the job's future, logs a status that is not zero, and then
    frees the job; the future stays allocated, and the executor is as it
    was. *)
Theorem executor_run_finish_handler completer handler j x w :
  jobs w !! j = Some x → j_state x ≠ JOB_EXECUTING →
  ∃ w0 w',
    executor_setAfterCompletion completer handler w = Some (tt, w0) ∧
    executor_run_finish E j w0 = Some (tt, w') ∧
    jobs w' = delete j (jobs w) ∧ futures w' = futures w ∧
    exec w' = mkExecutor (ex_mutex (exec w)) (ex_jobList (exec w)) completer
                handler (ex_isShutdown (exec w)) ∧
    new_events w w'
    = match handler with
      | Some fn =>
          EvAfterCompletion fn completer (j_future x) ::
          (if decide (after_fn E fn completer (j_future x) w0 ≠ 0)
           then [EvLogAdd "Couldn't process job's future after completion"]
           else []) ++ [EvLogFree]
      | None => [EvLogFree]
      end.
Proof.
  intros Hx Hst.
  exists (set_exec (mkExecutor (ex_mutex (exec w)) (ex_jobList (exec w))
                      completer handler (ex_isShutdown (exec w))) w).
  unfold executor_run_finish, job_free.
  unfold get_exec, mbind at 1, M_bind at 1.
  unfold get_job, mbind at 1, M_bind at 1. simpl jobs. rewrite Hx.
  destruct handler as [fn|].
  - mrun.
    match goal with
    | |- context [decide (?a ≠ 0)] => destruct (decide (a ≠ 0))
    end; mrun; rewrite bool_decide_true by done; simpl;
      eexists; (split; [reflexivity|]); (split; [reflexivity|]); simpl;
      repeat (split; [done|]);
      apply new_events_app; simpl; by rewrite <- ?app_assoc.
  - mrun. rewrite bool_decide_true by done. simpl.
    eexists. split; [reflexivity|]. split; [reflexivity|]. simpl.
    repeat (split; [done|]). by apply new_events_app.
Qed.

End Finish.


Lemma job_free_eq j x w :
  jobs w !! j = Some x → j_state x ≠ JOB_EXECUTING →
  job_free j w = Some (tt, set_jobs (delete j (jobs w)) w).
Proof.
  intros Hx Hs. unfold job_free. mrun. by rewrite bool_decide_true.
Qed.

Lemma job_free_executing j x w :
  jobs w !! j = Some x → j_state x = JOB_EXECUTING → job_free j w = None.
Proof. intros Hx Hs. unfold job_free. mrun. done. Qed.

Lemma drop_lookup_cons {A} (l : list A) i a :
  l !! i = Some a → drop i l = a :: drop (S i) l.
Proof. intros H. by apply drop_S. Qed.

Lemma jobList_free_loop_frees w0 l :
  wf_list w0 l →
  (∀ j x, j ∈ l → jobs w0 !! j = Some x → j_state x ≠ JOB_EXECUTING) →
  ∀ fuel i w,
    (∀ k, k ∈ drop i l → jobs w !! k = jobs w0 !! k) →
    (length l - i ≤ fuel)%nat →
    ∃ w', jobList_free_loop fuel (l !! i) w = Some (tt, w') ∧
          futures w' = futures w ∧ exec w' = exec w ∧ trace w' = trace w ∧
          ∀ k, jobs w' !! k
               = if decide (k ∈ drop i l) then None else jobs w !! k.
Proof.
  intros Hwf Hne. induction fuel as [|fuel IH]; intros i w Hag Hlen.
  - rewrite lookup_ge_None_2 by lia. rewrite drop_ge by lia.
    exists w. repeat (split; [done|]). intros k.
    rewrite decide_False; [done|apply not_elem_of_nil].
  - destruct (l !! i) as [j|] eqn:Hi.
    2:{ apply lookup_ge_None in Hi. rewrite drop_ge by lia.
        exists w. repeat (split; [done|]). intros k.
        rewrite decide_False; [done|apply not_elem_of_nil]. }
    destruct (wf_lookup _ _ _ _ Hwf Hi) as (x & Hx & _ & Hnx).
    pose proof (drop_lookup_cons _ _ _ Hi) as Hdrop.
    assert (Hxw : jobs w !! j = Some x).
    { rewrite Hag; [done|]. rewrite Hdrop. left. }
    assert (Hjl : j ∈ l) by (by eapply list_elem_of_lookup_2).
    assert (Hnot : j ∉ drop (S i) l).
    { intros [n Hn]%list_elem_of_lookup. rewrite lookup_drop in Hn.
      pose proof (NoDup_lookup _ _ _ _ (wf_nodup _ _ Hwf) Hi Hn). lia. }
    destruct (IH (S i) (set_jobs (delete j (jobs w)) w))
      as (w' & Hloop & Hf & He & Ht & Hj).
    { intros k Hk. simpl. rewrite lookup_delete_ne by (intros ->; done).
      apply Hag. rewrite Hdrop. by right. }
    { lia. }
    exists w'. split.
    + simpl. unfold get_job, mbind at 1, M_bind at 1. rewrite Hxw.
      unfold mbind at 1, M_bind at 1.
      rewrite (job_free_eq j x) by eauto. by rewrite Hnx.
    + repeat (split; [done|]). intros k. rewrite Hj, Hdrop. simpl.
      destruct (decide (k = j)) as [->|Hkj].
      * rewrite (decide_False (P := j ∈ drop (S i) l)) by done.
        rewrite lookup_delete_eq. rewrite decide_True; [done|left].
      * rewrite lookup_delete_ne by done.
        destruct (decide (k ∈ drop (S i) l)) as [Hk|Hk].
        -- rewrite decide_True; [done|by right].
        -- rewrite decide_False; [done|]. rewrite elem_of_cons. intuition.
Qed.

Lemma jobList_free_loop_asserts w0 l :
  wf_list w0 l →
  ∀ fuel i w,
    (∀ k, k ∈ drop i l → jobs w !! k = jobs w0 !! k) →
    (length l - i ≤ fuel)%nat →
    (∃ k x, k ∈ drop i l ∧ jobs w0 !! k = Some x ∧
            j_state x = JOB_EXECUTING) →
    jobList_free_loop fuel (l !! i) w = None.
Proof.
  intros Hwf. induction fuel as [|fuel IH]; intros i w Hag Hlen (k & xk & Hk & Hxk & Hs).
  - rewrite drop_ge in Hk by lia. by apply elem_of_nil in Hk.
  - destruct (l !! i) as [j|] eqn:Hi.
    2:{ apply lookup_ge_None in Hi. rewrite drop_ge in Hk by lia.
        by apply elem_of_nil in Hk. }
    destruct (wf_lookup _ _ _ _ Hwf Hi) as (x & Hx & _ & Hnx).
    pose proof (drop_lookup_cons _ _ _ Hi) as Hdrop.
    assert (Hxw : jobs w !! j = Some x).
    { rewrite Hag; [done|]. rewrite Hdrop. left. }
    assert (Hnot : j ∉ drop (S i) l).
    { intros [n Hn]%list_elem_of_lookup. rewrite lookup_drop in Hn.
      pose proof (NoDup_lookup _ _ _ _ (wf_nodup _ _ Hwf) Hi Hn). lia. }
    simpl. unfold get_job, mbind at 1, M_bind at 1. rewrite Hxw.
    unfold mbind at 1, M_bind at 1.
    destruct (decide (j_state x = JOB_EXECUTING)) as [Hex|Hex].
    + by rewrite (job_free_executing j x).
    + rewrite (job_free_eq j x) by done. rewrite Hnx. apply IH.
      * intros k' Hk'. simpl. rewrite lookup_delete_ne by (intros ->; done).
        apply Hag. rewrite Hdrop. by right.
      * lia.
      * exists k, xk. split; [|done]. rewrite Hdrop in Hk.
        apply elem_of_cons in Hk as [->|Hk]; [congruence|done].
Qed.

(** X15: [executor_free], on an executor none of whose jobs executes,
    frees every job of the list and nothing else: the other jobs and all
    the futures, those of the freed jobs included, stay allocated. *)
Theorem executor_free_frees_jobs l w :
  wf_list w l → ex_mutex (exec w) = false →
  (∀ j x, j ∈ l → jobs w !! j = Some x → j_state x ≠ JOB_EXECUTING) →
  ∃ w', executor_free w = Some (tt, w') ∧
        futures w' = futures w ∧
        new_events w w' = [EvExecLock; EvExecUnlock] ∧
        ∀ k, jobs w' !! k = if decide (k ∈ l) then None else jobs w !! k.
Proof.
  intros Hwf Hm Hne.
  destruct (jobList_free_loop_frees (exec_locked w) l) with
    (fuel := size (jobs w)) (i := 0%nat) (w := exec_locked w)
    as (w1 & Hloop & Hf & He & Ht & Hj).
  { by apply (wf_list_ext w). }
  { intros j x Hjl Hx. by apply (Hne j x). }
  { done. }
  { pose proof (wf_length_le_size _ _ Hwf). lia. }
  rewrite drop_0 in Hj.
  exists (exec_unlocked w1). split.
  - unfold executor_free, executor_destroy, mbind, M_bind.
    rewrite executor_lock_eq by done.
    unfold jobList_free, get_world, get_jobList, get_exec, mbind, M_bind,
      mret, M_ret.
    rewrite <- head_lookup, <- (wf_head _ _ Hwf) in Hloop.
    simpl in *. rewrite Hloop.
    rewrite executor_unlock_eq; [done|by rewrite He].
  - simpl. split; [done|]. split; [|done].
    apply new_events_app. simpl. rewrite Ht. simpl. by rewrite <- app_assoc.
Qed.

(** X16: [executor_free] must not be called while a job of the list
    executes: the assertion of [job_free] fails. *)
Theorem executor_free_asserts l w j x :
  wf_list w l → ex_mutex (exec w) = false →
  j ∈ l → jobs w !! j = Some x → j_state x = JOB_EXECUTING →
  executor_free w = None.
Proof.
  intros Hwf Hm Hjl Hx Hs.
  assert (Hwf' : wf_list (exec_locked w) l) by (by apply (wf_list_ext w)).
  pose proof (jobList_free_loop_asserts (exec_locked w) l Hwf'
                (size (jobs w)) 0%nat (exec_locked w)) as Hloop.
  rewrite drop_0, <- head_lookup, <- (wf_head _ _ Hwf) in Hloop.
  unfold executor_free, executor_destroy, mbind, M_bind.
  rewrite executor_lock_eq by done.
  unfold jobList_free, get_world, get_jobList, get_exec, mbind, M_bind,
    mret, M_ret.
  simpl in *. rewrite Hloop; [done|done| |by exists j, x].
  pose proof (wf_length_le_size _ _ Hwf). lia.
Qed.


Lemma job_kept_refl x : job_kept x x.
Proof. unfold job_kept. intuition congruence. Qed.

Lemma job_kept_payload x x' : payload x' = payload x → job_kept x x'.
Proof.
  intros (_&_&?&?&?&?&?&?)%payload_fields. unfold job_kept.
  intuition congruence.
Qed.

Lemma keeps_same w w' :
  jobs w' = jobs w → futures w' = futures w → step_keeps w w'.
Proof.
  intros Hj Hf. constructor.
  - intros j x x' Hx Hx'. rewrite Hj, Hx in Hx'. injection Hx' as <-.
    apply job_kept_refl.
  - intros f fx fx' Hfx Hfx' _. congruence.
Qed.

Lemma keeps_canceled_only w w' : canceled_only w w' → step_keeps w w'.
Proof.
  intros Hco. constructor.
  - intros j x x' Hx Hx'.
    destruct (canceled_only_lookup _ _ _ _ Hco Hx') as (y & Hy & Hyy).
    rewrite Hx in Hy. injection Hy as <-.
    destruct Hyy as [->| ->]; unfold job_kept; simpl; intuition congruence.
  - intros f fx fx' Hfx Hfx' _. rewrite (co_futures _ _ Hco) in Hfx'.
    congruence.
Qed.

Lemma keeps_list_update evs w w' : list_update evs w w' → step_keeps w w'.
Proof.
  intros Hlu. constructor.
  - intros j x x' Hx Hx'.
    destruct (list_update_lookup _ _ _ j x Hlu Hx) as (y & Hy & Hp).
    rewrite Hx' in Hy. injection Hy as <-. by apply job_kept_payload.
  - intros f fx fx' Hfx Hfx' _. rewrite (lu_futures _ _ _ Hlu) in Hfx'.
    congruence.
Qed.

Lemma keeps_set_job evs j x y w :
  jobs w !! j = Some x → job_kept x y →
  step_keeps w (add_events evs (set_job j y w)).
Proof.
  intros Hx Hk. constructor; simpl.
  - intros k xk xk' Hxk Hxk'. destruct (decide (k = j)) as [->|Hkj].
    + rewrite lookup_insert_eq in Hxk'. congruence.
    + rewrite lookup_insert_ne in Hxk' by done.
      rewrite Hxk in Hxk'. injection Hxk' as <-. apply job_kept_refl.
  - intros f fx fx' Hfx Hfx' _. congruence.
Qed.

Section Keeps.
Variable E : Env.
Hypothesis Hfresh : env_alloc_fresh E.

Lemma step_keeps_world s s' l :
  inv s l → step E s s' → step_keeps (world s) (world s').
Proof.
  intros Hinv Hstep.
  destruct Hstep as
    [s obj run halt f j tid w' Hsub Hfj
    |s obj run halt w' Hsub
    |s j tid ran w' Hw Hrun
    |s j tid status result w' Hw Hrun
    |s j tid status result w' Hw Hrun
    |s j tid status result w' Hw Hrun
    |s j tid status result w' Hw Hrun
    |s j tid w' Hw Hrun
    |s j status w' Hc
    |s f status w' Hc
    |s now status w' Hsd
    |s n w' Hsz
    |s completer fn w' Hset
    |s f fx w' Hfx Hp Hfree]; simpl.
  - destruct (executor_submit_cases E obj run halt l (world s))
      as [(evs & Hev)|(f' & j' & w2 & Hev & Hfr & Hjn & Hwf' & Hlu)];
      [done|apply Hinv|apply Hinv|congruence|].
    rewrite Hev in Hsub. injection Hsub as -> ->.
    constructor.
    + intros k xk xk' Hxk Hxk'. assert (k ≠ j') by congruence.
      destruct (list_update_lookup _ _ _ k xk Hlu) as (y & Hy & Hpy).
      { simpl. by rewrite lookup_insert_ne. }
      rewrite Hxk' in Hy. injection Hy as <-. by apply job_kept_payload.
    + intros f0 fx fx' Hfx Hfx' _. rewrite (lu_futures _ _ _ Hlu) in Hfx'.
      simpl in Hfx'. assert (f0 ≠ f) by congruence.
      rewrite lookup_insert_ne in Hfx' by done. congruence.
  - destruct (executor_submit_cases E obj run halt l (world s))
      as [(evs & Hev)|(f & j & w2 & Hev & _)];
      [done|apply Hinv|apply Hinv| |congruence].
    rewrite Hev in Hsub. injection Hsub as <-. by apply keeps_same.
  - destruct (inv_worker _ _ _ _ _ Hinv Hw) as (x & Hx & Hm & Hjl & Hst & Hfp).
    destruct (j_canceled x) eqn:Hcx.
    + rewrite (job_run_begin_skip tid j x) in Hrun by done.
      injection Hrun as <- <-. by apply keeps_same.
    + rewrite (job_run_begin_start tid j x) in Hrun by done.
      injection Hrun as <- <-. apply keeps_set_job with (x := x); [done|].
      unfold job_kept. simpl. intuition congruence.
  - destruct (inv_worker _ _ _ _ _ Hinv Hw) as (x & Hx & Hm & Hpc).
    rewrite (job_run_call_eq E j x) in Hrun by done.
    injection Hrun as _ <-. by apply keeps_same.
  - destruct (inv_worker _ _ _ _ _ Hinv Hw) as (x & Hx & Hm & Hjl & Hst & Ht & Hfp).
    rewrite (job_run_end_eq j x) in Hrun by done.
    injection Hrun as <-. apply keeps_set_job with (x := x); [done|].
    unfold job_kept. simpl. intuition congruence.
  - destruct (inv_worker _ _ _ _ _ Hinv Hw) as (x & Hx & Hm & Hjl & Hst & Hfp).
    destruct (executor_remove_wf (world s) l j) as (w2 & Hrm & Hwf2 & Hlu & _);
      [apply Hinv|done|apply Hinv|].
    rewrite Hrm in Hrun. injection Hrun as <-. by eapply keeps_list_update.
  - destruct (inv_worker _ _ _ _ _ Hinv Hw)
      as (x & Hx & Hm & Hjl & Hst & f & fx & Hf & Hfx & Hp & Hfj).
    rewrite (job_run_publish_eq j x f fx) in Hrun by done.
    injection Hrun as <-. constructor; simpl.
    + intros k xk xk' Hxk Hxk'. rewrite Hxk in Hxk'. injection Hxk' as <-.
      apply job_kept_refl.
    + intros f0 fx0 fx' Hfx0 Hfx' Hp0. assert (f0 ≠ f) by congruence.
      rewrite lookup_insert_ne in Hfx' by done. congruence.
  - destruct (inv_worker _ _ _ _ _ Hinv Hw) as (x & Hx & Hm & Hjl & Hst).
    destruct (executor_run_finish_eq E j x (world s)) as [evs Heq]; [done..|].
    rewrite Heq in Hrun. injection Hrun as <-. constructor; simpl.
    + intros k xk xk' Hxk Hxk'. destruct (decide (k = j)) as [->|Hkj].
      { by rewrite lookup_delete_eq in Hxk'. }
      rewrite lookup_delete_ne in Hxk' by done.
      rewrite Hxk in Hxk'. injection Hxk' as <-. apply job_kept_refl.
    + intros f fx fx' Hfx Hfx' _. congruence.
  - apply keeps_canceled_only. by eapply job_cancel_canceled_only.
  - apply keeps_canceled_only. by eapply future_cancel_canceled_only.
  - apply executor_shutdown_inv in Hsd as (_ & _ & _ & _ & Hco).
    destruct (keeps_canceled_only _ _ Hco) as [Hj Hf]. by constructor.
  - rewrite (executor_size_eq _ l) in Hsz by apply Hinv.
    injection Hsz as _ <-. by apply keeps_same.
  - injection Hset as <-. by apply keeps_same.
  - revert Hfree. unfold future_free. mrun. intros H. injection H as <-.
    constructor; simpl.
    + intros k xk xk' Hxk Hxk'. rewrite Hxk in Hxk'. injection Hxk' as <-.
      apply job_kept_refl.
    + intros f0 fx0 fx' Hfx0 Hfx' _. destruct (decide (f0 = f)) as [->|Hne].
      * by rewrite lookup_delete_eq in Hfx'.
      * rewrite lookup_delete_ne in Hfx' by done. congruence.
Qed.

End Keeps.


(** ** Further properties: the executor and its threads *)
Section SystemProperties.
Variable E : Env.
Hypothesis Hfresh : env_alloc_fresh E.

Lemma reachable_step s s' : reachable E s → step E s s' → reachable E s'.
Proof.
  intros (s0 & Hinit & Hrtc) Hstep. exists s0. split; [done|].
  eapply rtc_r; eauto.
Qed.

Lemma steps_alive_start j s s' :
  steps_alive E j s s' → is_Some (jobs (world s) !! j).
Proof. by intros [?|? ? ? ? _ _]. Qed.

(** X17: a job that is cancelled before its thread has started never
    starts: as long as it is allocated, whatever the threads do, it stays
    INITIALIZED and cancelled, and its worker is never in the task. *)
Theorem canceled_job_never_starts s s' j x :
  reachable E s →
  jobs (world s) !! j = Some x →
  j_state x = JOB_INITIALIZED → j_canceled x = true →
  steps_alive E j s s' →
  ∃ x', jobs (world s') !! j = Some x' ∧
        j_state x' = JOB_INITIALIZED ∧ j_canceled x' = true ∧
        ∀ tid, workers s' !! j ≠ Some (tid, PcRunning).
Proof.
  intros Hreach Hx Hst Hc Hsteps. revert x Hreach Hx Hst Hc.
  induction Hsteps as [s _|s1 s2 s3 _ Hstep Hrest IH]; intros x Hreach Hx Hst Hc;
    [|destruct (steps_alive_start _ _ _ Hrest) as [x2 Hx2]].
  - exists x. repeat (split; [done|]). intros tid Hw.
    destruct (reachable_inv E Hfresh s Hreach) as [l Hinv].
    destruct (inv_worker _ _ _ _ _ Hinv Hw) as (y & Hy & _ & _ & Hsy & _).
    congruence.
  - destruct (reachable_inv E Hfresh s1 Hreach) as [l Hinv].
    destruct (step_preserves E Hfresh _ _ _ Hinv Hstep) as [l2 [_ Hfw _]].
    destruct (step_keeps_world E Hfresh _ _ _ Hinv Hstep) as [Hk _].
    destruct (Hk j x x2 Hx Hx2) as (_ & _ & _ & _ & Hkc & Hks).
    apply (IH x2); [by eapply reachable_step|done| |by apply Hkc].
    destruct (Hfw j x x2 Hx Hx2) as [Hs|[[_ Hs]|[Hs _]]]; [congruence| |congruence].
    specialize (Hks Hst Hs). congruence.
Qed.

(** X18: a result, once published, is final: no step of any thread
    changes a future that holds one. *)
Theorem published_result_final s s' f fx fx' :
  reachable E s → step E s s' →
  futures (world s) !! f = Some fx → f_published fx = true →
  futures (world s') !! f = Some fx' →
  fx' = fx.
Proof.
  intros [l Hinv]%(reachable_inv E Hfresh) Hstep Hfx Hp Hfx'.
  destruct (step_keeps_world E Hfresh _ _ _ Hinv Hstep) as [_ Hk]. eauto.
Qed.

(** X19: no worker is ever stuck: in every reachable state the next phase
    of every worker returns, so no assertion of [executor_run] fails, no
    mutex is found locked, and no freed job or future is used. *)
Theorem worker_phase_returns s j tid pc :
  reachable E s → workers s !! j = Some (tid, pc) →
  phase_returns E (world s) j tid pc.
Proof.
  intros [l Hinv]%(reachable_inv E Hfresh) Hw.
  destruct (inv_worker _ _ _ _ _ Hinv Hw) as (x & Hx & Hm & Hpc).
  destruct pc as [| |st r|st r|st r|]; simpl in *.
  - destruct (j_canceled x) eqn:Hc.
    + rewrite (job_run_begin_skip tid j x) by done. eauto.
    + rewrite (job_run_begin_start tid j x) by done. eauto.
  - rewrite (job_run_call_eq E j x) by done. eauto.
  - rewrite (job_run_end_eq j x) by done. eauto.
  - destruct Hpc as (Hjl & _).
    destruct (executor_remove_wf (world s) l j) as (w' & Hrm & _);
      [apply Hinv|done|apply Hinv|]. eauto.
  - destruct Hpc as (_ & _ & f & fx & Hf & Hfx & Hp & _).
    rewrite (job_run_publish_eq j x f fx) by done. eauto.
  - destruct Hpc as (_ & Hst).
    destruct (executor_run_finish_eq E j x (world s)) as [evs Heq]; [done..|].
    eauto.
Qed.

(** X20: no call of the interface is ever stuck at the executor: in every
    reachable state [executor_submit], [executor_shutdown] with either flag,
    and [executor_size] return. A shutdown that cancels holds the lock of
    the executor throughout, so that no job of the list is taken off it,
    and none is freed, while it is cancelled. *)
Theorem calls_return s :
  reachable E s →
  (∀ obj run halt, ∃ r w',
     executor_submit E obj run halt (world s) = Some (r, w')) ∧
  (∀ now, ∃ st w', executor_shutdown E now (world s) = Some (st, w')) ∧
  (∃ n w', executor_size (world s) = Some (n, w')).
Proof.
  intros [l Hinv]%(reachable_inv E Hfresh).
  assert (Hthr : ∀ j x, jobs (world s) !! j = Some x →
            j_mutex x = false ∧
            (j_state x = JOB_EXECUTING → is_Some (j_thread x))).
  { intros j x Hx.
    destruct (inv_jobs _ _ Hinv j x Hx) as (Hm & tid & pc & _ & Hpc).
    split; [done|]. intros Hs.
    destruct pc; simpl in Hpc.
    - destruct Hpc as (_ & Hst & _). congruence.
    - destruct Hpc as (_ & _ & Ht & _). eauto.
    - destruct Hpc as (_ & _ & Ht & _). eauto.
    - by destruct Hpc as (_ & Hst & _).
    - by destruct Hpc as (_ & Hst & _).
    - by destruct Hpc as (_ & Hst). }
  split; [|split].
  - intros obj run halt.
    destruct (executor_submit_cases E obj run halt l (world s))
      as [(evs & Hev)|(f & j & w' & Hev & _)]; [done|apply Hinv..| |]; eauto.
  - intros now. apply (executor_shutdown_total E now (world s) l);
      [apply Hinv..|].
    intros j Hjl. destruct (wf_elem _ _ _ (inv_wf _ _ Hinv) Hjl) as [x Hx].
    destruct (inv_jobs _ _ Hinv j x Hx) as (Hm & tid & pc & _ & Hpc).
    destruct (pc_ok_member _ _ _ _ _ _ Hpc Hjl) as [Hnp _].
    destruct (pc_ok_pending _ _ _ _ _ _ Hpc Hnp) as (f & fx & Hf & Hfx & _ & Hfj).
    exists x, f, fx, j, x. destruct (Hthr j x Hx). done.
  - rewrite (executor_size_eq _ l) by apply Hinv. eauto.
Qed.

(** X21: in every reachable state the list holds, once each, exactly the
    jobs whose worker has not yet called [executor_remove], and
    [executor_size] returns their number. *)
Theorem list_holds_unremoved_jobs s :
  reachable E s →
  ∃ l, reachable_nodes (world s) = Some l ∧ NoDup l ∧
       executor_size (world s)
       = Some (N.of_nat (length l),
               add_events [EvExecLock; EvExecUnlock] (world s)) ∧
       ∀ j, j ∈ l ↔ ∃ tid pc, workers s !! j = Some (tid, pc) ∧
                               before_removal pc.
Proof.
  intros [l Hinv]%(reachable_inv E Hfresh). exists l.
  split; [apply reachable_nodes_wf, Hinv|]. split; [apply Hinv|].
  split; [apply executor_size_eq; apply Hinv|].
  intros j. split.
  - intros Hjl. destruct (wf_elem _ _ _ (inv_wf _ _ Hinv) Hjl) as [x Hx].
    destruct (inv_jobs _ _ Hinv j x Hx) as (_ & tid & pc & Hw & Hpc).
    exists tid, pc. split; [done|].
    destruct pc; simpl in *; try done; by destruct Hpc.
  - intros (tid & pc & Hw & Hbr).
    destruct (inv_worker _ _ _ _ _ Hinv Hw) as (x & _ & _ & Hpc).
    destruct pc; simpl in *; try done; by destruct Hpc.
Qed.

(** X22: no job is leaked and no lock is left held: in every reachable
    state the allocated jobs are exactly the jobs of the live workers (a
    rejected or failed submission has freed its job, a worker frees its own
    at its end), and the mutex of the executor and of every job is free. *)
Theorem no_leak_no_lock s :
  reachable E s →
  (∀ j, is_Some (jobs (world s) !! j) ↔ is_Some (workers s !! j)) ∧
  ex_mutex (exec (world s)) = false ∧
  (∀ j x, jobs (world s) !! j = Some x → j_mutex x = false).
Proof.
  intros [l Hinv]%(reachable_inv E Hfresh). split; [|split].
  - intros j. split.
    + intros [x Hx].
      destruct (inv_jobs _ _ Hinv j x Hx) as (_ & tid & pc & Hw & _). eauto.
    + apply Hinv.
  - apply Hinv.
  - intros j x Hx. by destruct (inv_jobs _ _ Hinv j x Hx).
Qed.

End SystemProperties.


(** ** Instances of the further properties *)
Lemma env_no_mutex_fresh : env_alloc_fresh env_no_mutex.
Proof.
  split.
  - intros w j H. unfold env_no_mutex in H. cbn [log_malloc] in H.
    exact (alloc_fresh _ _ H).
  - intros w f H. unfold env_no_mutex in H. cbn [future_alloc] in H.
    exact (proj1 (alloc_fresh _ _ H)).
Qed.

Lemma wf_running : wf_list w_running [1; 2]%positive.
Proof. wf_concrete. Qed.

Lemma bound_two j : j ∈ [1; 2]%positive → bound w_two j.
Proof.
  intros H. elem_cases H.
  - exists (mkJob false None None 5%positive HaltDefault (Some 1%positive)
                  None (Some 2%positive) JOB_INITIALIZED false),
           1%positive, (mkFuture (Some 1%positive) false 0 None false).
    repeat (split; [reflexivity|]). discriminate.
  - exists (mkJob false None (Some 3%positive) 5%positive (HaltUser 6%positive)
                  (Some 2%positive) (Some 1%positive) None JOB_INITIALIZED
                  false),
           2%positive, (mkFuture (Some 2%positive) false 0 None false).
    repeat (split; [reflexivity|]). discriminate.
Qed.

Lemma reach_one_canceled : reachable env_ok s_one_canceled.
Proof.
  exists s_new. split; [done|].
  eapply rtc_l; [apply step_new_one|].
  eapply rtc_l; [|apply rtc_refl].
  apply (step_job_cancel env_ok s_one 1%positive 0 w_one_canceled).
  by vm_compute.
Qed.

Lemma step_canceled_skipped : step env_ok s_one_canceled s_one_skipped.
Proof.
  apply (step_begin env_ok s_one_canceled 1%positive 4 false w_one_skipped);
    by vm_compute.
Qed.

Lemma step_published_finished : step env_ok s_published s_finished.
Proof.
  apply (step_finish env_ok s_published 1%positive 4 w_finished); by vm_compute.
Qed.

Lemma reach_finished : reachable env_ok s_finished.
Proof.
  exact (reachable_step env_ok _ _ reach_published step_published_finished).
Qed.

Lemma job_cancel_initialized_witness :
  ∃ w', job_cancel env_ok 1%positive w_two = Some (0, w') ∧
        j_canceled <$> jobs w' !! 1%positive = Some true.
Proof.
  destruct (job_cancel_initialized env_ok 1%positive
              (mkJob false None None 5%positive HaltDefault (Some 1%positive)
                     None (Some 2%positive) JOB_INITIALIZED false)
              w_two) as (w' & Hc & Hj & _).
  - reflexivity.
  - reflexivity.
  - reflexivity.
  - exists w'. split; [exact Hc|]. rewrite Hj. reflexivity.
Defined.

Lemma job_cancel_then_run_witness :
  ∃ w1 w2, job_cancel env_ok 1%positive w_two = Some (0, w1) ∧
           job_run env_ok 4 1%positive w1 = Some (tt, w2) ∧
           reachable_nodes w2 = Some [2%positive].
Proof.
  destruct (job_cancel_then_run env_ok 4 1%positive
              (mkJob false None None 5%positive HaltDefault (Some 1%positive)
                     None (Some 2%positive) JOB_INITIALIZED false)
              1%positive (mkFuture (Some 1%positive) false 0 None false)
              [1; 2]%positive w_two)
    as (w1 & w2 & Hc & Hr & _ & Hn & _).
  - apply wf_two.
  - left.
  - reflexivity.
  - reflexivity.
  - reflexivity.
  - reflexivity.
  - reflexivity.
  - reflexivity.
  - reflexivity.
  - exists w1, w2. split; [exact Hc|]. split; [exact Hr|exact Hn].
Defined.

Lemma job_run_completes_witness :
  ∃ w', job_run env_ok 4 1%positive w_two = Some (tt, w') ∧
        futures w' !! 1%positive
        = Some (mkFuture (Some 1%positive) true 7 None false).
Proof.
  destruct (job_run_completes env_ok 4 1%positive
              (mkJob false None None 5%positive HaltDefault (Some 1%positive)
                     None (Some 2%positive) JOB_INITIALIZED false)
              1%positive (mkFuture (Some 1%positive) false 0 None false)
              [1; 2]%positive w_two)
    as (w' & Hr & _ & _ & _ & Hf).
  - apply wf_two.
  - left.
  - reflexivity.
  - reflexivity.
  - reflexivity.
  - reflexivity.
  - reflexivity.
  - reflexivity.
  - reflexivity.
  - exists w'. split; [exact Hr|exact Hf].
Defined.

Lemma job_cancel_while_executing_witness :
  ∃ w0 w1 w',
    job_run_begin 9 2%positive w_two = Some (true, w0) ∧
    job_cancel env_ok 2%positive w0 = Some (5, w1) ∧
    new_events w0 w1
    = [EvJobLock 2%positive; EvJobUnlock 2%positive;
       EvHalt 6%positive (Some 3%positive) 9;
       EvLogError "Job's halt function returned %d" 5] ∧
    (r ← job_run_call env_ok 2%positive; job_run_end 2%positive;;
     executor_remove 2%positive;;
     job_run_publish 2%positive r.1 r.2) w1 = Some (tt, w') ∧
    futures w' !! 2%positive
    = Some (mkFuture (Some 2%positive) true 7 (Some 3%positive) true).
Proof.
  destruct (job_cancel_while_executing env_ok 9 2%positive
              (mkJob false None (Some 3%positive) 5%positive
                     (HaltUser 6%positive) (Some 2%positive)
                     (Some 1%positive) None JOB_INITIALIZED false)
              2%positive (mkFuture (Some 2%positive) false 0 None false)
              [1; 2]%positive w_two)
    as (st & w1 & w' & Hb & Hc & _ & Hu & _ & Hr & _ & Hf & _).
  - apply wf_two.
  - right. left.
  - reflexivity.
  - reflexivity.
  - reflexivity.
  - reflexivity.
  - reflexivity.
  - reflexivity.
  - reflexivity.
  - destruct (Hu 6%positive eq_refl) as [Hs Hev].
    change (st = 5) in Hs. subst st.
    eexists _, w1, w'. split; [exact Hb|]. split; [exact Hc|].
    split; [exact Hev|]. split; [exact Hr|exact Hf].
Defined.

Lemma executor_submit_accepted_witness :
  ∃ w', executor_submit env_ok None 5%positive None w_two
        = Some (Some 3%positive, w') ∧
        reachable_nodes w' = Some [1; 2; 3]%positive.
Proof.
  destruct (executor_submit_accepted env_ok None 5%positive None
              [1; 2]%positive w_two 3%positive 3%positive)
    as (w' & Hsub & _ & _ & _ & Hn & _).
  - apply env_fresh.
  - apply wf_two.
  - reflexivity.
  - reflexivity.
  - repeat split; by vm_compute.
  - by vm_compute.
  - exists w'. split; [exact Hsub|exact Hn].
Defined.

Lemma executor_submit_all_or_nothing_witness :
  ∃ r w', executor_submit env_no_thread None 5%positive None w_two
          = Some (r, w').
Proof.
  destruct (executor_submit_all_or_nothing env_no_thread None 5%positive None
              [1; 2]%positive w_two) as (r & w' & Hsub & _).
  - apply env_fresh.
  - apply wf_two.
  - reflexivity.
  - exists r, w'. exact Hsub.
Defined.

Lemma executor_submit_no_resources_witness :
  ∃ evs, executor_submit env_no_mutex None 5%positive None w_two
         = Some (None, add_events (evs ++ [EvLogAdd "Couldn't create new job"])
                         w_two).
Proof.
  destruct (executor_submit_no_resources env_no_mutex None 5%positive None
              w_two) as (evs & msg & Hsub & _ & Hmsg).
  - apply env_no_mutex_fresh.
  - intros f j (_ & _ & Hm & _). discriminate Hm.
  - exists evs. rewrite Hsub, Hmsg. reflexivity.
Defined.

Lemma executor_submit_default_halt_witness :
  ∃ w1 w2 w3,
    executor_submit env_ok None 5%positive None w_two
    = Some (Some 3%positive, w1) ∧
    job_run_begin 8 3%positive w1 = Some (true, w2) ∧
    job_cancel env_ok 3%positive w2 = Some (0, w3).
Proof.
  destruct (executor_submit_default_halt env_ok None 5%positive 8
              [1; 2]%positive w_two 3%positive 3%positive)
    as (w1 & w2 & wc & st & w3 & Hsub & Hb & Hc & _ & Hst & _).
  - apply env_fresh.
  - apply wf_two.
  - reflexivity.
  - reflexivity.
  - repeat split; by vm_compute.
  - by vm_compute.
  - exists w1, w2, w3. split; [exact Hsub|]. split; [exact Hb|].
    rewrite Hc, Hst. reflexivity.
Defined.

Lemma executor_shutdown_then_submit_witness :
  ∃ evs, executor_submit env_ok None 5%positive None w_shutdown
         = Some (None, add_events evs w_shutdown).
Proof.
  destruct (executor_shutdown_then_submit env_ok true None 5%positive None
              w_running 5 w_shutdown) as (evs & Hsub & _).
  - apply env_fresh.
  - by vm_compute.
  - exists evs. exact Hsub.
Defined.

Lemma executor_shutdown_graceful_witness :
  ∃ w', executor_shutdown env_ok false w_two = Some (0, w') ∧
        jobs w' = jobs w_two.
Proof.
  destruct (executor_shutdown_graceful env_ok w_two)
    as (w' & Hsd & Hj & _).
  - reflexivity.
  - reflexivity.
  - exists w'. split; [exact Hsd|exact Hj].
Defined.

Lemma executor_shutdown_now_cancels_witness :
  ∃ s w', executor_shutdown env_ok true w_two = Some (s, w') ∧
          j_canceled <$> jobs w' !! 1%positive = Some true ∧
          j_canceled <$> jobs w' !! 2%positive = Some true.
Proof.
  destruct (executor_shutdown_now_cancels env_ok [1; 2]%positive w_two)
    as (s & w' & Hsd & _ & _ & _ & Hj).
  - apply wf_two.
  - reflexivity.
  - reflexivity.
  - apply bound_two.
  - exists s, w'. split; [exact Hsd|]. rewrite !Hj. split; reflexivity.
Defined.

Lemma jobList_add_remove_witness :
  ∃ w', (jobList_add 1%positive;; jobList_remove 1%positive) w_nodes
        = Some (tt, w') ∧ exec w' = exec w_nodes.
Proof.
  destruct (jobList_add_remove w_nodes [] 1%positive fresh_job)
    as (w' & Hrun & Hex & _).
  - by apply wf_list_empty.
  - reflexivity.
  - apply not_elem_of_nil.
  - reflexivity.
  - reflexivity.
  - exists w'. split; [exact Hrun|exact Hex].
Defined.

Lemma jobList_remove_unlinks_witness :
  ∃ w', jobList_remove 1%positive w_two = Some (tt, w') ∧
        j_next <$> jobs w' !! 1%positive = Some (Some 2%positive) ∧
        j_prev <$> jobs w' !! 2%positive = Some None.
Proof.
  destruct (jobList_remove_unlinks w_two [1; 2]%positive 1%positive
              (mkJob false None None 5%positive HaltDefault (Some 1%positive)
                     None (Some 2%positive) JOB_INITIALIZED false))
    as (w' & Hrm & _ & Hj & _ & Hn & _).
  - apply wf_two.
  - left.
  - reflexivity.
  - exists w'. split; [exact Hrm|]. split; [by rewrite Hj|].
    rewrite (Hn 2%positive
               (mkJob false None (Some 3%positive) 5%positive
                      (HaltUser 6%positive) (Some 2%positive)
                      (Some 1%positive) None JOB_INITIALIZED false));
      reflexivity.
Defined.

Lemma executor_run_finish_handler_witness :
  ∃ w0 w',
    executor_setAfterCompletion (Some 7%positive) (Some 8%positive) w_completed
    = Some (tt, w0) ∧
    executor_run_finish env_ok 2%positive w0 = Some (tt, w') ∧
    new_events w_completed w'
    = [EvAfterCompletion 8%positive (Some 7%positive) (Some 2%positive);
       EvLogFree].
Proof.
  destruct (executor_run_finish_handler env_ok (Some 7%positive)
              (Some 8%positive) 2%positive
              (mkJob false (Some 9) (Some 3%positive) 5%positive
                     (HaltUser 6%positive) (Some 2%positive)
                     (Some 1%positive) None JOB_COMPLETED false)
              w_completed) as (w0 & w' & Hs & Hf & _ & _ & _ & Hev).
  - reflexivity.
  - discriminate.
  - exists w0, w'. split; [exact Hs|]. split; [exact Hf|exact Hev].
Defined.

Lemma executor_free_frees_jobs_witness :
  ∃ w', executor_free w_two = Some (tt, w') ∧
        jobs w' !! 1%positive = None ∧ jobs w' !! 2%positive = None ∧
        futures w' = futures w_two.
Proof.
  destruct (executor_free_frees_jobs [1; 2]%positive w_two)
    as (w' & Hfree & Hfut & _ & Hj).
  - apply wf_two.
  - reflexivity.
  - intros j x Hjl Hx. elem_cases Hjl.
    + injection Hx as <-. discriminate.
    + injection Hx as <-. discriminate.
  - exists w'. split; [exact Hfree|]. rewrite !Hj.
    split; [reflexivity|]. split; [reflexivity|exact Hfut].
Defined.

Lemma executor_free_asserts_witness : executor_free w_running = None.
Proof.
  apply (executor_free_asserts [1; 2]%positive w_running 2%positive
           (mkJob false (Some 9) (Some 3%positive) 5%positive
                  (HaltUser 6%positive) (Some 2%positive)
                  (Some 1%positive) None JOB_EXECUTING false)).
  - apply wf_running.
  - reflexivity.
  - right. left.
  - reflexivity.
  - reflexivity.
Defined.

Lemma canceled_job_never_starts_witness :
  ∃ x', jobs (world s_one_skipped) !! 1%positive = Some x' ∧
        j_state x' = JOB_INITIALIZED ∧ j_canceled x' = true.
Proof.
  destruct (canceled_job_never_starts env_ok (env_fresh 0) s_one_canceled
              s_one_skipped 1%positive
              (mkJob false None None 5%positive HaltDefault (Some 1%positive)
                     None None JOB_INITIALIZED true))
    as (x' & Hx' & Hs & Hc & _).
  - apply reach_one_canceled.
  - reflexivity.
  - reflexivity.
  - reflexivity.
  - eapply steps_alive_step.
    + eexists. reflexivity.
    + apply step_canceled_skipped.
    + apply steps_alive_refl. eexists. reflexivity.
  - exists x'. split; [exact Hx'|]. split; [exact Hs|exact Hc].
Defined.

Lemma published_result_final_witness :
  futures (world s_finished) !! 1%positive
  = Some (mkFuture (Some 1%positive) true 7 None false) ∧
  jobs (world s_finished) !! 1%positive = None.
Proof.
  split; [|reflexivity].
  destruct (futures (world s_finished) !! 1%positive) as [fx'|] eqn:Hfx'.
  - f_equal.
    apply (published_result_final env_ok (env_fresh 0) s_published s_finished
             1%positive).
    + apply reach_published.
    + apply step_published_finished.
    + reflexivity.
    + reflexivity.
    + exact Hfx'.
  - discriminate Hfx'.
Defined.

Lemma worker_phase_returns_witness :
  ∃ w', executor_run_finish env_ok 1%positive (world s_published)
        = Some (tt, w').
Proof.
  apply (worker_phase_returns env_ok (env_fresh 0) s_published 1%positive 4
           PcPublished).
  - apply reach_published.
  - reflexivity.
Defined.

Lemma calls_return_witness :
  ∃ st w', executor_shutdown env_ok true (world s_one) = Some (st, w').
Proof.
  destruct (calls_return env_ok (env_fresh 0) s_one) as (_ & Hsd & _).
  - apply reach_one.
  - apply Hsd.
Defined.

Lemma list_holds_unremoved_jobs_witness :
  ∃ l, reachable_nodes (world s_published) = Some l ∧
       (1%positive ∈ l ↔
        ∃ tid pc, workers s_published !! 1%positive = Some (tid, pc) ∧
                  before_removal pc).
Proof.
  destruct (list_holds_unremoved_jobs env_ok (env_fresh 0) s_published)
    as (l & Hl & _ & _ & Hm).
  - apply reach_published.
  - exists l. split; [exact Hl|apply Hm].
Defined.

Lemma no_leak_no_lock_witness :
  (∀ j, is_Some (jobs (world s_finished) !! j)
        ↔ is_Some (workers s_finished !! j)) ∧
  ex_mutex (exec (world s_finished)) = false.
Proof.
  destruct (no_leak_no_lock env_ok (env_fresh 0) s_finished) as (Hj & Hm & _).
  - apply reach_finished.
  - split; [exact Hj|exact Hm].
Defined.

